(** * Email summarizer: text pipeline and summarizer adapter

    A shallow embedding of the two front ends of the repository,
    [email_summarizer_streamlit.py] (the web variant, [Module Streamlit])
    and [email_summarizer_tkinter.py] (the desktop variant,
    [Module Tkinter]), together with the part of Python's [str] and [re]
    they rely on.  The program comes first, then the vocabulary of the
    properties, then the lemmas, then the theorems that settle the
    claims of the specification, and last further properties of the
    code.

    Data.  A Python [str] is a list of characters.  A character is a code
    point below 256, written as an [ascii]; every pattern of the program
    is plain ASCII, and below 256 neither Unicode case folding nor
    Unicode white space reaches outside the range.  White space is
    Python's [str.isspace], which is also what [\s] matches in a [str]
    pattern. *)

From Stdlib Require Import Ascii String List Arith Bool Lia.
Import ListNotations.
Local Open Scope list_scope.

Definition pystr := list ascii.

Definition nl : ascii := "010"%char.

(** A Python string literal: [\n], [\t], [\r] and [\\] are escapes. *)
Fixpoint unescape (s : string) : pystr :=
  match s with
  | EmptyString => []
  | String "\"%char (String "n"%char s') => nl :: unescape s'
  | String "\"%char (String "t"%char s') => "009"%char :: unescape s'
  | String "\"%char (String "r"%char s') => "013"%char :: unescape s'
  | String "\"%char (String "\"%char s') => "\"%char :: unescape s'
  | String c s' => c :: unescape s'
  end.

Definition py (s : string) : pystr := unescape s.

(** ** Python's [str] methods used by the program *)
Module Str.

(** [str.isspace] on one character: 9-13, 28-32, 133 and 160. *)
Definition isspace (c : ascii) : bool :=
  let n := nat_of_ascii c in
  ((9 <=? n) && (n <=? 13)) || ((28 <=? n) && (n <=? 32))
  || (n =? 133) || (n =? 160).

Fixpoint lstrip (s : pystr) : pystr :=
  match s with
  | c :: s' => if isspace c then lstrip s' else s
  | [] => []
  end.

Definition rstrip (s : pystr) : pystr := rev (lstrip (rev s)).

(** [s.strip()] *)
Definition strip (s : pystr) : pystr := rstrip (lstrip s).

(** [s.split('\n')]: the result always has at least one element. *)
Fixpoint split_nl (s : pystr) : list pystr :=
  match s with
  | [] => [[]]
  | c :: s' =>
      if Ascii.eqb c nl then [] :: split_nl s'
      else match split_nl s' with
           | l :: ls => (c :: l) :: ls
           | [] => [[c]]
           end
  end.

(** ['\n'.join(ls)] *)
Fixpoint join_nl (ls : list pystr) : pystr :=
  match ls with
  | [] => []
  | [l] => l
  | l :: ls' => l ++ nl :: join_nl ls'
  end.

(** [s[:n]] *)
Definition slice_to (n : nat) (s : pystr) : pystr := firstn n s.

(** [s.split()]: the words of [s], cut at runs of white space; [word]
    holds the characters of the word being read, last one first. *)
Fixpoint split_from (word : pystr) (s : pystr) : list pystr :=
  match s with
  | [] => match word with [] => [] | _ :: _ => [rev word] end
  | c :: s' =>
      if isspace c then
        match word with
        | [] => split_from [] s'
        | _ :: _ => rev word :: split_from [] s'
        end
      else split_from (c :: word) s'
  end.

Definition split (s : pystr) : list pystr := split_from [] s.

(** A string in a condition: the empty one counts as false. *)
Definition truthy (s : pystr) : bool :=
  match s with [] => false | _ :: _ => true end.

End Str.

(** ** Python's [re]: the fragment the program's patterns use

    A backtracking matcher in continuation-passing style.  Alternatives
    are tried left to right and quantifiers are greedy, so the first
    success is the match [re] reports.  The context [prev] is the character
    just before the current position ([None] at the start of the text),
    which is what the anchors look at. *)
Module Re.

Inductive atom : Type :=
| Chr (c : ascii)      (* a literal character *)
| Space                (* \s *)
| Dot.                 (* . *)

Inductive regex : Type :=
| Eps
| One (a : atom)
| Seq (r1 r2 : regex)
| Alt (r1 r2 : regex)
| Opt (a : atom)                (* a?    *)
| Star (a : atom)               (* a*    *)
| AtLeast (n : nat) (a : atom)  (* a{n,} *)
| Bol                           (* ^ *)
| Eol.                          (* $ *)

Record flags : Type :=
  mkFlags { IGNORECASE : bool; MULTILINE : bool; DOTALL : bool }.

Definition no_flags : flags := mkFlags false false false.

(** Lower case of a character below 256 as far as it can meet an ASCII
    pattern letter. *)
Definition lower (c : ascii) : ascii :=
  let n := nat_of_ascii c in
  if (65 <=? n) && (n <=? 90) then ascii_of_nat (n + 32) else c.

Definition atom_ok (f : flags) (a : atom) (c : ascii) : bool :=
  match a with
  | Chr p => if IGNORECASE f then Ascii.eqb (lower c) (lower p)
             else Ascii.eqb c p
  | Space => Str.isspace c
  | Dot => DOTALL f || negb (Ascii.eqb c nl)
  end.

Definition at_bol (f : flags) (prev : option ascii) : bool :=
  match prev with
  | None => true
  | Some c => MULTILINE f && Ascii.eqb c nl
  end.

Definition at_eol (f : flags) (s : pystr) : bool :=
  match s with
  | [] => true
  | c :: s' =>
      Ascii.eqb c nl && (MULTILINE f || match s' with [] => true | _ => false end)
  end.

Section Matcher.
Context {A : Type}.
Let cont : Type := option ascii -> pystr -> option A.

Definition one (ok : ascii -> bool) (prev : option ascii) (s : pystr)
           (k : cont) : option A :=
  match s with
  | c :: s' => if ok c then k (Some c) s' else None
  | [] => None
  end.

(** Greedy star over one character class: take the character, and
    give it back when the rest fails. *)
Fixpoint star (ok : ascii -> bool) (prev : option ascii) (s : pystr)
         (k : cont) : option A :=
  match s with
  | c :: s' =>
      if ok c then
        match star ok (Some c) s' k with
        | Some x => Some x
        | None => k prev s
        end
      else k prev s
  | [] => k prev s
  end.

Fixpoint times (n : nat) (ok : ascii -> bool) (prev : option ascii)
         (s : pystr) (k : cont) : option A :=
  match n with
  | 0 => k prev s
  | S n' => one ok prev s (fun p s' => times n' ok p s' k)
  end.

Fixpoint rmatch (f : flags) (r : regex) (prev : option ascii)
         (s : pystr) (k : cont) : option A :=
  match r with
  | Eps => k prev s
  | One a => one (atom_ok f a) prev s k
  | Seq r1 r2 => rmatch f r1 prev s (fun p s' => rmatch f r2 p s' k)
  | Alt r1 r2 =>
      match rmatch f r1 prev s k with
      | Some x => Some x
      | None => rmatch f r2 prev s k
      end
  | Opt a =>
      match one (atom_ok f a) prev s k with
      | Some x => Some x
      | None => k prev s
      end
  | Star a => star (atom_ok f a) prev s k
  | AtLeast n a =>
      times n (atom_ok f a) prev s
            (fun p s' => star (atom_ok f a) p s' k)
  | Bol => if at_bol f prev then k prev s else None
  | Eol => if at_eol f s then k prev s else None
  end.
End Matcher.

(** A literal word and a choice between several patterns. *)
Fixpoint lit (w : pystr) : regex :=
  match w with
  | [] => Eps
  | [c] => One (Chr c)
  | c :: w' => Seq (One (Chr c)) (lit w')
  end.

Fixpoint alts (rs : list regex) : regex :=
  match rs with
  | [] => Eps
  | [r] => r
  | r :: rs' => Alt r (alts rs')
  end.

(** The match attempt at one position.  With [must_advance] an empty
    match is refused (and backtracked over): [re] sets it after an
    empty match so that the scan moves on. *)
Definition match_at (f : flags) (r : regex) (must_advance : bool)
           (prev : option ascii) (s : pystr) : option (option ascii * pystr) :=
  rmatch f r prev s
         (fun p s' =>
            if must_advance && (length s' =? length s) then None
            else Some (p, s')).

(** [re.sub(r, repl, s)] for a replacement without group references:
    scan from the left; at a match emit [repl] and go on after it,
    otherwise copy one character.  Every round consumes a character or
    turns [must_advance] on, so [2 * len + 2] rounds are enough. *)
Fixpoint sub_loop (fuel : nat) (f : flags) (r : regex) (repl : pystr)
         (must_advance : bool) (prev : option ascii) (s : pystr) : pystr :=
  match fuel with
  | 0 => s
  | S fuel' =>
      match match_at f r must_advance prev s with
      | Some (p, s') =>
          repl ++ sub_loop fuel' f r repl (length s' =? length s) p s'
      | None =>
          match s with
          | [] => []
          | c :: s' => c :: sub_loop fuel' f r repl false (Some c) s'
          end
      end
  end.

Definition sub (f : flags) (r : regex) (repl : pystr) (s : pystr) : pystr :=
  sub_loop (2 * length s + 2) f r repl false None s.

End Re.

(** ** The program's patterns

    Each definition is the pattern of one [re.sub] call, with its flags.
    Both source files spell the first three the same way. *)
Module Patterns.
Import Re.

(** [r'\n\s*\n'] *)
Definition blank_lines : regex :=
  Seq (One (Chr nl)) (Seq (Star Space) (One (Chr nl))).

Definition header_labels : list pystr :=
  [py "From"; py "To"; py "Date"; py "Subject"; py "Cc"; py "Bcc"].

(** [r'^(From|To|Date|Subject|Cc|Bcc):.*$'], [re.MULTILINE] *)
Definition header_line : regex :=
  Seq Bol (Seq (alts (map lit header_labels))
               (Seq (One (Chr ":")) (Seq (Star Dot) Eol))).

(** [r'^>.*$'], [re.MULTILINE] *)
Definition quoted_line : regex :=
  Seq Bol (Seq (One (Chr ">")) (Seq (Star Dot) Eol)).

Definition multiline : flags := mkFlags false true false.

(** [r'(w1|...|wn),?\s*\n.*'], [re.IGNORECASE | re.DOTALL] *)
Definition signature (salutations : list pystr) : regex :=
  Seq (alts (map lit salutations))
      (Seq (Opt (Chr ","))
           (Seq (Star Space) (Seq (One (Chr nl)) (Star Dot)))).

Definition ignorecase_dotall : flags := mkFlags true false true.

(** [r'\n{3,}'] *)
Definition newlines3 : regex := AtLeast 3 (Chr nl).

(** [r'^Subject:\s*'], [re.IGNORECASE] *)
Definition subject_label : regex :=
  Seq Bol (Seq (lit (py "Subject:")) (Star Space)).

Definition ignorecase : flags := mkFlags true false false.

End Patterns.

(** ** Effects: exceptions, the summarizer, the user interface

    [M S A] is a computation over a state [S] that returns an [A] or
    raises.  An [exn] is an exception object: [is_exception e] is
    [isinstance(e, Exception)], which is what the handlers of the
    program ask for, and [exn_str e] is [str(e)].  An exception that is
    no instance of [Exception], such as [KeyboardInterrupt] or
    [SystemExit], passes those handlers. *)
Module Py.

Record exn : Type := mkExn { is_exception : bool; exn_str : pystr }.

(** An instance of [Exception] with the text [msg]. *)
Definition Exception (msg : pystr) : exn := mkExn true msg.

Inductive res (A : Type) : Type :=
| Val (a : A)
| Raise (e : exn).
Arguments Val {A} a.
Arguments Raise {A} e.

Definition M (S A : Type) : Type := S -> res A * S.

Definition ret {S A} (a : A) : M S A := fun s => (Val a, s).
Definition raise {S A} (e : exn) : M S A := fun s => (Raise e, s).
Definition bind {S A B} (m : M S A) (k : A -> M S B) : M S B :=
  fun s => match m s with
           | (Val a, s') => k a s'
           | (Raise e, s') => (Raise e, s')
           end.
(** [try: m  except Exception as e: h e]: the handler takes the
    instances of [Exception], anything else goes on up. *)
Definition try_except {S A} (m : M S A) (h : exn -> M S A) : M S A :=
  fun s => match m s with
           | (Val a, s') => (Val a, s')
           | (Raise e, s') =>
               if is_exception e then h e s' else (Raise e, s')
           end.

(** What the summarization pipeline is called with, and what it gives
    back: a list of dictionaries from keys to strings, or an
    exception. *)
Record call : Type :=
  mkCall { arg : pystr; max_length : nat; min_length : nat; do_sample : bool }.

Definition dict : Type := list (pystr * pystr).
Definition summarizer : Type := call -> res (list dict).

Definition str_eqb (a b : pystr) : bool :=
  if list_eq_dec Ascii.ascii_dec a b then true else false.

(** [d[key]]; a missing key raises [KeyError(key)], whose [str] is the
    [repr] of the key. *)
Fixpoint lookup (d : dict) (key : pystr) : option pystr :=
  match d with
  | [] => None
  | (k, v) :: d' => if str_eqb k key then Some v else lookup d' key
  end.

Definition getitem {S} (d : dict) (key : pystr) : M S pystr :=
  match lookup d key with
  | Some v => ret v
  | None => raise (Exception (py "'" ++ key ++ py "'"))
  end.

(** [l[0]]; an empty list raises [IndexError]. *)
Definition first {S} (l : list dict) : M S dict :=
  match l with
  | d :: _ => ret d
  | [] => raise (Exception (py "list index out of range"))
  end.

(** The outcome of a call that is not wrapped in anything, as a
    computation. *)
Definition of_res {S A} (r : res A) : M S A := fun s => (r, s).

(** Calling what a variable holds.  Both front ends keep the pipeline in
    a variable that is [None] until the model is there, and [None] is
    not callable. *)
Definition call_object (o : option summarizer) : summarizer :=
  match o with
  | Some s => s
  | None => fun _ => Raise (Exception (py "'NoneType' object is not callable"))
  end.

(** [a / b] on integers raises [ZeroDivisionError] when [b] is zero. *)
Definition check_divisor {S} (b : nat) : M S unit :=
  if b =? 0 then raise (Exception (py "division by zero")) else ret tt.

End Py.

Declare Scope py_scope.
Notation "x <- m ;; k" := (Py.bind m (fun x => k))
  (at level 61, m at next level, right associativity) : py_scope.
Notation "m ;; k" := (Py.bind m (fun _ => k))
  (at level 61, right associativity) : py_scope.

Local Open Scope py_scope.

(** ** [email_summarizer_streamlit.py] *)
Module Streamlit.
Import Patterns Py.

(** What the script does to the outside: calls of the summarizer and
    [st.warning] boxes, in order. *)
Inductive event : Type :=
| Invoke (c : call)
| StWarning (msg : string).

Definition log : Type := list event.

Definition invoke (summarizer : summarizer) (c : call) : M log (list dict) :=
  fun l => (summarizer c, l ++ [Invoke c]).

Definition st_warning (msg : string) : M log unit :=
  fun l => (Val tt, l ++ [StWarning msg]).

Definition extract_subject (email_text : pystr) : pystr :=
  let lines := Str.split_nl (Str.strip email_text) in
  let first_line :=
    match lines with l :: _ => l | [] => Str.slice_to 60 email_text end in
  let subject := Str.strip first_line in
  let subject := Re.sub ignorecase subject_label [] subject in
  if 60 <? length subject then Str.slice_to 57 subject ++ py "..."
  else subject.

Definition salutations : list pystr :=
  [py "Best regards"; py "Sincerely"; py "Thanks"; py "Regards";
   py "Best"; py "Cheers"].

Definition preprocess_email (email_text : pystr) : pystr :=
  let text := Re.sub Re.no_flags blank_lines (py "\n\n") email_text in
  let text := Re.sub multiline header_line [] text in
  let text := Re.sub multiline quoted_line [] text in
  let text := Re.sub ignorecase_dotall (signature salutations) [] text in
  let text := Re.sub Re.no_flags newlines3 (py "\n\n") text in
  Str.strip text.

Definition truncation_message : string :=
  "⚠️ Email was truncated due to length limitations.".

Definition summarize_email (email_text : pystr) (summarizer : summarizer)
  : M log (pystr * pystr * bool) :=
  let subject := extract_subject email_text in
  let processed_text := preprocess_email email_text in
  let max_length := 1024 in
  processed_text <-
    (if max_length <? length processed_text then
       let processed_text := Str.slice_to max_length processed_text in
       st_warning truncation_message ;; ret processed_text
     else ret processed_text) ;;
  try_except
    (summary_result <- invoke summarizer (mkCall processed_text 150 30 false) ;;
     d <- first summary_result ;;
     summary <- getitem d (py "summary_text") ;;
     ret (subject, summary, true))
    (fun e => ret (subject, py "Error generating summary: " ++ exn_str e, false)).

(** *** The page

    [main] runs once per interaction.  What depends on the run is here:
    the loading of the model, the Clear button, the guard in front of
    [summarize_email], and the results column with its statistics.  The
    fixed mark-up, the side bar and the button that loads the sample
    into the input area before the area is made are left out.
    [email_text] is what the text area returns in this run,
    [summarize_clicked] and [clear_clicked] are what the two buttons
    return, [pipeline] is what the constructor of the model does, and
    [set_state] is what Streamlit does with the assignment to
    [st.session_state.email_input] that the Clear button makes after
    the text area exists. *)
Inductive text : Type :=
| Literal (s : string)       (* a literal of the script, as its bytes *)
| Computed (s : pystr).

(** The value of an [st.metric]: a count, or the percentage
    [(original_words - summary_words) / original_words * 100], kept as
    its two operands. *)
Inductive metric : Type :=
| Count (n : nat)
| Reduction (original_words summary_words : nat).

Inductive element : Type :=
| Ran (ev : event)                  (* what [summarize_email] did *)
| StError (t : text)
| StSuccess (t : text)
| StInfo (t : text)
| StWrite (s : pystr)
| StSummary (summary : pystr)       (* the paragraph with the summary *)
| StMetric (label : string) (value : metric)
| StBalloons.

Definition page : Type := list element.

Definition put (el : element) : M page unit :=
  fun pg => (Val tt, pg ++ [el]).

Definition run {A} (m : M log A) : M page A :=
  fun pg => let '(r, l) := m [] in (r, pg ++ map Ran l).

Definition load_summarization_model (pipeline : res summarizer)
  : M page (option summarizer * bool) :=
  try_except
    (summarizer <- of_res pipeline ;;
     ret (Some summarizer, true))
    (fun e =>
       put (StError (Computed (py "Failed to load model: " ++ exn_str e))) ;;
       ret (None, false)).

(** [st.rerun()] halts the run with an exception of Streamlit's that is
    no instance of [Exception]; nothing reads its text. *)
Definition st_rerun {A} : M page A := raise (mkExn false []).

Definition main (pipeline : res summarizer) (email_text : pystr)
  (summarize_clicked clear_clicked : bool) (set_state : res unit)
  : M page unit :=
  loaded <- load_summarization_model pipeline ;;
  let '(summarizer, model_loaded) := loaded in
  if model_loaded then
    put (StSuccess (Literal "✅ AI Model loaded successfully!")) ;;
    (if clear_clicked then of_res set_state ;; st_rerun else ret tt) ;;
    (if summarize_clicked && Str.truthy email_text then
       result <- run (summarize_email email_text (call_object summarizer)) ;;
       let '(subject, summary, success) := result in
       if success then
         put (StWrite subject) ;;
         put (StSummary summary) ;;
         let original_words := length (Str.split email_text) in
         let summary_words := length (Str.split summary) in
         check_divisor original_words ;;
         put (StMetric "Original Words" (Count original_words)) ;;
         put (StMetric "Summary Words" (Count summary_words)) ;;
         put (StMetric "Reduction" (Reduction original_words summary_words)) ;;
         put StBalloons ;;
         put (StSuccess (Literal "✨ Email summarized successfully!"))
       else put (StError (Computed summary))
     else if negb (Str.truthy email_text) then
       put (StInfo (Literal "👈 Enter an email message and click 'Summarize' to generate a summary"))
     else ret tt)
  else
    put (StError (Literal "❌ Failed to load AI model. Please refresh the page to try again.")).

End Streamlit.

(** ** [email_summarizer_tkinter.py]

    [perform_summarization] runs on a worker thread and hands its outcome
    to the user interface with [root.after(0, callback)].  A callback is
    a [lambda] over local variables of [perform_summarization]; Python
    looks a free variable up in the enclosing function's cell when the
    lambda runs, not when it is made.  The cells a lambda reads are kept
    in a [frame]; [None] is an unbound cell.

    The event loop runs a callback at some time after it was scheduled,
    while the worker goes on.  So with every scheduled callback the
    state keeps the frames the callback can find: the frame at the time
    of [root.after], and the frame after each later assignment of the
    worker. *)
Module Tkinter.
Import Patterns Py.

Record frame : Type :=
  mkFrame { subject : option pystr; summary : option pystr; e : option exn }.

Definition empty_frame : frame := mkFrame None None None.

(** What a callback does on the screen. *)
Inductive ui : Type :=
| SetResults (subject summary : pystr)    (* subject label, summary box *)
| ShowError (title message : pystr).      (* messagebox.showerror *)

Definition callback : Type := frame -> res ui.

Inductive event : Type :=
| Invoke (c : call)
| After (cb : callback).

Record state : Type :=
  mkState { cells : frame;
            trace : list event;
            pending : list (callback * list frame) }.

Definition invoke (summarizer : summarizer) (c : call) : M state (list dict) :=
  fun s => (summarizer c,
            mkState (cells s) (trace s ++ [Invoke c]) (pending s)).

Definition after (cb : callback) : M state unit :=
  fun s => (Val tt,
            mkState (cells s) (trace s ++ [After cb])
                    (pending s ++ [(cb, [cells s])])).

Definition assign (upd : frame -> frame) : M state unit :=
  fun s => (Val tt,
            mkState (upd (cells s)) (trace s)
                    (map (fun p => (fst p, snd p ++ [upd (cells s)]))
                         (pending s))).

(** Reading a cell from inside a lambda; an unbound one is a
    [NameError]. *)
Definition deref {A} (name : pystr) (cell : option A) : res A :=
  match cell with
  | Some v => Val v
  | None =>
      Raise (Exception (py "cannot access free variable '" ++ name
                        ++ py "' where it is not associated with a value in enclosing scope"))
  end.

Definition display_results (subject summary : pystr) : ui :=
  SetResults subject summary.

Definition summarization_error (error_msg : pystr) : ui :=
  ShowError (py "Summarization Error")
            (py "Failed to summarize the email:\n" ++ error_msg).

Definition extract_subject (email_text : pystr) : pystr :=
  let lines := Str.split_nl (Str.strip email_text) in
  let first_line :=
    match lines with l :: _ => l | [] => Str.slice_to 60 email_text end in
  let subject := Str.strip first_line in
  if 60 <? length subject then Str.slice_to 57 subject ++ py "..."
  else subject.

Definition salutations : list pystr :=
  [py "Best regards"; py "Sincerely"; py "Thanks"; py "Regards"; py "Best"].

Definition preprocess_email (email_text : pystr) : pystr :=
  let text := Re.sub Re.no_flags blank_lines (py "\n\n") email_text in
  let text := Re.sub multiline header_line [] text in
  let text := Re.sub multiline quoted_line [] text in
  let text := Re.sub ignorecase_dotall (signature salutations) [] text in
  Str.strip text.

(** [except Exception as e: body]: [e] is bound for the body and
    unbound again when the clause is left. *)
Definition except_as_e (body : M state unit) (exc : exn) : M state unit :=
  assign (fun fr => mkFrame (subject fr) (summary fr) (Some exc)) ;;
  body ;;
  assign (fun fr => mkFrame (subject fr) (summary fr) None).

Definition perform_summarization (email_text : pystr) (summarizer : summarizer)
  : M state unit :=
  try_except
    (assign (fun fr => mkFrame (Some (extract_subject email_text))
                               (summary fr) (e fr)) ;;
     let processed_text := preprocess_email email_text in
     let max_length := 1024 in
     let processed_text :=
       if max_length <? length processed_text
       then Str.slice_to max_length processed_text
       else processed_text in
     summary_result <- invoke summarizer (mkCall processed_text 150 30 false) ;;
     d <- first summary_result ;;
     s <- getitem d (py "summary_text") ;;
     assign (fun fr => mkFrame (subject fr) (Some s) (e fr)) ;;
     after (fun fr =>
              match deref (py "subject") (subject fr) with
              | Raise x => Raise x
              | Val subject =>
                  match deref (py "summary") (summary fr) with
                  | Raise x => Raise x
                  | Val summary => Val (display_results subject summary)
                  end
              end))
    (except_as_e
       (after (fun fr =>
                 match deref (py "e") (e fr) with
                 | Raise x => Raise x
                 | Val e => Val (summarization_error (exn_str e))
                 end))).

(** One request in the run where the event loop comes to the callbacks
    only when the worker thread is through: the worker runs
    [perform_summarization] in a fresh frame, and the scheduled
    callbacks then see the frame as the worker left it.  The result is
    the worker's outcome, its trace, and what each callback did. *)
Definition scheduled (tr : list event) : list callback :=
  flat_map (fun ev => match ev with After cb => [cb] | Invoke _ => [] end) tr.

Definition request (email_text : pystr) (summarizer : summarizer)
  : res unit * list event * list (res ui) :=
  let '(r, st) :=
    perform_summarization email_text summarizer (mkState empty_frame [] []) in
  (r, trace st, map (fun cb => cb (cells st)) (scheduled (trace st))).

(** One request in any run.  The source does not say when the event
    loop runs a callback, only that it is after [root.after]: the
    callback finds the frame as it is after [delay] further assignments
    of the worker, and as the worker left it when there were fewer. *)
Definition seen (delay : nat) (frames : list frame) : frame :=
  nth delay frames (last frames empty_frame).

Definition request_at (delay : nat) (email_text : pystr)
  (summarizer : summarizer) : res unit * list event * list (res ui) :=
  let '(r, st) :=
    perform_summarization email_text summarizer (mkState empty_frame [] []) in
  (r, trace st, map (fun p => fst p (seen delay (snd p))) (pending st)).

(** *** The window

    An [EmailSummarizer] holds the attributes of the object that the
    methods read or write.  [summarize_btn] is [true] for the state
    ['normal'], [progress] is [true] while the bar runs, and [dialogs]
    are the message boxes shown so far. *)
Inductive messagebox : Type :=
| showwarning (title message : pystr)
| showerror (title message : pystr).

Record EmailSummarizer : Type :=
  mkEmailSummarizer {
      self_summarizer : option summarizer;
      model_loaded : bool;
      email_input : pystr;
      summarize_btn : bool;
      status_label : string;
      subject_text : pystr;
      summary_output : pystr;
      progress : bool;
      dialogs : list messagebox
    }.

(** [__init__], up to the start of the loader thread. *)
Definition init : EmailSummarizer :=
  mkEmailSummarizer None false [] false "Loading model..." [] [] false [].

Definition set_summarizer (v : option summarizer) (self : EmailSummarizer) :=
  mkEmailSummarizer v (model_loaded self) (email_input self)
    (summarize_btn self) (status_label self) (subject_text self)
    (summary_output self) (progress self) (dialogs self).

Definition set_model_loaded (v : bool) (self : EmailSummarizer) :=
  mkEmailSummarizer (self_summarizer self) v (email_input self)
    (summarize_btn self) (status_label self) (subject_text self)
    (summary_output self) (progress self) (dialogs self).

Definition set_email_input (v : pystr) (self : EmailSummarizer) :=
  mkEmailSummarizer (self_summarizer self) (model_loaded self) v
    (summarize_btn self) (status_label self) (subject_text self)
    (summary_output self) (progress self) (dialogs self).

Definition set_summarize_btn (v : bool) (self : EmailSummarizer) :=
  mkEmailSummarizer (self_summarizer self) (model_loaded self)
    (email_input self) v (status_label self) (subject_text self)
    (summary_output self) (progress self) (dialogs self).

Definition set_status_label (v : string) (self : EmailSummarizer) :=
  mkEmailSummarizer (self_summarizer self) (model_loaded self)
    (email_input self) (summarize_btn self) v (subject_text self)
    (summary_output self) (progress self) (dialogs self).

Definition set_subject_text (v : pystr) (self : EmailSummarizer) :=
  mkEmailSummarizer (self_summarizer self) (model_loaded self)
    (email_input self) (summarize_btn self) (status_label self) v
    (summary_output self) (progress self) (dialogs self).

Definition set_summary_output (v : pystr) (self : EmailSummarizer) :=
  mkEmailSummarizer (self_summarizer self) (model_loaded self)
    (email_input self) (summarize_btn self) (status_label self)
    (subject_text self) v (progress self) (dialogs self).

Definition set_progress (v : bool) (self : EmailSummarizer) :=
  mkEmailSummarizer (self_summarizer self) (model_loaded self)
    (email_input self) (summarize_btn self) (status_label self)
    (subject_text self) (summary_output self) v (dialogs self).

Definition show_dialog (d : messagebox) (self : EmailSummarizer) :=
  mkEmailSummarizer (self_summarizer self) (model_loaded self)
    (email_input self) (summarize_btn self) (status_label self)
    (subject_text self) (summary_output self) (progress self)
    (dialogs self ++ [d]).

(** What the two callbacks of [perform_summarization] do to the window:
    the bodies of [display_results] and of [summarization_error]. *)
Definition show (u : ui) (self : EmailSummarizer) : EmailSummarizer :=
  match u with
  | SetResults subject summary =>
      set_summary_output summary
        (set_subject_text subject
           (set_summarize_btn true (set_progress false self)))
  | ShowError title message =>
      show_dialog (showerror title message)
        (set_summarize_btn true (set_progress false self))
  end.

(** The event loop runs a callback; one that raises is reported on the
    console and leaves the window as it is. *)
Definition run_callback {U} (show : U -> EmailSummarizer -> EmailSummarizer)
  (r : res U) (self : EmailSummarizer) : EmailSummarizer :=
  match r with
  | Val u => show u self
  | Raise _ => self
  end.

(** The callbacks of [load_model]. *)
Inductive load_ui : Type :=
| ModelLoaded
| ModelError (error_msg : pystr).

Definition model_loaded_callback : load_ui := ModelLoaded.

Definition model_error_callback (error_msg : pystr) : load_ui :=
  ModelError error_msg.

Definition show_load (u : load_ui) (self : EmailSummarizer) : EmailSummarizer :=
  match u with
  | ModelLoaded =>
      set_summarize_btn true (set_status_label "Model loaded ✓" self)
  | ModelError error_msg =>
      show_dialog
        (showerror (py "Model Loading Error")
                   (py "Failed to load the summarization model:\n" ++ error_msg
                    ++ py "\n\nPlease check your internet connection and try again."))
        (set_status_label "Model failed to load" self)
  end.

(** The loader thread works on the object, owns the cell of its [e],
    and schedules callbacks; as for the worker, each callback comes
    with the frames it can find. *)
Record loader : Type :=
  mkLoader { load_cells : frame;
             load_self : EmailSummarizer;
             load_after : list ((frame -> res load_ui) * list frame) }.

Definition on_self (upd : EmailSummarizer -> EmailSummarizer) : M loader unit :=
  fun st => (Val tt, mkLoader (load_cells st) (upd (load_self st)) (load_after st)).

Definition load_assign (upd : frame -> frame) : M loader unit :=
  fun st => (Val tt,
             mkLoader (upd (load_cells st)) (load_self st)
                      (map (fun p => (fst p, snd p ++ [upd (load_cells st)]))
                           (load_after st))).

Definition load_schedule (cb : frame -> res load_ui) : M loader unit :=
  fun st => (Val tt,
             mkLoader (load_cells st) (load_self st)
                      (load_after st ++ [(cb, [load_cells st])])).

Definition load_model (pipeline : res summarizer) : M loader unit :=
  try_except
    (s <- of_res pipeline ;;
     on_self (set_summarizer (Some s)) ;;
     on_self (set_model_loaded true) ;;
     load_schedule (fun _ => Val model_loaded_callback))
    (fun exc =>
       load_assign (fun fr => mkFrame (subject fr) (summary fr) (Some exc)) ;;
       load_schedule (fun fr =>
                        match deref (py "e") (e fr) with
                        | Raise x => Raise x
                        | Val e => Val (model_error_callback (exn_str e))
                        end) ;;
       load_assign (fun fr => mkFrame (subject fr) (summary fr) None)).

(** The loader thread from start to end, and its callbacks on the
    event loop, each [delay] assignments of the thread after it was
    scheduled. *)
Definition load_model_thread (delay : nat) (pipeline : res summarizer)
  (self : EmailSummarizer) : EmailSummarizer :=
  let '(_, st) := load_model pipeline (mkLoader empty_frame self []) in
  fold_left (fun w p => run_callback show_load (fst p (seen delay (snd p))) w)
            (load_after st) (load_self st).

(** The handler of the button.  [get("1.0", tk.END)] is the text of the
    widget and the newline that ends it.  The result is the window and,
    when a worker thread was started, the text it was started with. *)
Definition summarize_email (self : EmailSummarizer)
  : EmailSummarizer * option pystr :=
  let email_text := Str.strip (email_input self ++ [nl]) in
  if negb (Str.truthy email_text) then
    (show_dialog (showwarning (py "No Input")
                              (py "Please enter an email message to summarize."))
                 self, None)
  else if negb (model_loaded self) then
    (show_dialog (showwarning (py "Model Loading")
                              (py "Please wait for the model to load."))
                 self, None)
  else
    (set_summarize_btn false (set_progress true self), Some email_text).

(** A click on the button, to the end: the handler, the worker thread
    it starts, and the callbacks of that thread on the event loop, each
    [delay] assignments of the worker after it was scheduled. *)
Definition click_summarize (delay : nat) (self : EmailSummarizer)
  : EmailSummarizer :=
  let '(self, started) := summarize_email self in
  match started with
  | None => self
  | Some email_text =>
      let '(_, _, shown) :=
        request_at delay email_text (call_object (self_summarizer self)) in
      fold_left (fun w r => run_callback show r w) shown self
  end.

Definition clear_all (self : EmailSummarizer) : EmailSummarizer :=
  set_summary_output [] (set_subject_text [] (set_email_input [] self)).

(** What can happen to the window after [__init__]: the user edits the
    text, presses a button, or the loader thread comes to its end.  A
    thread brings the delay of its callback with it. *)
Inductive action : Type :=
| Edit (email_text : pystr)
| Summarize (delay : nat)
| Clear
| LoaderDone (delay : nat).

Definition step (pipeline : res summarizer) (self : EmailSummarizer)
  (a : action) : EmailSummarizer :=
  match a with
  | Edit email_text => set_email_input email_text self
  | Summarize delay => click_summarize delay self
  | Clear => clear_all self
  | LoaderDone delay => load_model_thread delay pipeline self
  end.

Definition session (pipeline : res summarizer) (acts : list action)
  : EmailSummarizer :=
  fold_left (step pipeline) acts init.

End Tkinter.

(** * Vocabulary of the properties

    The notions the lemmas and claims are stated with: lines, prefixes,
    what each step of the pipeline looks for, closed forms of the two
    front ends, and the texts used as examples. *)
Section Vocabulary.
Import Str Re Patterns Py.

(** The text up to the first newline. *)
Fixpoint first_line (s : pystr) : pystr :=
  match s with
  | [] => []
  | c :: s' => if Ascii.eqb c nl then [] else c :: first_line s'
  end.

(** The least number of characters a match of [r] takes. *)
Fixpoint min_len (r : regex) : nat :=
  match r with
  | Eps | Opt _ | Star _ | Bol | Eol => 0
  | One _ => 1
  | Seq r1 r2 => min_len r1 + min_len r2
  | Alt r1 r2 => Nat.min (min_len r1) (min_len r2)
  | AtLeast n _ => n
  end.

(** [k] was reached after a prefix of at least [n] characters. *)
Definition reached {A : Type} (n : nat) (s : pystr)
  (k : option ascii -> pystr -> option A) (x : A) : Prop :=
  exists p' u s', s = u ++ s' /\ n <= length u /\ k p' s' = Some x.

(** The body as it is handed to the summarizer: cut to 1024
    characters. *)
Definition capped (processed_text : pystr) : pystr :=
  if 1024 <? length processed_text then Str.slice_to 1024 processed_text
  else processed_text.

(** The calls of the summarizer in a log, in order. *)
Definition web_calls (l : Streamlit.log) : list call :=
  flat_map (fun ev => match ev with
                      | Streamlit.Invoke c => [c]
                      | Streamlit.StWarning _ => []
                      end) l.

Definition desktop_calls (tr : list Tkinter.event) : list call :=
  flat_map (fun ev => match ev with
                      | Tkinter.Invoke c => [c]
                      | Tkinter.After _ => []
                      end) tr.

(** The one call either front end makes for a message. *)
Definition web_call (email_text : pystr) : call :=
  mkCall (capped (Streamlit.preprocess_email email_text)) 150 30 false.

Definition desktop_call (email_text : pystr) : call :=
  mkCall (capped (Tkinter.preprocess_email email_text)) 150 30 false.

(** What the summarizer's answer is turned into. *)
Definition answer (r : res (list dict)) : res pystr :=
  match r with
  | Raise e => Raise e
  | Val [] => Raise (Exception (py "list index out of range"))
  | Val (d :: _) =>
      match lookup d (py "summary_text") with
      | Some v => Val v
      | None => Raise (Exception (py "'summary_text'"))
      end
  end.

(** The [NameError] for an unbound cell. *)
Definition name_error (name : pystr) : exn :=
  Exception (py "cannot access free variable '" ++ name
             ++ py "' where it is not associated with a value in enclosing scope").

(** What [summarize_email] of the web front end comes to, by the answer
    of the summarizer. *)
Definition web_outcome (email_text : pystr) (s : summarizer)
  : res (pystr * pystr * bool) :=
  match answer (s (web_call email_text)) with
  | Val summary => Val (Streamlit.extract_subject email_text, summary, true)
  | Raise e =>
      if is_exception e
      then Val (Streamlit.extract_subject email_text,
                py "Error generating summary: " ++ exn_str e, false)
      else Raise e
  end.

(** What the error callback of [perform_summarization] does, by the
    time it runs: while [e] is bound it reports the failure, after the
    [except] clause has unbound [e] it fails itself. *)
Definition error_callback (delay : nat) (e : exn) : res Tkinter.ui :=
  match delay with
  | 0 => Val (Tkinter.summarization_error (exn_str e))
  | S _ => Raise (name_error (py "e"))
  end.

(** What a request of the desktop front end comes to, by the answer of
    the summarizer: the outcome of the worker, its trace with the
    callback [cb] it scheduled, and what the callback does. *)
Definition desktop_outcome (delay : nat) (email_text : pystr) (s : summarizer)
  (cb : Tkinter.callback) : res unit * list Tkinter.event * list (res Tkinter.ui) :=
  let c := desktop_call email_text in
  match answer (s c) with
  | Val summary =>
      (Val tt, [Tkinter.Invoke c; Tkinter.After cb],
       [Val (Tkinter.SetResults (Tkinter.extract_subject email_text) summary)])
  | Raise e =>
      if is_exception e
      then (Val tt, [Tkinter.Invoke c; Tkinter.After cb],
            [error_callback delay e])
      else (Raise e, [Tkinter.Invoke c], [])
  end.

(** The spec's tagged outcome, and how each front end delivers it: the
    web one in its returned triple, the desktop one in what its
    callback puts on the screen. *)
Inductive SummaryResult : Type :=
| Ok (summaryText : pystr)
| Failed (message : pystr).

Definition web_result (r : pystr * pystr * bool) : SummaryResult :=
  let '(_, s, success) := r in if success then Ok s else Failed s.

Definition desktop_result (u : Tkinter.ui) : SummaryResult :=
  match u with
  | Tkinter.SetResults _ s => Ok s
  | Tkinter.ShowError _ m => Failed m
  end.

(** Two summarizers to run the front ends with. *)
Definition short_summary : summarizer :=
  fun _ => Val [[(py "summary_text", py "short summary")]].

Definition failing (msg : pystr) : summarizer :=
  fun _ => Raise (Exception msg).

(** The substitution from a position on, with fuel to spare for a
    pattern that never matches the empty string. *)
Definition sub_from (f : flags) (r : regex) (repl : pystr)
  (p : option ascii) (s : pystr) : pystr :=
  sub_loop (S (length s)) f r repl false p s.

(** The context after a stretch of text. *)
Definition ctx_after (p : option ascii) (u : pystr) : option ascii :=
  match rev u with c :: _ => Some c | [] => p end.

(** The text from the first newline on. *)
Fixpoint rest_of_line (s : pystr) : pystr :=
  match s with
  | [] => []
  | c :: s' => if Ascii.eqb c nl then s else rest_of_line s'
  end.

(** Rewriting a text line by line. *)
Definition map_lines (g : pystr -> pystr) (s : pystr) : pystr :=
  join_nl (map g (split_nl s)).

(** [w] is a prefix of [s], characters compared with [eq]. *)
Fixpoint has_prefix (eq : ascii -> ascii -> bool) (w s : pystr) : bool :=
  match w, s with
  | [], _ => true
  | c :: w', x :: s' => eq c x && has_prefix eq w' s'
  | _ :: _, [] => false
  end.

(** The same with the matcher's own comparison under the flags [f]. *)
Definition starts_with (f : flags) (w s : pystr) : bool :=
  has_prefix (fun c x => atom_ok f (Chr c) x) w s.

(** The first alternative that succeeds. *)
Fixpoint first_some {A : Type} (os : list (option A)) : option A :=
  match os with
  | [] => None
  | Some a :: _ => Some a
  | None :: os' => first_some os'
  end.

(** A [bad] line becomes the empty line. *)
Definition blank_if (bad : pystr -> bool) (l : pystr) : pystr :=
  if bad l then [] else l.

(** Equality of a pattern character [c] and a text character [x], with
    and without [re.IGNORECASE]. *)
Definition same (c x : ascii) : bool := Ascii.eqb x c.
Definition same_ci (c x : ascii) : bool := Ascii.eqb (lower x) (lower c).

(** A line that begins with one of the six labels and a colon. *)
Definition is_header_line (l : pystr) : bool :=
  existsb (fun w => has_prefix same (w ++ py ":") l) header_labels.

(** A line that begins with [>]. *)
Definition is_quoted_line (l : pystr) : bool := has_prefix same (py ">") l.

(** [\s*\n] matches at the head of [s]: white space up to a newline. *)
Fixpoint ws_then_newline (s : pystr) : bool :=
  match s with
  | [] => false
  | c :: s' => Ascii.eqb c nl || (Str.isspace c && ws_then_newline s')
  end.

(** [,?\s*\n] matches at the head of [s]. *)
Definition after_salutation (s : pystr) : bool :=
  ws_then_newline
    match s with
    | c :: s' => if Ascii.eqb c "," then s' else s
    | [] => []
    end.

(** One of the salutations, in any case, starts at the head of [s] and
    is followed by an optional comma and white space up to a newline. *)
Definition signature_here (salutations : list pystr) (s : pystr) : bool :=
  existsb (fun w => has_prefix same_ci w s
                    && after_salutation (skipn (length w) s))
          salutations.

(** The index of the first position where that holds. *)
Fixpoint find_signature (salutations : list pystr) (s : pystr) : option nat :=
  match s with
  | [] => None
  | _ :: s' =>
      if signature_here salutations s then Some 0
      else option_map S (find_signature salutations s')
  end.

(** A match that runs to the end of the text. *)
Definition found (p : option ascii) (s : pystr) : option (option ascii * pystr) :=
  Some (ctx_after p s, []).

(** Dropping a leading ["Subject:"], in any case, and the white space
    after it. *)
Definition remove_label (l : pystr) : pystr :=
  if has_prefix same_ci (py "Subject:") l
  then Str.lstrip (skipn 8 l) else l.

(** The five substitutions of [preprocess_email], in order. *)
Definition collapse_blank_lines : pystr -> pystr :=
  Re.sub no_flags blank_lines (py "\n\n").
Definition strip_headers : pystr -> pystr := Re.sub multiline header_line [].
Definition strip_quoted : pystr -> pystr := Re.sub multiline quoted_line [].
Definition strip_signature (salutations : list pystr) : pystr -> pystr :=
  Re.sub ignorecase_dotall (signature salutations) [].
Definition collapse_newlines : pystr -> pystr :=
  Re.sub no_flags newlines3 (py "\n\n").

(** A line that is a salutation, in any case, with or without a comma
    after it. *)
Definition equals_ci (w l : pystr) : bool :=
  has_prefix same_ci w l && (length l =? length w).

Definition is_salutation_line (salutations : list pystr) (l : pystr) : bool :=
  existsb (fun w => equals_ci w l || equals_ci (w ++ py ",") l) salutations.

(** The signature step as the spec words it, on a text none of whose
    lines is a salutation: nothing is removed. *)
Definition signature_only_on_salutation_lines (salutations : list pystr) : Prop :=
  forall s,
    (forall l, In l (split_nl s) -> is_salutation_line salutations l = false) ->
    strip_signature salutations s = s.

(** The cut to 60 characters. *)
Definition ellipsize (subject : pystr) : pystr :=
  if 60 <? length subject then firstn 57 subject ++ py "..." else subject.

(** [extractSubject] as the spec words it: the first line of the split
    input (or its first 60 characters), stripped, cleaned by [clean]
    and cut. *)
Definition extractSubject_as_stated (clean : pystr -> pystr) (t : pystr) : pystr :=
  let first :=
    match split_nl t with l :: _ => l | [] => firstn 60 t end in
  ellipsize (clean (strip first)).

(** [hit v] says that something starts at the head of [v]; it occurs in
    [x] when it starts at some position of [x], and [anywhere] decides
    that. *)
Definition occurs (hit : pystr -> bool) (x : pystr) : Prop :=
  exists a v, x = a ++ v /\ hit v = true.

Fixpoint anywhere (hit : pystr -> bool) (x : pystr) : bool :=
  hit x || match x with
           | [] => false
           | _ :: x' => anywhere hit x'
           end.

(** What is found at the head of a text stays when the text goes on. *)
Definition grows (hit : pystr -> bool) : Prop :=
  forall v z, hit v = true -> hit (v ++ z) = true.

(** A text that does not start with white space. *)
Definition starts_clean (s : pystr) : bool :=
  match s with
  | [] => true
  | c :: _ => negb (isspace c)
  end.

(** [squeeze x y]: [y] is [x] with some newlines removed, each of them
    directly in front of a newline that stays. *)
Inductive squeeze : pystr -> pystr -> Prop :=
| squeeze_nil : squeeze [] []
| squeeze_keep c x y : squeeze x y -> squeeze (c :: x) (c :: y)
| squeeze_drop x y : squeeze (nl :: x) (nl :: y) -> squeeze (nl :: nl :: x) (nl :: y).

(** A pattern that survives putting newlines back after its first
    character. *)
Definition survives (hit : pystr -> bool) : Prop :=
  forall c x y, squeeze x y -> hit (c :: y) = true -> hit (c :: x) = true.

(** After a newline comes a line of which [P] holds. *)
Definition at_line (P : pystr -> bool) (v : pystr) : bool :=
  match v with
  | c :: v' => Ascii.eqb c nl && P v'
  | [] => false
  end.

(** A line of white space only, not empty, and closed by a newline. *)
Definition blank_line (v : pystr) : bool :=
  match v with
  | d :: v' => Str.isspace d && negb (Ascii.eqb d nl) && ws_then_newline v'
  | [] => false
  end.

(** Three newlines in a row. *)
Definition three_newlines (v : pystr) : bool :=
  match v with
  | a :: b :: c :: _ => Ascii.eqb a nl && Ascii.eqb b nl && Ascii.eqb c nl
  | _ => false
  end.

(** No salutation contains a newline. *)
Definition plain_words (sal : list pystr) : bool :=
  forallb (fun w => forallb (fun c => negb (same_ci c nl)) w) sal.

(** [\s*\n] at the head of [s], greedy: what is left after the last
    newline of the white space that [s] starts with. *)
Fixpoint after_last_newline (s : pystr) : option pystr :=
  match s with
  | [] => None
  | c :: s' =>
      if isspace c then
        match after_last_newline s' with
        | Some rest => Some rest
        | None => if Ascii.eqb c nl then Some s' else None
        end
      else None
  end.

(** The blank-line step from a position on. *)
Definition blank_from : option ascii -> pystr -> pystr :=
  sub_from no_flags blank_lines (py "\n\n").

(** The text after the newlines it starts with. *)
Fixpoint drop_newlines (s : pystr) : pystr :=
  match s with
  | c :: s' => if Ascii.eqb c nl then drop_newlines s' else s
  | [] => []
  end.

Definition head_newline (s : pystr) : bool :=
  match s with c :: _ => Ascii.eqb c nl | [] => false end.

Definition two_newlines (s : pystr) : bool :=
  match s with a :: b :: _ => Ascii.eqb a nl && Ascii.eqb b nl | _ => false end.

(** The newline-run step from a position on. *)
Definition newlines_from : option ascii -> pystr -> pystr :=
  sub_from no_flags newlines3 (py "\n\n").

(** The patterns that are gone after the first three steps, whatever the
    list of salutations of the fourth. *)
Record tidy (x : pystr) : Prop :=
  mkTidy {
      tidy_blank : ~ occurs (at_line blank_line) x;
      tidy_header : ~ occurs (at_line is_header_line) x;
      tidy_quoted : ~ occurs (at_line is_quoted_line) x
    }.

(** The number of positions of [x] where [hit] holds. *)
Fixpoint occurrences (hit : pystr -> bool) (x : pystr) : nat :=
  (if hit x then 1 else 0)
  + match x with
    | [] => 0
    | _ :: x' => occurrences hit x'
    end.

(** A body without repeated structure: each kind of structure the steps
    look for (header line, quoted line, salutation, run of blank lines)
    occurs at most once. *)
Definition no_repeated_structure (salutations : list pystr) (x : pystr) : bool :=
  (length (filter is_header_line (split_nl x)) <=? 1)
  && (length (filter is_quoted_line (split_nl x)) <=? 1)
  && (occurrences (signature_here salutations) x <=? 1)
  && (occurrences (at_line ws_then_newline) x <=? 1).

(** A message with a header, a quoted line, blank lines and a
    signature. *)
Definition sample_message : pystr :=
  py "Subject: Q4\n\nHi team,\n> old\nPlease review.\n\n\nThanks,\nSam".

(** [x] is [y] with some of its characters deleted. *)
Inductive subseq : pystr -> pystr -> Prop :=
| subseq_nil : subseq [] []
| subseq_skip c x y : subseq x y -> subseq x (c :: y)
| subseq_take c x y : subseq x y -> subseq (c :: x) (c :: y).

(** White space only. *)
Definition all_space (s : pystr) : bool := forallb Str.isspace s.

(** A text that does not end with white space. *)
Definition ends_clean (s : pystr) : bool := starts_clean (rev s).

(** A line: no newline, and no white space at either end. *)
Definition clean_line (s : pystr) : Prop :=
  ~ In nl s /\ starts_clean s = true /\ ends_clean s = true.

(** The calls of the summarizer on a page, in order. *)
Definition page_calls (pg : Streamlit.page) : list Py.call :=
  flat_map (fun el => match el with
                      | Streamlit.Ran (Streamlit.Invoke c) => [c]
                      | _ => []
                      end) pg.

(** The message boxes of the desktop front end that are warnings. *)
Definition is_warning (d : Tkinter.messagebox) : bool :=
  match d with
  | Tkinter.showwarning _ _ => true
  | Tkinter.showerror _ _ => false
  end.

(** The error boxes of the two error callbacks for a failure [ex]. *)
Definition summarization_error_box (ex : Py.exn) : Tkinter.messagebox :=
  Tkinter.showerror (py "Summarization Error")
                    (py "Failed to summarize the email:\n" ++ Py.exn_str ex).

Definition load_error_box (ex : Py.exn) : Tkinter.messagebox :=
  Tkinter.showerror
    (py "Model Loading Error")
    (py "Failed to load the summarization model:\n" ++ Py.exn_str ex
     ++ py "\n\nPlease check your internet connection and try again.").

(** What the callbacks of a request of the desktop front end do, by the
    answer of the summarizer. *)
Definition desktop_shown (delay : nat) (email_text : pystr) (s : Py.summarizer)
  : list (Py.res Tkinter.ui) :=
  match answer (s (desktop_call email_text)) with
  | Py.Val summary =>
      [Py.Val (Tkinter.SetResults (Tkinter.extract_subject email_text) summary)]
  | Py.Raise e =>
      if Py.is_exception e then [error_callback delay e] else []
  end.

(** What a handler [except Exception] does not take. *)
Definition escapes {A : Type} (r : Py.res A) : bool :=
  match r with
  | Py.Raise e => negb (Py.is_exception e)
  | Py.Val _ => false
  end.

(** What holds of the window of the desktop front end at any time:
    [model_loaded] is set only together with the pipeline, and the
    button is enabled only once the model is there. *)
Definition window_ok (pipeline : Py.res Py.summarizer)
  (self : Tkinter.EmailSummarizer) : Prop :=
  (Tkinter.model_loaded self = true ->
   exists s, pipeline = Py.Val s /\ Tkinter.self_summarizer self = Some s) /\
  (Tkinter.summarize_btn self = true -> Tkinter.model_loaded self = true).

(** What holds of the window at any time when building the pipeline
    failed with [ex]: the object holds no pipeline, the button is
    disabled, the bar does not run, nothing is shown as a result, and a
    message box is a warning or the report of [ex]. *)
Definition never_loaded (ex : Py.exn) (self : Tkinter.EmailSummarizer) : Prop :=
  Tkinter.self_summarizer self = None /\
  Tkinter.model_loaded self = false /\
  Tkinter.summarize_btn self = false /\
  Tkinter.progress self = false /\
  Tkinter.subject_text self = [] /\
  Tkinter.summary_output self = [] /\
  Forall (fun d => is_warning d = true \/ d = load_error_box ex)
         (Tkinter.dialogs self).

(** The window once the loader thread has built the pipeline [s] and
    the user has typed a message. *)
Definition loaded_window (s : Py.summarizer) : Tkinter.EmailSummarizer :=
  Tkinter.set_email_input
    (py "hello") (Tkinter.load_model_thread 0 (Py.Val s) Tkinter.init).

End Vocabulary.

(** * Properties *)

(** ** Strings *)
Section StrFacts.
Import Str.

Lemma lstrip_length (s : pystr) : length (lstrip s) <= length s.
Proof.
  induction s as [|c s IH]; simpl; [lia|].
  destruct (isspace c); simpl; lia.
Qed.

Lemma rstrip_length (s : pystr) : length (rstrip s) <= length s.
Proof.
  unfold rstrip. rewrite length_rev.
  rewrite <- (length_rev s). apply lstrip_length.
Qed.

Lemma strip_length (s : pystr) : length (strip s) <= length s.
Proof.
  unfold strip.
  pose proof (rstrip_length (lstrip s)). pose proof (lstrip_length s). lia.
Qed.

Lemma split_nl_nonempty (s : pystr) : split_nl s <> [].
Proof.
  induction s as [|c s IH]; simpl; [discriminate|].
  destruct (Ascii.eqb c nl); [discriminate|].
  destruct (split_nl s); discriminate.
Qed.

Lemma split_nl_head (s : pystr) : hd [] (split_nl s) = first_line s.
Proof.
  induction s as [|c s IH]; simpl; [reflexivity|].
  destruct (Ascii.eqb c nl); [reflexivity|].
  destruct (split_nl s) eqn:E; simpl in *.
  - now destruct (split_nl_nonempty s).
  - now rewrite IH.
Qed.

End StrFacts.

(** ** The matcher: what a match consumes *)
Section ReFacts.
Import Re.

Section Consumes.
Context {A : Type}.
Implicit Types (k : option ascii -> pystr -> option A) (x : A).

Lemma reached_here n p s k x :
  n = 0 -> k p s = Some x -> reached n s k x.
Proof. intros -> H. exists p, [], s. simpl. auto with arith. Qed.

Lemma reached_cons n c s k x :
  reached n s k x -> reached (S n) (c :: s) k x.
Proof.
  intros (p' & u & s' & -> & Hn & Hk).
  exists p', (c :: u), s'. simpl. repeat split; auto with arith.
Qed.

Lemma reached_weaken n m s k x :
  m <= n -> reached n s k x -> reached m s k x.
Proof.
  intros Hle (p' & u & s' & E & Hn & Hk).
  exists p', u, s'. repeat split; auto. lia.
Qed.

Lemma reached_seq n m s k1 k x :
  reached n s k1 x ->
  (forall p' s', k1 p' s' = Some x -> reached m s' k x) ->
  reached (n + m) s k x.
Proof.
  intros (p' & u & s' & -> & Hn & Hk) H.
  destruct (H _ _ Hk) as (p'' & u' & s'' & -> & Hm & Hk').
  exists p'', (u ++ u'), s''. rewrite <- app_assoc, length_app.
  repeat split; auto. lia.
Qed.

Lemma one_consumes ok p s k x :
  one ok p s k = Some x -> reached 1 s k x.
Proof.
  destruct s as [|c s]; simpl; [discriminate|].
  destruct (ok c); [|discriminate]. intros H.
  apply reached_cons. now apply (reached_here 0 (Some c)).
Qed.

Lemma star_consumes ok s : forall p k x,
  star ok p s k = Some x -> reached 0 s k x.
Proof.
  induction s as [|c s IH]; simpl; intros p k x H.
  - now apply (reached_here 0 p).
  - destruct (ok c); [|now apply (reached_here 0 p)].
    destruct (star ok (Some c) s k) eqn:E.
    + injection H as <-. apply IH in E.
      apply (reached_weaken 1); [lia|]. now apply reached_cons.
    + now apply (reached_here 0 p).
Qed.

Lemma times_consumes ok n : forall p s k x,
  times n ok p s k = Some x -> reached n s k x.
Proof.
  induction n as [|n IH]; simpl; intros p s k x H.
  - now apply (reached_here 0 p).
  - apply one_consumes in H.
    apply (reached_seq 1 n _ _ _ _ H). intros p' s' H'. exact (IH _ _ _ _ H').
Qed.

Lemma rmatch_consumes f r : forall p s k x,
  rmatch f r p s k = Some x -> reached (min_len r) s k x.
Proof.
  induction r as [|a|r1 IH1 r2 IH2|r1 IH1 r2 IH2|a|a|n a| |];
    simpl; intros p s k x H.
  - now apply (reached_here 0 p).
  - now apply one_consumes in H.
  - apply IH1 in H. apply (reached_seq _ _ _ _ _ _ H).
    intros p' s' H'. exact (IH2 _ _ _ _ H').
  - destruct (rmatch f r1 p s k) eqn:E.
    + injection H as <-. apply IH1 in E.
      eapply reached_weaken; [|exact E]. apply Nat.le_min_l.
    + apply IH2 in H.
      eapply reached_weaken; [|exact H]. apply Nat.le_min_r.
  - destruct (one (atom_ok f a) p s k) eqn:E.
    + injection H as <-. apply one_consumes in E.
      eapply reached_weaken; [|exact E]. lia.
    + now apply (reached_here 0 p).
  - now apply star_consumes in H.
  - apply times_consumes in H.
    replace n with (n + 0) by lia.
    apply (reached_seq _ _ _ _ _ _ H).
    intros p' s' H'. now apply star_consumes in H'.
  - destruct (at_bol f p); [|discriminate]. now apply (reached_here 0 p).
  - destruct (at_eol f s); [|discriminate]. now apply (reached_here 0 p).
Qed.

End Consumes.

(** A match at a position leaves a suffix, at least [min_len r]
    characters shorter. *)
Lemma match_at_consumes f r adv p s p' s' :
  match_at f r adv p s = Some (p', s') ->
  exists u, s = u ++ s' /\ min_len r <= length u.
Proof.
  unfold match_at. intros H. apply rmatch_consumes in H.
  destruct H as (q & u & t & -> & Hn & Hk).
  destruct (adv && _); [discriminate|]. injection Hk as -> ->.
  now exists u.
Qed.

(** A substitution whose replacement is no longer than any match never
    lengthens the text. *)
Lemma sub_loop_length f r repl :
  length repl <= min_len r ->
  forall fuel adv p s,
    length (sub_loop fuel f r repl adv p s) <= length s.
Proof.
  intros Hrepl. induction fuel as [|fuel IH]; intros adv p s; simpl; [lia|].
  destruct (match_at f r adv p s) as [[p' s']|] eqn:E.
  - apply match_at_consumes in E. destruct E as (u & -> & Hu).
    rewrite !length_app. specialize (IH (length s' =? length u + length s') p' s').
    lia.
  - destruct s as [|c s]; simpl; [lia|].
    specialize (IH false (Some c) s). lia.
Qed.

Lemma sub_length f r repl s :
  length repl <= min_len r -> length (sub f r repl s) <= length s.
Proof. intros H. now apply sub_loop_length. Qed.

End ReFacts.

(** ** The summarizer adapter *)
Section Adapter.
Import Py.

Lemma capped_length (s : pystr) : length (capped s) <= 1024.
Proof.
  unfold capped, Str.slice_to.
  destruct (1024 <? length s) eqn:E.
  - rewrite length_firstn. lia.
  - apply Nat.ltb_ge in E. exact E.
Qed.

Lemma capped_long (s : pystr) :
  1024 < length s -> capped s = firstn 1024 s /\ length (capped s) = 1024.
Proof.
  intros H. unfold capped, Str.slice_to.
  apply Nat.ltb_lt in H as E. rewrite E. split; [reflexivity|].
  rewrite length_firstn. lia.
Qed.

(** What is left of the summarizer's answer is an instance of
    [Exception] unless the summarizer raised something else. *)
Lemma answer_cases (r : res (list dict)) :
  (exists summary, answer r = Val summary) \/
  (exists e, answer r = Raise e /\ is_exception e = true) \/
  (exists e, r = Raise e /\ answer r = Raise e /\ is_exception e = false).
Proof.
  destruct r as [[|d ds]|e]; cbn [answer].
  - right. left. eexists. split; reflexivity.
  - destruct (lookup d _); [left; eexists; reflexivity|].
    right. left. eexists. split; reflexivity.
  - destruct (is_exception e) eqn:E.
    + right. left. now exists e.
    + right. right. now exists e.
Qed.

(** The web front end, run from an empty log, in closed form. *)
Lemma summarize_email_run (email_text : pystr) (summarizer : summarizer) :
  Streamlit.summarize_email email_text summarizer [] =
  (web_outcome email_text summarizer,
   (if 1024 <? length (Streamlit.preprocess_email email_text)
    then [Streamlit.StWarning Streamlit.truncation_message] else [])
   ++ [Streamlit.Invoke (web_call email_text)]).
Proof.
  unfold Streamlit.summarize_email, web_outcome, web_call, capped.
  generalize (Streamlit.preprocess_email email_text) as body.
  generalize (Streamlit.extract_subject email_text) as subj.
  intros subj body.
  destruct (1024 <? length body);
    cbv [bind try_except Streamlit.invoke Streamlit.st_warning ret answer
         first getitem raise app];
    (match goal with
     | |- context [summarizer ?c] => destruct (summarizer c) as [[|d ds]|ex]
     end);
    try reflexivity;
    try (destruct (lookup d _); reflexivity);
    destruct (is_exception ex); reflexivity.
Qed.

(** The desktop front end in closed form, in any run. *)
Lemma request_at_run (delay : nat) (email_text : pystr) (summarizer : summarizer) :
  exists cb,
    Tkinter.request_at delay email_text summarizer =
    desktop_outcome delay email_text summarizer cb.
Proof.
  unfold Tkinter.request_at, Tkinter.perform_summarization, desktop_outcome,
    desktop_call.
  cbv zeta. fold (capped (Tkinter.preprocess_email email_text)).
  generalize (capped (Tkinter.preprocess_email email_text)) as body.
  generalize (Tkinter.extract_subject email_text) as subj.
  intros subj body.
  cbv [bind try_except Tkinter.invoke Tkinter.after
       Tkinter.assign Tkinter.except_as_e ret answer first getitem raise
       app map fst snd Tkinter.cells Tkinter.trace Tkinter.pending
       Tkinter.empty_frame Tkinter.subject Tkinter.summary Tkinter.e].
  destruct (summarizer _) as [[|d ds]|ex];
    [| destruct (lookup d _) | destruct (is_exception ex) eqn:E];
    try rewrite E; destruct delay as [|[|[|delay]]];
    first [eexists; reflexivity | exists (fun _ => Raise ex); reflexivity].
Qed.

(** The same in the run where the callbacks come after the worker. *)
Lemma request_run (email_text : pystr) (summarizer : summarizer) :
  exists cb,
    Tkinter.request email_text summarizer =
    desktop_outcome 1 email_text summarizer cb.
Proof.
  unfold Tkinter.request, Tkinter.perform_summarization, desktop_outcome,
    desktop_call.
  cbv zeta. fold (capped (Tkinter.preprocess_email email_text)).
  generalize (capped (Tkinter.preprocess_email email_text)) as body.
  generalize (Tkinter.extract_subject email_text) as subj.
  intros subj body.
  cbv [bind try_except Tkinter.invoke Tkinter.after
       Tkinter.assign Tkinter.except_as_e ret answer first getitem raise
       app map fst snd Tkinter.cells Tkinter.trace Tkinter.pending
       Tkinter.empty_frame Tkinter.subject Tkinter.summary Tkinter.e].
  destruct (summarizer _) as [[|d ds]|ex];
    [| destruct (lookup d _) | destruct (is_exception ex) eqn:E];
    try rewrite E;
    first [eexists; reflexivity | exists (fun _ => Raise ex); reflexivity].
Qed.

(** The run of [request] is one of the runs of [request_at]. *)
Lemma request_is_late (email_text : pystr) (summarizer : summarizer) :
  Tkinter.request email_text summarizer =
  Tkinter.request_at 1 email_text summarizer.
Proof.
  unfold Tkinter.request, Tkinter.request_at, Tkinter.perform_summarization.
  cbv zeta.
  generalize (Tkinter.preprocess_email email_text) as body.
  generalize (Tkinter.extract_subject email_text) as subj.
  intros subj body. destruct (1024 <? length body);
    cbv [bind try_except Tkinter.invoke Tkinter.after
         Tkinter.assign Tkinter.except_as_e ret first getitem raise
         app map fst snd Tkinter.cells Tkinter.trace Tkinter.pending
         Tkinter.empty_frame Tkinter.subject Tkinter.summary Tkinter.e];
    (match goal with
     | |- context [summarizer ?c] => destruct (summarizer c) as [[|d ds]|ex]
     end);
    [| destruct (lookup d _) | destruct (is_exception ex)
     | | destruct (lookup d _) | destruct (is_exception ex)];
    reflexivity.
Qed.

Lemma desktop_outcome_ok delay email_text (summarizer : summarizer) cb summary :
  answer (summarizer (desktop_call email_text)) = Val summary ->
  desktop_outcome delay email_text summarizer cb =
  (Val tt, [Tkinter.Invoke (desktop_call email_text); Tkinter.After cb],
   [Val (Tkinter.SetResults (Tkinter.extract_subject email_text) summary)]).
Proof. intros H. unfold desktop_outcome. cbv zeta. now rewrite H. Qed.

(** The calls of a request do not depend on its outcome. *)
Lemma desktop_outcome_calls delay email_text (summarizer : summarizer) cb :
  desktop_calls (snd (fst (desktop_outcome delay email_text summarizer cb)))
  = [desktop_call email_text].
Proof.
  unfold desktop_outcome.
  destruct (answer _) as [summary|e]; [reflexivity|].
  destruct (is_exception e); reflexivity.
Qed.

End Adapter.

(** ** Outcomes as the spec names them *)
Section Outcomes.
Import Py.

(** The web front end warns exactly when it cuts, and what it passes on
    is the first 1024 characters. *)
Lemma web_truncation (email_text : pystr) (summarizer : summarizer) :
  1024 < length (Streamlit.preprocess_email email_text) ->
  snd (Streamlit.summarize_email email_text summarizer []) =
  [Streamlit.StWarning Streamlit.truncation_message;
   Streamlit.Invoke
     (mkCall (firstn 1024 (Streamlit.preprocess_email email_text)) 150 30 false)].
Proof.
  intros H. rewrite summarize_email_run. cbn [snd].
  unfold web_call. destruct (capped_long _ H) as [-> _].
  apply Nat.ltb_lt in H. rewrite H. reflexivity.
Qed.

Lemma web_argument_bounded (email_text : pystr) (summarizer : summarizer) :
  Forall (fun c => length (arg c) <= 1024)
         (web_calls (snd (Streamlit.summarize_email email_text summarizer []))).
Proof.
  rewrite summarize_email_run. cbn [snd]. unfold web_calls, web_call.
  rewrite flat_map_app.
  destruct (1024 <? _); cbn [flat_map app];
    (apply Forall_cons; [apply capped_length | apply Forall_nil]).
Qed.

Lemma desktop_argument_bounded (email_text : pystr) (summarizer : summarizer) :
  Forall (fun c => length (arg c) <= 1024)
         (desktop_calls (snd (fst (Tkinter.request email_text summarizer)))).
Proof.
  destruct (request_run email_text summarizer) as [cb ->].
  rewrite desktop_outcome_calls. unfold desktop_call.
  apply Forall_cons; [apply capped_length | apply Forall_nil].
Qed.

(** A failure of the summarizer with an instance of [Exception]
    reaches the web caller as a [Failed] result that carries [str(e)];
    nothing is raised and the summarizer is called once. *)
Lemma web_failure (email_text : pystr) (summarizer : summarizer) (ex : exn) :
  summarizer (web_call email_text) = Raise ex ->
  is_exception ex = true ->
  exists v l,
    Streamlit.summarize_email email_text summarizer [] = (Val v, l) /\
    web_result v = Failed (py "Error generating summary: " ++ exn_str ex) /\
    web_calls l = [web_call email_text].
Proof.
  intros H E. rewrite summarize_email_run. unfold web_outcome, answer.
  rewrite H, E.
  eexists. eexists. split; [reflexivity|]. split; [reflexivity|].
  unfold web_calls. rewrite flat_map_app.
  destruct (1024 <? _); cbn [flat_map app]; reflexivity.
Qed.

(** The desktop worker does the same up to the hand-over: it catches
    the failure and calls the summarizer once.  But the callback it
    schedules reads [e], and when it runs after the [except] clause
    has unbound [e], what runs on the event loop is a [NameError] and
    no message is shown. *)
Lemma desktop_failure (email_text : pystr) (summarizer : summarizer) (ex : exn) :
  summarizer (desktop_call email_text) = Raise ex ->
  is_exception ex = true ->
  exists cb,
    Tkinter.request email_text summarizer =
    (Val tt, [Tkinter.Invoke (desktop_call email_text); Tkinter.After cb],
     [Raise (name_error (py "e"))]).
Proof.
  intros H E. destruct (request_run email_text summarizer) as [cb ->].
  exists cb. unfold desktop_outcome, answer. rewrite H, E. reflexivity.
Qed.

End Outcomes.

(** ** Substitution with patterns that never match the empty string

    All six patterns of the program take at least one character.  For
    such a pattern [must_advance] stays off, the fuel of [sub_loop] never
    runs out, and the substitution obeys three equations. *)
Section SubFrom.
Import Re.
Variables (f : flags) (r : regex) (repl : pystr).
Hypothesis nonempty : 1 <= min_len r.

Lemma match_at_shorter adv p s p' s' :
  match_at f r adv p s = Some (p', s') -> length s' < length s.
Proof.
  intros H. apply match_at_consumes in H. destruct H as (u & -> & Hu).
  rewrite length_app. lia.
Qed.

Lemma sub_loop_enough : forall fuel1 fuel2 p s,
  length s < fuel1 -> length s < fuel2 ->
  sub_loop fuel1 f r repl false p s = sub_loop fuel2 f r repl false p s.
Proof.
  induction fuel1 as [|fuel1 IH]; intros fuel2 p s H1 H2; [lia|].
  destruct fuel2 as [|fuel2]; [lia|]. simpl.
  destruct (match_at f r false p s) as [[p' s']|] eqn:E.
  - pose proof (match_at_shorter _ _ _ _ _ E) as Hlt.
    replace (length s' =? length s) with false
      by (symmetry; apply Nat.eqb_neq; lia).
    f_equal. apply IH; lia.
  - destruct s as [|c s]; [reflexivity|]. simpl in H1, H2.
    f_equal. apply IH; lia.
Qed.

Lemma sub_is_sub_from s : sub f r repl s = sub_from f r repl None s.
Proof. unfold sub, sub_from. apply sub_loop_enough; lia. Qed.

Lemma sub_from_match p s p' s' :
  match_at f r false p s = Some (p', s') ->
  sub_from f r repl p s = repl ++ sub_from f r repl p' s'.
Proof.
  intros E. unfold sub_from at 1. simpl. rewrite E.
  pose proof (match_at_shorter _ _ _ _ _ E) as Hlt.
  replace (length s' =? length s) with false
    by (symmetry; apply Nat.eqb_neq; lia).
  f_equal. apply sub_loop_enough; lia.
Qed.

Lemma sub_from_copy p c s :
  match_at f r false p (c :: s) = None ->
  sub_from f r repl p (c :: s) = c :: sub_from f r repl (Some c) s.
Proof. intros E. unfold sub_from at 1. simpl. now rewrite E. Qed.

Lemma sub_from_nil p : sub_from f r repl p [] = [].
Proof.
  unfold sub_from. simpl.
  destruct (match_at f r false p []) as [[p' s']|] eqn:E; [|reflexivity].
  apply match_at_shorter in E. simpl in E. lia.
Qed.

Lemma ctx_after_cons p c u : ctx_after p (c :: u) = ctx_after (Some c) u.
Proof.
  unfold ctx_after. simpl. destruct (rev u) as [|d t] eqn:E; reflexivity.
Qed.

(** Where no position has a match, nothing changes. *)
Lemma sub_from_unchanged : forall s p,
  (forall u v, s = u ++ v -> match_at f r false (ctx_after p u) v = None) ->
  sub_from f r repl p s = s.
Proof.
  induction s as [|c s IH]; intros p H; [apply sub_from_nil|].
  rewrite sub_from_copy by apply (H [] (c :: s) eq_refl).
  f_equal. apply IH. intros u v ->.
  rewrite <- (ctx_after_cons p). now apply (H (c :: u) v).
Qed.

End SubFrom.

(** ** Lines *)
Section Lines.
Import Str.

Lemma line_split (s : pystr) : s = first_line s ++ rest_of_line s.
Proof.
  induction s as [|c s IH]; simpl; [reflexivity|].
  destruct (Ascii.eqb c nl); simpl; congruence.
Qed.

Lemma rest_of_line_cases (s : pystr) :
  rest_of_line s = [] \/ exists s', rest_of_line s = nl :: s'.
Proof.
  induction s as [|c s IH]; simpl; [now left|].
  destruct (Ascii.eqb c nl) eqn:E; [|exact IH].
  apply Ascii.eqb_eq in E. subst c. right. now exists s.
Qed.

Lemma rest_of_line_length (s : pystr) : length (rest_of_line s) <= length s.
Proof.
  rewrite (line_split s) at 2. rewrite length_app. lia.
Qed.

Lemma split_nl_unfold (s : pystr) :
  split_nl s =
  first_line s :: match rest_of_line s with
                  | [] => []
                  | _ :: s' => split_nl s'
                  end.
Proof.
  induction s as [|c s IH]; simpl; [reflexivity|].
  destruct (Ascii.eqb c nl); [reflexivity|].
  rewrite IH. reflexivity.
Qed.

Lemma map_lines_unfold (g : pystr -> pystr) (s : pystr) :
  map_lines g s =
  g (first_line s) ++ match rest_of_line s with
                      | [] => []
                      | _ :: s' => nl :: map_lines g s'
                      end.
Proof.
  unfold map_lines. rewrite split_nl_unfold at 1.
  destruct (rest_of_line s) as [|c s'].
  - simpl. now rewrite app_nil_r.
  - simpl. destruct (split_nl s') eqn:E.
    + now destruct (split_nl_nonempty s').
    + reflexivity.
Qed.

Lemma has_prefix_first_line eq (w s : pystr) :
  (forall c, In c w -> eq c nl = false) ->
  has_prefix eq w s = has_prefix eq w (first_line s).
Proof.
  revert s. induction w as [|c w IH]; intros s H; [reflexivity|].
  destruct s as [|x s]; [reflexivity|]. simpl.
  destruct (Ascii.eqb x nl) eqn:E.
  - apply Ascii.eqb_eq in E. subst x. now rewrite (H c (or_introl eq_refl)).
  - simpl. f_equal. apply IH. intros d Hd. apply H. now right.
Qed.

End Lines.

(** ** The matcher on literal words and on choices of words *)
Section Words.
Import Re.
Context {A : Type}.
Implicit Types (k : option ascii -> pystr -> option A).

Lemma ctx_after_app p u v : ctx_after (ctx_after p u) v = ctx_after p (u ++ v).
Proof.
  revert p. induction u as [|c u IH]; intros p; [reflexivity|].
  simpl. rewrite !ctx_after_cons. apply IH.
Qed.

Lemma rmatch_lit f w : forall p s k,
  rmatch f (lit w) p s k =
  if starts_with f w s
  then k (ctx_after p (firstn (length w) s)) (skipn (length w) s)
  else None.
Proof.
  induction w as [|c w IH]; intros p s k; [reflexivity|].
  assert (E : rmatch f (lit (c :: w)) p s k =
              one (atom_ok f (Chr c)) p s (fun p' s' => rmatch f (lit w) p' s' k)).
  { destruct w; reflexivity. }
  rewrite E. unfold starts_with. destruct s as [|x s]; [reflexivity|].
  cbn [has_prefix one firstn skipn length].
  destruct (atom_ok f (Chr c) x); [|reflexivity].
  rewrite IH. rewrite ctx_after_cons. reflexivity.
Qed.

Lemma rmatch_alts f (r0 : regex) (rs : list regex) p s k :
  rmatch f (alts (r0 :: rs)) p s k =
  first_some (map (fun r => rmatch f r p s k) (r0 :: rs)).
Proof.
  revert r0. induction rs as [|r1 rs IH]; intros r0.
  - simpl. now destruct (rmatch f r0 p s k).
  - change (alts (r0 :: r1 :: rs)) with (Alt r0 (alts (r1 :: rs))).
    cbn [rmatch]. rewrite IH. cbn [map first_some].
    now destruct (rmatch f r0 p s k).
Qed.

Lemma first_some_uniform {X} (g : X -> option A) (c : X -> bool) (a : A) xs :
  (forall x, In x xs -> g x = if c x then Some a else None) ->
  first_some (map g xs) = if existsb c xs then Some a else None.
Proof.
  induction xs as [|x xs IH]; intros H; [reflexivity|].
  simpl. rewrite (H x (or_introl eq_refl)).
  destruct (c x); [reflexivity|]. apply IH. intros y Hy. apply H. now right.
Qed.

End Words.

(** ** Patterns anchored to a line

    A pattern under [re.MULTILINE] that matches only at the start of a
    line, and then takes the rest of that line, blanks the lines it
    matches and leaves every other line alone. *)
Section LineAnchored.
Import Re.
Variables (f : flags) (r : regex) (bad : pystr -> bool).
Hypothesis nonempty : 1 <= min_len r.
Hypothesis multi : MULTILINE f = true.
Hypothesis match_spec : forall p s,
  match_at f r false p s =
  if at_bol f p && bad s
  then Some (ctx_after p (first_line s), rest_of_line s) else None.
Hypothesis bad_line : forall s, bad s = bad (first_line s).

Let bad_nil : bad [] = false.
Proof.
  destruct (bad []) eqn:E; [|reflexivity].
  pose proof (match_spec None []) as H. simpl in H. rewrite E in H.
  apply (match_at_shorter f r nonempty) in H. simpl in H. lia.
Qed.

Let bad_newline s : bad (nl :: s) = false.
Proof. rewrite bad_line. simpl. exact bad_nil. Qed.

Let tail_of (s : pystr) : pystr :=
  match rest_of_line s with
  | [] => []
  | _ :: s' => nl :: map_lines (blank_if bad) s'
  end.

Lemma line_anchored_scan : forall n s, length s <= n ->
  (forall p, at_bol f p = false ->
             sub_from f r [] p s = first_line s ++ tail_of s) /\
  (forall p, at_bol f p = true ->
             sub_from f r [] p s = map_lines (blank_if bad) s).
Proof.
  induction n as [|n IH]; intros s Hn.
  - destruct s; [|simpl in Hn; lia].
    split; intros p _; rewrite (sub_from_nil f r [] nonempty).
    + reflexivity.
    + rewrite map_lines_unfold. unfold blank_if. simpl. now rewrite bad_nil.
  - assert (Copy : forall p c s', s = c :: s' ->
              match_at f r false p s = None ->
              sub_from f r [] p s = first_line s ++ tail_of s).
    { intros p c s' -> E. rewrite sub_from_copy by exact E.
      simpl in Hn. assert (Hs' : length s' <= n) by lia.
      destruct (IH s' Hs') as [Hin Hbol]. unfold tail_of. simpl.
      destruct (Ascii.eqb c nl) eqn:Ec.
      - apply Ascii.eqb_eq in Ec. subst c. simpl. f_equal.
        apply Hbol. simpl. rewrite multi. reflexivity.
      - simpl. f_equal. apply Hin. simpl. rewrite Ec. apply andb_false_r. }
    split; intros p Hp.
    + destruct s as [|c s']; [now rewrite (sub_from_nil f r [] nonempty)|].
      apply (Copy p c s' eq_refl). rewrite match_spec, Hp. reflexivity.
    + rewrite map_lines_unfold. fold (tail_of s).
      pose proof (match_spec p s) as E. rewrite Hp in E. simpl in E.
      unfold blank_if. rewrite <- bad_line.
      destruct (bad s) eqn:Eb.
      * rewrite (sub_from_match f r [] nonempty _ _ _ _ E). simpl.
        unfold tail_of.
        destruct s as [|c0 s0]; [now rewrite bad_nil in Eb|].
        pose proof (rest_of_line_length (c0 :: s0)) as Hl.
        destruct (rest_of_line (c0 :: s0)) as [|c s'] eqn:Er;
          [now rewrite (sub_from_nil f r [] nonempty)|].
        destruct (rest_of_line_cases (c0 :: s0)) as [Hr|[s'' Hr]];
          rewrite Hr in Er; [discriminate|]. injection Er as <- <-.
        rewrite sub_from_copy
          by (rewrite match_spec, bad_newline, andb_false_r; reflexivity).
        f_equal. simpl in Hn, Hl.
        apply (IH s''); [lia|]. simpl. rewrite multi. reflexivity.
      * destruct s as [|c s']; [now rewrite (sub_from_nil f r [] nonempty)|].
        apply (Copy p c s' eq_refl E).
Qed.

Theorem line_anchored_sub (s : pystr) :
  sub f r [] s = map_lines (blank_if bad) s.
Proof.
  rewrite (sub_is_sub_from f r [] nonempty).
  now apply (line_anchored_scan (length s) s (le_n _)).
Qed.

End LineAnchored.

(** ** Header lines and quoted lines *)
Section HeaderAndQuote.
Import Re Patterns.

Lemma star_ext {A} ok s : forall p (k1 k2 : option ascii -> pystr -> option A),
  (forall p' s', k1 p' s' = k2 p' s') -> star ok p s k1 = star ok p s k2.
Proof.
  induction s as [|c s IH]; intros p k1 k2 H; simpl; [apply H|].
  rewrite (IH (Some c) k1 k2 H), H. reflexivity.
Qed.

Lemma one_ext {A} ok p s (k1 k2 : option ascii -> pystr -> option A) :
  (forall p' s', k1 p' s' = k2 p' s') -> one ok p s k1 = one ok p s k2.
Proof. intros H. destruct s as [|c s]; simpl; [reflexivity|]. now rewrite H. Qed.

Lemma times_ext {A} ok n : forall p s (k1 k2 : option ascii -> pystr -> option A),
  (forall p' s', k1 p' s' = k2 p' s') -> times n ok p s k1 = times n ok p s k2.
Proof.
  induction n as [|n IH]; intros p s k1 k2 H; simpl; [apply H|].
  apply one_ext. intros p' s'. now apply IH.
Qed.

(** The matcher only looks at what its continuation returns. *)
Lemma rmatch_ext {A} f r : forall p s (k1 k2 : option ascii -> pystr -> option A),
  (forall p' s', k1 p' s' = k2 p' s') -> rmatch f r p s k1 = rmatch f r p s k2.
Proof.
  induction r as [|a|r1 IH1 r2 IH2|r1 IH1 r2 IH2|a|a|n a| |];
    intros p s k1 k2 H; simpl.
  - apply H.
  - now apply one_ext.
  - apply IH1. intros p' s'. now apply IH2.
  - now rewrite (IH1 p s k1 k2 H), (IH2 p s k1 k2 H).
  - now rewrite (one_ext _ p s k1 k2 H), H.
  - now apply star_ext.
  - apply times_ext. intros p' s'. now apply star_ext.
  - now rewrite H.
  - now rewrite H.
Qed.

Lemma rmatch_lit_cons {A} f c w p s (k : option ascii -> pystr -> option A) :
  rmatch f (lit (c :: w)) p s k =
  one (atom_ok f (Chr c)) p s (fun p' s' => rmatch f (lit w) p' s' k).
Proof. destruct w; reflexivity. Qed.

Lemma rmatch_lit_app {A} f w v : forall p s (k : option ascii -> pystr -> option A),
  rmatch f (lit w) p s (fun p' s' => rmatch f (lit v) p' s' k) =
  rmatch f (lit (w ++ v)) p s k.
Proof.
  induction w as [|c w IH]; intros p s k; [reflexivity|].
  rewrite <- app_comm_cons, !rmatch_lit_cons.
  destruct s as [|x s]; [reflexivity|]. cbn [one].
  destruct (atom_ok f (Chr c) x); [apply IH|reflexivity].
Qed.

(** [.*$] under [re.MULTILINE] takes the rest of the line. *)
Lemma star_dot_eol {A} s : forall p (k : option ascii -> pystr -> option A),
  star (atom_ok multiline Dot) p s
       (fun p' s' => if at_eol multiline s' then k p' s' else None) =
  k (ctx_after p (first_line s)) (rest_of_line s).
Proof.
  induction s as [|c s IH]; intros p k; [reflexivity|].
  cbn [star first_line rest_of_line atom_ok multiline DOTALL orb].
  destruct (Ascii.eqb c nl) eqn:E; cbn [negb].
  - cbn [at_eol]. rewrite E. reflexivity.
  - rewrite IH, ctx_after_cons.
    destruct (k _ _); [reflexivity|]. cbn [at_eol]. rewrite E. reflexivity.
Qed.

(** A word without a newline in front of the rest of the line. *)
Lemma lit_then_line {A} w : forall p s (k : option ascii -> pystr -> option A),
  (forall c, In c w -> same c nl = false) ->
  rmatch multiline (lit w) p s
         (fun p' s' => k (ctx_after p' (first_line s')) (rest_of_line s')) =
  if has_prefix same w s
  then k (ctx_after p (first_line s)) (rest_of_line s) else None.
Proof.
  induction w as [|c w IH]; intros p s k Hw; [reflexivity|].
  rewrite rmatch_lit_cons. destruct s as [|x s]; [reflexivity|].
  cbn [one has_prefix atom_ok multiline IGNORECASE].
  fold (same c x). destruct (same c x) eqn:E; [|reflexivity].
  rewrite IH by (intros d Hd; apply Hw; now right).
  cbn [first_line rest_of_line andb].
  destruct (Ascii.eqb x nl) eqn:Ex.
  - apply Ascii.eqb_eq in Ex. subst x.
    rewrite (Hw c (or_introl eq_refl)) in E. discriminate.
  - now rewrite ctx_after_cons.
Qed.

Lemma header_labels_no_newline w :
  In w header_labels -> forall c, In c (w ++ py ":") -> same c nl = false.
Proof.
  intros Hw c Hc.
  assert (H : forallb (fun w => forallb (fun c => negb (same c nl)) (w ++ py ":"))
                      header_labels = true) by reflexivity.
  rewrite forallb_forall in H. specialize (H w Hw).
  rewrite forallb_forall in H. specialize (H c Hc).
  now apply negb_true_iff in H.
Qed.

Lemma header_line_match p s :
  match_at multiline header_line false p s =
  if at_bol multiline p && is_header_line s
  then Some (ctx_after p (first_line s), rest_of_line s) else None.
Proof.
  unfold match_at, header_line. cbn [rmatch andb].
  destruct (at_bol multiline p); [|reflexivity]. cbn [andb].
  unfold header_labels at 1. cbn [map]. rewrite rmatch_alts.
  change (lit (py "From") :: _) with (map lit header_labels).
  rewrite map_map. unfold is_header_line.
  apply first_some_uniform. intros w Hw.
  change (one (atom_ok multiline (Chr ":"))) with
    (fun p s k => @rmatch (option ascii * pystr) multiline (lit (py ":")) p s k).
  cbv beta.
  rewrite (rmatch_lit_app multiline w (py ":")).
  rewrite (rmatch_ext multiline (lit (w ++ py ":")) p s _
             (fun p' s' => Some (ctx_after p' (first_line s'), rest_of_line s')))
    by (intros; apply star_dot_eol).
  apply (lit_then_line (w ++ py ":") p s (fun p' s' => Some (p', s'))).
  now apply header_labels_no_newline.
Qed.

Lemma quoted_line_match p s :
  match_at multiline quoted_line false p s =
  if at_bol multiline p && is_quoted_line s
  then Some (ctx_after p (first_line s), rest_of_line s) else None.
Proof.
  unfold match_at, quoted_line. cbn [rmatch andb].
  destruct (at_bol multiline p); [|reflexivity]. cbn [andb].
  change (one (atom_ok multiline (Chr ">"))) with
    (fun p s k => @rmatch (option ascii * pystr) multiline (lit (py ">")) p s k).
  cbv beta.
  rewrite (rmatch_ext multiline (lit (py ">")) p s _
             (fun p' s' => Some (ctx_after p' (first_line s'), rest_of_line s')))
    by (intros; apply star_dot_eol).
  apply (lit_then_line (py ">") p s (fun p' s' => Some (p', s'))).
  intros c [<-|[]]. reflexivity.
Qed.

Lemma is_header_line_first_line s :
  is_header_line s = is_header_line (first_line s).
Proof.
  unfold is_header_line.
  assert (H : forall ws, (forall w, In w ws -> In w header_labels) ->
            existsb (fun w => has_prefix same (w ++ py ":") s) ws =
            existsb (fun w => has_prefix same (w ++ py ":") (first_line s)) ws).
  { induction ws as [|w ws IH]; intros Hws; [reflexivity|]. cbn [existsb].
    rewrite (has_prefix_first_line same (w ++ py ":") s)
      by (apply header_labels_no_newline, Hws; now left).
    f_equal. apply IH. intros v Hv. apply Hws. now right. }
  apply H. auto.
Qed.

Lemma is_quoted_line_first_line s :
  is_quoted_line s = is_quoted_line (first_line s).
Proof.
  apply has_prefix_first_line. intros c [<-|[]]. reflexivity.
Qed.

(** The header step blanks every header line and nothing else. *)
Theorem header_step_by_lines (s : pystr) :
  Re.sub multiline header_line [] s = map_lines (blank_if is_header_line) s.
Proof.
  apply line_anchored_sub.
  - apply Nat.leb_le. reflexivity.
  - reflexivity.
  - apply header_line_match.
  - apply is_header_line_first_line.
Qed.

(** The quote step blanks every quoted line and nothing else. *)
Theorem quote_step_by_lines (s : pystr) :
  Re.sub multiline quoted_line [] s = map_lines (blank_if is_quoted_line) s.
Proof.
  apply line_anchored_sub.
  - apply Nat.leb_le. reflexivity.
  - reflexivity.
  - apply quoted_line_match.
  - apply is_quoted_line_first_line.
Qed.

End HeaderAndQuote.

(** ** The signature step *)
Section Signature.
Import Re Patterns.

Lemma same_ci_newline c : same_ci nl c = Ascii.eqb c nl.
Proof.
  destruct c as [[] [] [] [] [] [] [] []]; reflexivity.
Qed.

Lemma same_ci_comma c : same_ci "," c = Ascii.eqb c ",".
Proof.
  destruct c as [[] [] [] [] [] [] [] []]; reflexivity.
Qed.

Lemma star_all {A} s : forall p (k : option ascii -> pystr -> option A),
  (forall p', k p' [] <> None) ->
  star (atom_ok ignorecase_dotall Dot) p s k = k (ctx_after p s) [].
Proof.
  induction s as [|c s IH]; intros p k Hk; [reflexivity|].
  cbn [star atom_ok ignorecase_dotall DOTALL orb].
  rewrite IH, ctx_after_cons by exact Hk.
  destruct (k (ctx_after (Some c) s) []) eqn:E; [reflexivity|].
  now destruct (Hk _ E).
Qed.

Lemma ws_newline_rest s : forall p,
  star (atom_ok ignorecase_dotall Space) p s
       (fun p1 s1 =>
          one (atom_ok ignorecase_dotall (Chr nl)) p1 s1
              (fun p2 s2 =>
                 star (atom_ok ignorecase_dotall Dot) p2 s2
                      (fun p3 s3 => Some (p3, s3)))) =
  if ws_then_newline s then found p s else None.
Proof.
  induction s as [|c s IH]; intros p; [reflexivity|].
  cbn [star ws_then_newline]. change (atom_ok ignorecase_dotall Space c)
    with (Str.isspace c).
  assert (K : one (atom_ok ignorecase_dotall (Chr nl)) p (c :: s)
                  (fun p2 s2 =>
                     star (atom_ok ignorecase_dotall Dot) p2 s2
                          (fun p3 s3 => Some (p3, s3))) =
              if Ascii.eqb c nl then found p (c :: s) else None).
  { cbn [one]. change (atom_ok ignorecase_dotall (Chr nl) c) with (same_ci nl c).
    rewrite same_ci_newline. destruct (Ascii.eqb c nl); [|reflexivity].
    rewrite star_all by discriminate. unfold found. now rewrite ctx_after_cons. }
  destruct (Str.isspace c) eqn:Ec.
  - rewrite IH. destruct (ws_then_newline s).
    + rewrite orb_true_r. unfold found. now rewrite ctx_after_cons.
    + rewrite K. cbn [andb]. now rewrite orb_false_r.
  - rewrite K. cbn [andb]. now rewrite orb_false_r.
Qed.

Lemma opt_comma_rest p s :
  rmatch ignorecase_dotall
         (Seq (Opt (Chr ",")) (Seq (Star Space) (Seq (One (Chr nl)) (Star Dot))))
         p s (fun p' s' => Some (p', s')) =
  if after_salutation s then found p s else None.
Proof.
  cbn [rmatch]. unfold after_salutation.
  destruct s as [|c s]; [reflexivity|]. cbn [one].
  change (atom_ok ignorecase_dotall (Chr ",") c) with (same_ci "," c).
  rewrite same_ci_comma. rewrite !ws_newline_rest.
  destruct (Ascii.eqb c ",") eqn:Ec; [|reflexivity].
  destruct (ws_then_newline s).
  - unfold found. now rewrite ctx_after_cons.
  - apply Ascii.eqb_eq in Ec. subst c. reflexivity.
Qed.

Lemma signature_match w0 ws p s :
  match_at ignorecase_dotall (signature (w0 :: ws)) false p s =
  if signature_here (w0 :: ws) s then found p s else None.
Proof.
  unfold match_at, signature. cbn [rmatch andb map].
  rewrite rmatch_alts. change (lit w0 :: map lit ws) with (map lit (w0 :: ws)).
  rewrite map_map. unfold signature_here.
  apply first_some_uniform. intros w _.
  rewrite rmatch_lit.
  change (starts_with ignorecase_dotall w s) with (has_prefix same_ci w s).
  destruct (has_prefix same_ci w s); [|reflexivity]. cbn [andb].
  pose proof (opt_comma_rest (ctx_after p (firstn (length w) s))
                             (skipn (length w) s)) as H.
  cbn [rmatch] in H. rewrite H.
  destruct (after_salutation _); [|reflexivity].
  unfold found. now rewrite ctx_after_app, firstn_skipn.
Qed.

Lemma signature_min_len sal : 1 <= min_len (signature sal).
Proof. unfold signature. cbn [min_len]. lia. Qed.

(** The step keeps the text before the first such position and drops
    the rest; without such a position it changes nothing. *)
Theorem signature_step (w0 : pystr) (ws : list pystr) (s : pystr) :
  Re.sub ignorecase_dotall (signature (w0 :: ws)) [] s =
  match find_signature (w0 :: ws) s with
  | Some i => firstn i s
  | None => s
  end.
Proof.
  rewrite (sub_is_sub_from _ _ _ (signature_min_len _)).
  generalize (@None ascii) as p.
  induction s as [|c s IH]; intros p.
  - apply sub_from_nil, signature_min_len.
  - pose proof (signature_match w0 ws p (c :: s)) as E.
    cbn [find_signature].
    destruct (signature_here (w0 :: ws) (c :: s)).
    + rewrite (sub_from_match _ _ _ (signature_min_len _) _ _ _ _ E).
      apply sub_from_nil, signature_min_len.
    + rewrite (sub_from_copy _ _ _ _ _ _ E), IH.
      destruct (find_signature (w0 :: ws) s); reflexivity.
Qed.

Lemma find_signature_first sal s i :
  find_signature sal s = Some i ->
  i < length s /\ signature_here sal (skipn i s) = true /\
  forall j, j < i -> signature_here sal (skipn j s) = false.
Proof.
  revert i. induction s as [|c s IH]; intros i; [discriminate|].
  cbn [find_signature].
  destruct (signature_here sal (c :: s)) eqn:E.
  - intros [= <-]. simpl. repeat split; [lia|exact E|intros j Hj; lia].
  - destruct (find_signature sal s) as [n|]; [|discriminate].
    intros [= <-]. destruct (IH n eq_refl) as (Hn & Hs & Hj).
    simpl. repeat split; [lia|exact Hs|].
    intros [|j] Hlt; [exact E|]. apply Hj. lia.
Qed.

Lemma find_signature_none sal s :
  find_signature sal s = None ->
  forall j, j < length s -> signature_here sal (skipn j s) = false.
Proof.
  induction s as [|c s IH]; intros H j Hj; [simpl in Hj; lia|].
  cbn [find_signature] in H.
  destruct (signature_here sal (c :: s)) eqn:E; [discriminate|].
  destruct (find_signature sal s); [discriminate|].
  destruct j as [|j]; [exact E|]. simpl in *. apply IH; [reflexivity|lia].
Qed.

End Signature.

(** ** The subject label *)
Section SubjectLabel.
Import Re Patterns.

Lemma ctx_after_some c u : exists c', ctx_after (Some c) u = Some c'.
Proof.
  unfold ctx_after. destruct (rev u) as [|d t]; eauto.
Qed.

Lemma has_prefix_length eq w : forall s,
  has_prefix eq w s = true -> length w <= length s.
Proof.
  induction w as [|c w IH]; intros s H; [simpl; lia|].
  destruct s as [|x s]; [discriminate|]. simpl in *.
  apply andb_true_iff in H as [_ H]. apply IH in H. lia.
Qed.

Lemma star_space_rest s : forall c,
  exists c',
    star (atom_ok ignorecase Space) (Some c) s (fun p1 s1 => Some (p1, s1)) =
    Some (Some c', Str.lstrip s).
Proof.
  induction s as [|x s IH]; intros c; [now exists c|].
  cbn [star Str.lstrip]. change (atom_ok ignorecase Space x) with (Str.isspace x).
  destruct (Str.isspace x).
  - destruct (IH x) as (c' & ->). now exists c'.
  - now exists c.
Qed.

Lemma subject_label_later c s :
  match_at ignorecase subject_label false (Some c) s = None.
Proof. reflexivity. Qed.

Lemma subject_label_at_start s :
  match_at ignorecase subject_label false None s =
  if has_prefix same_ci (py "Subject:") s
  then match_at ignorecase subject_label false None s else None.
Proof.
  destruct (has_prefix same_ci (py "Subject:") s) eqn:E; [reflexivity|].
  unfold match_at, subject_label. cbn [rmatch at_bol].
  rewrite rmatch_lit.
  change (starts_with ignorecase (py "Subject:") s)
    with (has_prefix same_ci (py "Subject:") s).
  now rewrite E.
Qed.

Lemma subject_label_found s :
  has_prefix same_ci (py "Subject:") s = true ->
  exists c', match_at ignorecase subject_label false None s =
             Some (Some c', Str.lstrip (skipn 8 s)).
Proof.
  intros E. unfold match_at, subject_label. cbn [rmatch at_bol].
  rewrite rmatch_lit.
  change (starts_with ignorecase (py "Subject:") s)
    with (has_prefix same_ci (py "Subject:") s).
  rewrite E. cbn [rmatch andb].
  apply has_prefix_length in E.
  destruct s as [|x s]; [simpl in E; lia|].
  change (length (py "Subject:")) with 8.
  rewrite firstn_cons, ctx_after_cons.
  destruct (ctx_after_some x (firstn 7 s)) as [c ->].
  apply star_space_rest.
Qed.

Lemma subject_label_min_len : 1 <= min_len subject_label.
Proof. apply Nat.leb_le. reflexivity. Qed.

Lemma sub_subject_label_later c s :
  sub_from ignorecase subject_label [] (Some c) s = s.
Proof.
  apply sub_from_unchanged; [exact subject_label_min_len|].
  intros u v _. destruct (ctx_after_some c u) as [c' ->].
  apply subject_label_later.
Qed.

(** The label step of the web front end removes the label from the
    start of the line and does nothing anywhere else. *)
Theorem label_step (l : pystr) :
  Re.sub ignorecase subject_label [] l = remove_label l.
Proof.
  rewrite (sub_is_sub_from _ _ _ subject_label_min_len). unfold remove_label.
  destruct (has_prefix same_ci (py "Subject:") l) eqn:E.
  - destruct (subject_label_found l E) as [c H].
    rewrite (sub_from_match _ _ _ subject_label_min_len _ _ _ _ H).
    apply sub_subject_label_later.
  - pose proof (subject_label_at_start l) as H. rewrite E in H.
    destruct l as [|c l]; [now apply sub_from_nil, subject_label_min_len|].
    rewrite (sub_from_copy _ _ _ _ _ _ H). f_equal.
    apply sub_subject_label_later.
Qed.

End SubjectLabel.

(** ** The steps of [preprocess_email] by name *)
Section Steps.
Import Re Patterns Str.

Lemma web_pipeline (t : pystr) :
  Streamlit.preprocess_email t =
  strip (collapse_newlines
           (strip_signature Streamlit.salutations
              (strip_quoted (strip_headers (collapse_blank_lines t))))).
Proof. reflexivity. Qed.

Lemma desktop_pipeline (t : pystr) :
  Tkinter.preprocess_email t =
  strip (strip_signature Tkinter.salutations
           (strip_quoted (strip_headers (collapse_blank_lines t)))).
Proof. reflexivity. Qed.

Lemma split_nl_line (l : pystr) : ~ In nl l -> split_nl l = [l].
Proof.
  induction l as [|c l IH]; intros H; [reflexivity|]. simpl.
  destruct (Ascii.eqb c nl) eqn:E.
  - apply Ascii.eqb_eq in E. subst c. destruct H. now left.
  - rewrite IH; [reflexivity|]. intros Hl. apply H. now right.
Qed.

Lemma split_nl_app (l rest : pystr) :
  ~ In nl l -> split_nl (l ++ nl :: rest) = l :: split_nl rest.
Proof.
  induction l as [|c l IH]; intros H; simpl.
  - reflexivity.
  - destruct (Ascii.eqb c nl) eqn:E.
    + apply Ascii.eqb_eq in E. subst c. destruct H. now left.
    + rewrite IH; [reflexivity|]. intros Hl. apply H. now right.
Qed.

Lemma split_join (ls : list pystr) :
  ls <> [] -> (forall l, In l ls -> ~ In nl l) ->
  split_nl (join_nl ls) = ls.
Proof.
  induction ls as [|l ls IH]; intros Hne H; [congruence|].
  destruct ls as [|l2 ls].
  - simpl. apply split_nl_line, H. now left.
  - change (join_nl (l :: l2 :: ls)) with (l ++ nl :: join_nl (l2 :: ls)).
    rewrite split_nl_app by (apply H; now left).
    f_equal. apply IH; [discriminate|]. intros x Hx. apply H. now right.
Qed.

Lemma first_line_no_newline (s : pystr) : ~ In nl (first_line s).
Proof.
  induction s as [|c s IH]; simpl; [tauto|].
  destruct (Ascii.eqb c nl) eqn:E; simpl; [tauto|].
  intros [->|H]; [|tauto]. now rewrite Ascii.eqb_refl in E.
Qed.

Lemma split_nl_no_newline (s : pystr) :
  forall l, In l (split_nl s) -> ~ In nl l.
Proof.
  assert (H : forall n s, length s <= n ->
              forall l, In l (split_nl s) -> ~ In nl l).
  { induction n as [|n IH]; intros s' Hn l; rewrite split_nl_unfold.
    - destruct s'; [|simpl in Hn; lia]. simpl.
      intros [<-|[]]. tauto.
    - intros [<-|Hl]; [apply first_line_no_newline|].
      pose proof (rest_of_line_length s') as Hr.
      destruct (rest_of_line s') as [|c s'']; [destruct Hl|].
      simpl in Hr. apply (IH s''); [lia|exact Hl]. }
  apply (H (length s) s (le_n _)).
Qed.

(** The lines after blanking are the lines before it, each one kept or
    replaced by the empty line. *)
Lemma blank_lines_of (bad : pystr -> bool) (s : pystr) :
  split_nl (map_lines (blank_if bad) s) = map (blank_if bad) (split_nl s).
Proof.
  unfold map_lines. apply split_join.
  - pose proof (split_nl_nonempty s). destruct (split_nl s); [congruence|discriminate].
  - intros l Hl. apply in_map_iff in Hl as (l0 & <- & Hl0).
    unfold blank_if. destruct (bad l0); [tauto|].
    now apply (split_nl_no_newline s).
Qed.

End Steps.

(** ** Lines that are salutations *)
Section SalutationLines.
Import Re Patterns Str.

Lemma no_salutation_line_check (salutations : list pystr) (s : pystr) :
  forallb (fun l => negb (is_salutation_line salutations l)) (split_nl s) = true ->
  forall l, In l (split_nl s) -> is_salutation_line salutations l = false.
Proof.
  intros F l Hl. rewrite forallb_forall in F. now apply negb_true_iff, F.
Qed.

End SalutationLines.

(** ** The cut of the subject *)
Section SubjectCut.
Import Re Patterns Str.

Lemma ellipsize_length (s : pystr) : length (ellipsize s) <= 60.
Proof.
  unfold ellipsize. destruct (60 <? length s) eqn:E.
  - apply Nat.ltb_lt in E. rewrite length_app, length_firstn.
    change (length (py "...")) with 3. lia.
  - now apply Nat.ltb_ge in E.
Qed.

(** The web front end on the spec's example. *)
Lemma web_subject_example :
  Streamlit.extract_subject (py "Subject: Hello World\nBody...") = py "Hello World".
Proof. vm_compute. reflexivity. Qed.

End SubjectCut.

(** ** Patterns that occur somewhere in a text

    [hit v] says that something starts at the head of [v]; it occurs in
    [x] when it starts at some position of [x]. *)
Section Occurs.
Variable hit : pystr -> bool.

Lemma anywhere_occurs (x : pystr) : anywhere hit x = true <-> occurs hit x.
Proof.
  induction x as [|c x IH]; simpl.
  - rewrite orb_false_r. split.
    + intros H. now exists [], [].
    + intros (a & v & E & H). symmetry in E.
      apply app_eq_nil in E as [-> ->]. exact H.
  - rewrite orb_true_iff, IH. split.
    + intros [H|(a & v & -> & H)].
      * now exists [], (c :: x).
      * now exists (c :: a), v.
    + intros (a & v & E & H). destruct a as [|d a]; simpl in E.
      * left. now rewrite E.
      * injection E as -> ->. right. now exists a, v.
Qed.

Lemma anywhere_false (x : pystr) : anywhere hit x = false <-> ~ occurs hit x.
Proof.
  rewrite <- anywhere_occurs. destruct (anywhere hit x); split; intros; congruence.
Qed.

Lemma occurs_after (z x : pystr) : occurs hit x -> occurs hit (z ++ x).
Proof.
  intros (a & v & -> & H). exists (z ++ a), v. now rewrite app_assoc.
Qed.

Lemma occurs_before (x z : pystr) : grows hit -> occurs hit x -> occurs hit (x ++ z).
Proof.
  intros G (a & v & -> & H). exists a, (v ++ z).
  rewrite app_assoc. split; [reflexivity|]. now apply G.
Qed.

Lemma occurs_inside (a x b : pystr) : grows hit -> occurs hit x -> occurs hit (a ++ x ++ b).
Proof. intros G H. apply occurs_after. now apply occurs_before. Qed.

End Occurs.

(** ** [strip] keeps a stretch of the text and is idempotent *)
Section StripFacts.
Import Str.

Lemma lstrip_suffix (s : pystr) : exists a, s = a ++ lstrip s.
Proof.
  induction s as [|c s [a IH]]; [now exists []|]. simpl.
  destruct (isspace c).
  - exists (c :: a). simpl. now f_equal.
  - now exists [].
Qed.

Lemma rstrip_prefix (s : pystr) : exists b, s = rstrip s ++ b.
Proof.
  unfold rstrip. destruct (lstrip_suffix (rev s)) as [a E].
  exists (rev a). rewrite <- rev_app_distr, <- E. now rewrite rev_involutive.
Qed.

Lemma strip_inside (s : pystr) : exists a b, s = a ++ strip s ++ b.
Proof.
  unfold strip. destruct (lstrip_suffix s) as [a E].
  destruct (rstrip_prefix (lstrip s)) as [b E'].
  exists a, b. now rewrite <- E', <- E.
Qed.

Lemma lstrip_idem (s : pystr) : lstrip (lstrip s) = lstrip s.
Proof.
  induction s as [|c s IH]; [reflexivity|]. simpl.
  destruct (isspace c) eqn:E; [exact IH|]. simpl. now rewrite E.
Qed.

Lemma rstrip_idem (s : pystr) : rstrip (rstrip s) = rstrip s.
Proof. unfold rstrip. now rewrite rev_involutive, lstrip_idem. Qed.

Lemma lstrip_starts_clean (s : pystr) : starts_clean (lstrip s) = true.
Proof.
  induction s as [|c s IH]; [reflexivity|]. simpl.
  destruct (isspace c) eqn:E; [exact IH|]. simpl. now rewrite E.
Qed.

Lemma lstrip_clean (s : pystr) : starts_clean s = true -> lstrip s = s.
Proof.
  destruct s as [|c s]; [reflexivity|]. simpl.
  now destruct (isspace c).
Qed.

Lemma starts_clean_prefix (s b : pystr) :
  starts_clean (s ++ b) = true -> starts_clean s = true.
Proof. destruct s; [reflexivity|exact (fun H => H)]. Qed.

Lemma strip_idem (s : pystr) : strip (strip s) = strip s.
Proof.
  unfold strip.
  assert (C : starts_clean (rstrip (lstrip s)) = true).
  { destruct (rstrip_prefix (lstrip s)) as [b E].
    apply (starts_clean_prefix _ b). rewrite <- E. apply lstrip_starts_clean. }
  rewrite (lstrip_clean _ C). apply rstrip_idem.
Qed.

Lemma strip_starts_clean (s : pystr) : starts_clean (strip s) = true.
Proof.
  unfold strip. destruct (rstrip_prefix (lstrip s)) as [b E].
  apply (starts_clean_prefix _ b). rewrite <- E. apply lstrip_starts_clean.
Qed.

End StripFacts.

(** ** Dropping newlines out of runs of newlines

    [squeeze x y]: [y] is [x] with some newlines removed, each of them
    directly in front of a newline that stays.  This is all that
    collapsing three or more newlines into two does to a text. *)
Section Squeeze.

Lemma squeeze_refl (x : pystr) : squeeze x x.
Proof. induction x; constructor; assumption. Qed.

Lemma squeeze_cons_inv (x y : pystr) (d : ascii) :
  squeeze x (d :: y) -> d <> nl -> exists x', x = d :: x' /\ squeeze x' y.
Proof.
  intros H Hd. inversion H; subst.
  - eauto.
  - congruence.
Qed.

Lemma squeeze_newline_head (x y : pystr) :
  squeeze x (nl :: y) -> exists x', x = nl :: x'.
Proof. intros H. inversion H; subst; eauto. Qed.

Lemma squeeze_has_prefix eq (w : pystr) : forall x y,
  (forall c, In c w -> eq c nl = false) ->
  squeeze x y -> has_prefix eq w y = true ->
  has_prefix eq w x = true /\ squeeze (skipn (length w) x) (skipn (length w) y).
Proof.
  induction w as [|c w IH]; intros x y Hw S H; [now split|].
  destruct y as [|d y]; [discriminate|]. simpl in H.
  apply andb_true_iff in H as [Hc H].
  assert (Hd : d <> nl).
  { intros ->. rewrite (Hw c (or_introl eq_refl)) in Hc. discriminate. }
  destruct (squeeze_cons_inv _ _ _ S Hd) as (x' & -> & S').
  destruct (IH x' y (fun e He => Hw e (or_intror He)) S' H) as [Hp Hs].
  simpl. rewrite Hc, Hp. now split.
Qed.

Lemma squeeze_ws_then_newline (x y : pystr) :
  squeeze x y -> ws_then_newline y = true -> ws_then_newline x = true.
Proof.
  induction 1 as [|c x y S IH|x y S IH]; intros H.
  - discriminate.
  - simpl in *. apply orb_true_iff in H as [H|H]; [now rewrite H|].
    apply andb_true_iff in H as [Hc H]. rewrite Hc, (IH H). apply orb_true_r.
  - reflexivity.
Qed.

Lemma squeeze_occurs (hit : pystr -> bool) :
  survives hit -> hit [] = false ->
  forall x y, squeeze x y -> occurs hit y -> occurs hit x.
Proof.
  intros K Hnil. induction 1 as [|c x y S IH|x y S IH]; intros (a & v & E & H).
  - symmetry in E. apply app_eq_nil in E as [-> ->]. congruence.
  - destruct a as [|d a]; simpl in E.
    + subst v. exists [], (c :: x). split; [reflexivity|]. now apply (K c x y).
    + injection E as <- ->.
      destruct (IH (ex_intro _ a (ex_intro _ v (conj eq_refl H))))
        as (a' & v' & -> & H').
      now exists (c :: a'), v'.
  - destruct (IH (ex_intro _ a (ex_intro _ v (conj E H)))) as (a' & v' & E' & H').
    exists (nl :: a'), v'. simpl. now rewrite <- E'.
Qed.

End Squeeze.

(** ** What the steps remove, as patterns *)
Section Hits.
Import Patterns.

Lemma has_prefix_grows eq (w : pystr) : grows (has_prefix eq w).
Proof.
  induction w as [|c w IH]; intros v z H; [reflexivity|].
  destruct v as [|x v]; [discriminate|]. simpl in *.
  apply andb_true_iff in H as [-> H]. now apply IH.
Qed.

Lemma is_header_line_grows : grows is_header_line.
Proof.
  intros v z H. unfold is_header_line in *.
  apply existsb_exists in H as (w & Hw & H). apply existsb_exists.
  exists w. split; [exact Hw|]. now apply has_prefix_grows.
Qed.

Lemma is_quoted_line_grows : grows is_quoted_line.
Proof. apply has_prefix_grows. Qed.

Lemma ws_then_newline_grows : grows ws_then_newline.
Proof.
  intros v z. induction v as [|c v IH]; [discriminate|]. simpl.
  intros H. apply orb_true_iff in H as [->|H]; [reflexivity|].
  apply andb_true_iff in H as [-> H]. rewrite (IH H). apply orb_true_r.
Qed.

Lemma blank_line_grows : grows blank_line.
Proof.
  intros [|d v] z H; [discriminate|]. simpl in *.
  apply andb_true_iff in H as [-> H]. now apply ws_then_newline_grows.
Qed.

Lemma at_line_grows P : grows P -> grows (at_line P).
Proof.
  intros G [|c v] z H; [discriminate|]. simpl in *.
  apply andb_true_iff in H as [-> H]. now apply G.
Qed.

Lemma three_newlines_grows : grows three_newlines.
Proof.
  intros [|a [|b [|c v]]] z H; try discriminate. exact H.
Qed.

Lemma after_salutation_grows : grows after_salutation.
Proof.
  intros [|c v] z H; [discriminate|]. unfold after_salutation in *. simpl.
  destruct (Ascii.eqb c ",").
  - now apply (ws_then_newline_grows v z).
  - now apply (ws_then_newline_grows (c :: v) z).
Qed.

Lemma signature_here_grows sal : grows (signature_here sal).
Proof.
  intros v z H. unfold signature_here in *.
  apply existsb_exists in H as (w & Hw & H). apply existsb_exists.
  exists w. split; [exact Hw|].
  apply andb_true_iff in H as [Hp Ha].
  rewrite (has_prefix_grows _ _ _ _ Hp). simpl.
  rewrite skipn_app.
  replace (length w - length v) with 0
    by (apply has_prefix_length in Hp; lia).
  simpl. now apply after_salutation_grows.
Qed.

Lemma at_line_survives P :
  (forall x y, squeeze x y -> P y = true -> P x = true) -> survives (at_line P).
Proof.
  intros R c x y S H. simpl in *.
  apply andb_true_iff in H as [-> H]. now apply (R x y).
Qed.

Lemma is_header_line_squeeze x y :
  squeeze x y -> is_header_line y = true -> is_header_line x = true.
Proof.
  intros S H. unfold is_header_line in *.
  apply existsb_exists in H as (w & Hw & H). apply existsb_exists.
  exists w. split; [exact Hw|].
  now apply (squeeze_has_prefix same (w ++ py ":") x y
               (header_labels_no_newline w Hw) S).
Qed.

Lemma is_quoted_line_squeeze x y :
  squeeze x y -> is_quoted_line y = true -> is_quoted_line x = true.
Proof.
  intros S H.
  apply (squeeze_has_prefix same (py ">") x y); [|exact S|exact H].
  intros c [<-|[]]. reflexivity.
Qed.

Lemma blank_line_squeeze x y :
  squeeze x y -> blank_line y = true -> blank_line x = true.
Proof.
  intros S H. destruct y as [|d y]; [discriminate|]. simpl in H.
  apply andb_true_iff in H as [Hd H]. apply andb_true_iff in Hd as [Hs Hn].
  assert (d <> nl) by (intros ->; discriminate).
  destruct (squeeze_cons_inv _ _ _ S H0) as (x' & -> & S').
  simpl. rewrite Hs, Hn. now apply (squeeze_ws_then_newline x' y).
Qed.

Lemma after_salutation_squeeze x y :
  squeeze x y -> after_salutation y = true -> after_salutation x = true.
Proof.
  intros S H. unfold after_salutation in *.
  destruct y as [|d y]; [discriminate|].
  destruct (Ascii.eqb d ",") eqn:Ed.
  - apply Ascii.eqb_eq in Ed. subst d.
    destruct (squeeze_cons_inv _ _ _ S) as (x' & -> & S'); [discriminate|].
    simpl. now apply (squeeze_ws_then_newline x' y).
  - inversion S; subst.
    + rewrite Ed. now apply (squeeze_ws_then_newline _ _ S).
    + reflexivity.
Qed.

Lemma signature_here_squeeze sal x y :
  plain_words sal = true ->
  squeeze x y -> signature_here sal y = true -> signature_here sal x = true.
Proof.
  intros Hsal S H. unfold signature_here in *.
  apply existsb_exists in H as (w & Hw & H). apply existsb_exists.
  exists w. split; [exact Hw|].
  apply andb_true_iff in H as [Hp Ha].
  assert (Hc : forall c, In c w -> same_ci c nl = false).
  { intros c Hc. unfold plain_words in Hsal. rewrite forallb_forall in Hsal.
    specialize (Hsal w Hw). rewrite forallb_forall in Hsal.
    now apply negb_true_iff, Hsal. }
  destruct (squeeze_has_prefix same_ci w x y Hc S Hp) as [Hx Hs].
  rewrite Hx. simpl. now apply (after_salutation_squeeze _ _ Hs).
Qed.

Lemma signature_here_survives sal :
  plain_words sal = true -> survives (signature_here sal).
Proof.
  intros Hsal c x y S H.
  apply (signature_here_squeeze sal (c :: x) (c :: y) Hsal); [|exact H].
  now constructor.
Qed.

End Hits.

(** ** Substitutions that change nothing *)
Section SubSame.
Import Re.
Variables (f : flags) (r : regex) (repl : pystr).
Hypothesis nonempty : 1 <= min_len r.

(** Where every match there is replaces a copy of the replacement, the
    text stays as it is. *)
Lemma sub_from_same : forall n s p, length s <= n ->
  (forall u v, s = u ++ v ->
     match_at f r false (ctx_after p u) v = None \/
     exists v', match_at f r false (ctx_after p u) v
                = Some (ctx_after (ctx_after p u) repl, v')
                /\ v = repl ++ v') ->
  sub_from f r repl p s = s.
Proof.
  induction n as [|n IH]; intros s p Hn H.
  - destruct s; [|simpl in Hn; lia]. now apply sub_from_nil.
  - destruct (H [] s eq_refl) as [E|(v' & E & Es)];
      change (ctx_after p []) with p in E.
    + destruct s as [|c s]; [now apply sub_from_nil|].
      rewrite sub_from_copy by exact E. f_equal. simpl in Hn.
      apply IH; [lia|]. intros u v ->.
      rewrite <- (ctx_after_cons p). now apply (H (c :: u) v).
    + rewrite (sub_from_match f r repl nonempty _ _ _ _ E).
      pose proof (match_at_shorter f r nonempty _ _ _ _ _ E) as Hlt.
      rewrite Es at 1. f_equal.
      apply IH; [lia|]. intros u v ->.
      rewrite ctx_after_app.
      apply (H (repl ++ u) v). now rewrite <- app_assoc.
Qed.

End SubSame.

(** ** The blank-line step *)
Section BlankLines.
Import Re Patterns Str.

Lemma star_space_last_newline s : forall p,
  star (atom_ok no_flags Space) p s
       (fun p1 s1 => one (atom_ok no_flags (Chr nl)) p1 s1
                         (fun p2 s2 => Some (p2, s2))) =
  option_map (fun rest => (Some nl, rest)) (after_last_newline s).
Proof.
  induction s as [|c s IH]; intros p; [reflexivity|].
  cbn [star after_last_newline].
  change (atom_ok no_flags Space c) with (isspace c).
  assert (K : one (atom_ok no_flags (Chr nl)) p (c :: s)
                  (fun p2 s2 => Some (p2, s2)) =
              if Ascii.eqb c nl then Some (Some nl, s) else None).
  { cbn [one]. change (atom_ok no_flags (Chr nl) c) with (Ascii.eqb c nl).
    destruct (Ascii.eqb c nl) eqn:E; [|reflexivity].
    apply Ascii.eqb_eq in E. now subst c. }
  destruct (isspace c) eqn:Ec.
  - rewrite IH. destruct (after_last_newline s); [reflexivity|].
    cbn [option_map]. rewrite K. now destruct (Ascii.eqb c nl).
  - rewrite K. destruct (Ascii.eqb c nl) eqn:E; [|reflexivity].
    apply Ascii.eqb_eq in E. subst c. discriminate Ec.
Qed.

Lemma blank_lines_match p s :
  match_at no_flags blank_lines false p s =
  match s with
  | c :: s' =>
      if Ascii.eqb c nl
      then option_map (fun rest => (Some nl, rest)) (after_last_newline s')
      else None
  | [] => None
  end.
Proof.
  unfold match_at, blank_lines. cbn [rmatch andb].
  destruct s as [|c s]; [reflexivity|]. cbn [one].
  change (atom_ok no_flags (Chr nl) c) with (Ascii.eqb c nl).
  destruct (Ascii.eqb c nl); [|reflexivity].
  apply star_space_last_newline.
Qed.

Lemma blank_lines_min_len : 1 <= min_len blank_lines.
Proof. apply Nat.leb_le. reflexivity. Qed.

Lemma after_last_newline_ws s :
  ws_then_newline s = true <-> after_last_newline s <> None.
Proof.
  induction s as [|c s IH]; simpl; [split; [discriminate|congruence]|].
  destruct (isspace c) eqn:Ec.
  - destruct (after_last_newline s) eqn:E.
    + split; [discriminate|]. intros _.
      rewrite (proj2 IH) by discriminate. apply orb_true_r.
    + destruct (Ascii.eqb c nl); [split; [discriminate|reflexivity]|].
      destruct (ws_then_newline s) eqn:W; [now destruct (proj1 IH)|].
      split; [discriminate|congruence].
  - destruct (Ascii.eqb c nl) eqn:E.
    + apply Ascii.eqb_eq in E. subst c. discriminate Ec.
    + split; [discriminate|congruence].
Qed.

(** What is left after the match does not start with white space up to
    a newline again. *)
Lemma after_last_newline_rest s rest :
  after_last_newline s = Some rest -> ws_then_newline rest = false.
Proof.
  revert rest. induction s as [|c s IH]; intros rest; [discriminate|]. simpl.
  destruct (isspace c); [|discriminate].
  destruct (after_last_newline s) as [r0|] eqn:E.
  - intros [= <-]. now apply IH.
  - destruct (Ascii.eqb c nl); [|discriminate]. intros [= <-].
    destruct (ws_then_newline s) eqn:W; [|reflexivity].
    now apply after_last_newline_ws in W.
Qed.

Lemma blank_from_nil p : blank_from p [] = [].
Proof. apply sub_from_nil, blank_lines_min_len. Qed.

Lemma blank_from_match p s rest :
  after_last_newline s = Some rest ->
  blank_from p (nl :: s) = nl :: nl :: blank_from (Some nl) rest.
Proof.
  intros E. unfold blank_from.
  rewrite (sub_from_match _ _ _ blank_lines_min_len p (nl :: s) (Some nl) rest).
  - reflexivity.
  - rewrite blank_lines_match. cbn. now rewrite E.
Qed.

Lemma blank_from_copy p c s :
  (c = nl -> after_last_newline s = None) ->
  blank_from p (c :: s) = c :: blank_from (Some c) s.
Proof.
  intros E. unfold blank_from. apply sub_from_copy.
  rewrite blank_lines_match. destruct (Ascii.eqb c nl) eqn:Ec; [|reflexivity].
  apply Ascii.eqb_eq in Ec. now rewrite (E Ec).
Qed.

Lemma blank_from_cases p s :
  (s = [] /\ blank_from p s = []) \/
  (exists s' rest, s = nl :: s' /\ after_last_newline s' = Some rest /\
                   blank_from p s = nl :: nl :: blank_from (Some nl) rest) \/
  (exists c s', s = c :: s' /\ (c = nl -> after_last_newline s' = None) /\
                blank_from p s = c :: blank_from (Some c) s').
Proof.
  destruct s as [|c s]; [left; split; [reflexivity|apply blank_from_nil]|].
  destruct (Ascii.eqb c nl) eqn:Ec.
  - apply Ascii.eqb_eq in Ec. subst c.
    destruct (after_last_newline s) as [rest|] eqn:E.
    + right. left. exists s, rest. repeat split; [exact E|].
      now apply blank_from_match.
    + right. right. exists nl, s. repeat split; [auto|].
      now apply blank_from_copy.
  - right. right. exists c, s.
    assert (H : c = nl -> after_last_newline s = None)
      by (intros ->; now rewrite Ascii.eqb_refl in Ec).
    repeat split; [exact H|]. now apply blank_from_copy.
Qed.

(** The step copies a line up to its newline. *)
Lemma blank_from_line : forall s p,
  exists p', blank_from p s = first_line s ++ blank_from p' (rest_of_line s).
Proof.
  induction s as [|c s IH]; intros p; [now exists p|]. simpl.
  destruct (Ascii.eqb c nl) eqn:Ec; [now exists p|].
  rewrite blank_from_copy
    by (intros ->; now rewrite Ascii.eqb_refl in Ec).
  destruct (IH (Some c)) as [p' ->]. now exists p'.
Qed.

Lemma blank_from_head_newline p s :
  match blank_from p s with nl0 :: _ => Ascii.eqb nl0 nl | [] => false end =
  match s with c :: _ => Ascii.eqb c nl | [] => false end.
Proof.
  destruct (blank_from_cases p s)
    as [[-> ->]|[(s' & rest & -> & _ & ->)|(c & s' & -> & _ & ->)]];
    reflexivity.
Qed.

Lemma ws_then_newline_app l t :
  ~ In nl l ->
  ws_then_newline (l ++ t) = forallb isspace l && ws_then_newline t.
Proof.
  induction l as [|c l IH]; intros H; [reflexivity|]. simpl.
  destruct (Ascii.eqb c nl) eqn:Ec.
  - apply Ascii.eqb_eq in Ec. subst c. destruct H. now left.
  - simpl. rewrite IH by (intros Hl; apply H; now right).
    now rewrite andb_assoc.
Qed.

Lemma ws_then_newline_head t :
  ws_then_newline t = true -> t <> [].
Proof. destruct t; [discriminate|discriminate]. Qed.

(** A blank line at the head of the output was one in the input. *)
Lemma blank_line_back p s :
  blank_line (blank_from p s) = true -> blank_line s = true.
Proof.
  destruct (blank_from_line s p) as [p' E]. rewrite E.
  pose proof (first_line_no_newline s) as Hl.
  pose proof (blank_from_head_newline p' (rest_of_line s)) as Hh.
  rewrite (line_split s) at 3.
  destruct (first_line s) as [|d l0]; cbn [app].
  - destruct (rest_of_line_cases s) as [R|[s' R]]; rewrite R in *.
    + rewrite blank_from_nil. discriminate.
    + destruct (blank_from p' (nl :: s')) as [|d o]; [discriminate|].
      cbn in Hh. cbn [blank_line]. intros H.
      apply andb_true_iff in H as [H _]. apply andb_true_iff in H as [_ H].
      rewrite Hh in H. discriminate H.
  - cbn [blank_line]. intros H. apply andb_true_iff in H as [Hd H].
    rewrite Hd. cbn [andb].
    assert (Hl0 : ~ In nl l0) by (intros X; apply Hl; now right).
    rewrite ws_then_newline_app in H |- * by exact Hl0.
    apply andb_true_iff in H as [-> H]. cbn [andb].
    destruct (rest_of_line_cases s) as [R|[s' R]]; rewrite R in *.
    + rewrite blank_from_nil in H. discriminate.
    + reflexivity.
Qed.

Lemma blank_line_ws s : blank_line s = true -> ws_then_newline s = true.
Proof.
  destruct s as [|d s]; [discriminate|]. simpl. intros H.
  apply andb_true_iff in H as [H ->]. apply andb_true_iff in H as [-> _].
  apply orb_true_r.
Qed.

(** After the step no blank line is left between two newlines. *)
Lemma blank_from_no_blank_line : forall n s p, length s <= n ->
  ~ occurs (at_line blank_line) (blank_from p s).
Proof.
  induction n as [|n IH]; intros s p Hn (a & v & E & H).
  - destruct s; [|simpl in Hn; lia]. rewrite blank_from_nil in E.
    symmetry in E. apply app_eq_nil in E as [_ ->]. discriminate.
  - destruct (blank_from_cases p s)
      as [[-> Eo]|[(s' & rest & -> & Er & Eo)|(c & s' & -> & Ec & Eo)]];
      rewrite Eo in E.
    + symmetry in E. apply app_eq_nil in E as [_ ->]. discriminate.
    + destruct a as [|a0 [|a1 a]]; simpl in E.
      * subst v. discriminate H.
      * injection E as _ <-. simpl in H.
        apply blank_line_back, blank_line_ws in H.
        now rewrite (after_last_newline_rest _ _ Er) in H.
      * injection E as _ _ E.
        assert (Hr : length rest <= n).
        { pose proof (match_at_shorter no_flags blank_lines blank_lines_min_len
                        false p (nl :: s') (Some nl) rest) as L.
          rewrite blank_lines_match in L. cbn in L. rewrite Er in L.
          specialize (L eq_refl). simpl in L, Hn. lia. }
        apply (IH rest (Some nl) Hr). now exists a, v.
    + destruct a as [|a0 a]; simpl in E.
      * subst v. simpl in H. apply andb_true_iff in H as [Hc H].
        apply Ascii.eqb_eq in Hc.
        apply blank_line_back, blank_line_ws, after_last_newline_ws in H.
        now apply H, Ec.
      * injection E as _ E. simpl in Hn.
        apply (IH s' (Some c)); [lia|]. now exists a, v.
Qed.

(** Without a blank line and without three newlines in a row, every
    match of the pattern is two newlines, so the step changes nothing. *)
Lemma blank_match_trivial s rest :
  after_last_newline s = Some rest ->
  s = nl :: rest \/ blank_line s = true \/
  three_newlines (nl :: s) = true \/ at_line blank_line s = true.
Proof.
  destruct s as [|d s]; [discriminate|]. cbn [after_last_newline].
  destruct (isspace d) eqn:Ed; [|discriminate].
  destruct (Ascii.eqb d nl) eqn:En.
  - apply Ascii.eqb_eq in En. subst d.
    destruct (after_last_newline s) as [r0|] eqn:E.
    + intros _. right. right.
      destruct s as [|e s]; [discriminate|]. cbn [after_last_newline] in E.
      destruct (isspace e) eqn:Ee; [|discriminate].
      destruct (Ascii.eqb e nl) eqn:Een.
      * left. cbn [three_newlines]. now rewrite Een.
      * right. cbn [at_line blank_line]. rewrite Ee, Een.
        destruct (after_last_newline s) eqn:E'; [|discriminate].
        cbn. apply after_last_newline_ws. congruence.
    + intros [= <-]. now left.
  - destruct (after_last_newline s) eqn:E; [|discriminate].
    intros _. right. left. cbn [blank_line]. rewrite Ed, En. cbn.
    apply after_last_newline_ws. congruence.
Qed.

Lemma blank_step_same (p : pystr) :
  ~ occurs (at_line blank_line) p -> ~ occurs three_newlines p ->
  Re.sub no_flags blank_lines (py "\n\n") p = p.
Proof.
  intros HW H3. rewrite (sub_is_sub_from _ _ _ blank_lines_min_len).
  apply (sub_from_same _ _ _ blank_lines_min_len (length p)); [lia|].
  intros u v E. rewrite blank_lines_match.
  destruct v as [|c v]; [now left|].
  destruct (Ascii.eqb c nl) eqn:Ec; [|now left].
  apply Ascii.eqb_eq in Ec. subst c.
  destruct (after_last_newline v) as [rest|] eqn:Er; [|now left].
  right. exists rest. split; [reflexivity|].
  destruct (blank_match_trivial v rest Er) as [->|[H|[H|H]]].
  - reflexivity.
  - destruct HW. exists u, (nl :: v). split; [exact E|exact H].
  - destruct H3. now exists u, (nl :: v).
  - destruct HW. exists (u ++ [nl]), v. split; [|exact H].
    now rewrite <- app_assoc.
Qed.

End BlankLines.

(** ** The newline-run step of the web front end *)
Section Newlines.
Import Re Patterns.

Lemma star_newlines s :
  star (atom_ok no_flags (Chr nl)) (Some nl) s (fun p' s' => Some (p', s')) =
  Some (Some nl, drop_newlines s).
Proof.
  induction s as [|c s IH]; [reflexivity|]. cbn [star drop_newlines].
  change (atom_ok no_flags (Chr nl) c) with (Ascii.eqb c nl).
  destruct (Ascii.eqb c nl) eqn:E; [|reflexivity].
  apply Ascii.eqb_eq in E. subst c. now rewrite IH.
Qed.

Lemma newlines3_match p s :
  match_at no_flags newlines3 false p s =
  if three_newlines s then Some (Some nl, drop_newlines s) else None.
Proof.
  unfold match_at, newlines3. cbn [rmatch andb times].
  destruct s as [|a [|b [|c s]]]; cbn [one three_newlines drop_newlines];
    change (atom_ok no_flags (Chr nl)) with (fun x => Ascii.eqb x nl); cbv beta;
    try reflexivity.
  - now destruct (Ascii.eqb a nl).
  - destruct (Ascii.eqb a nl); [|reflexivity]. now destruct (Ascii.eqb b nl).
  - destruct (Ascii.eqb a nl); [|reflexivity].
    destruct (Ascii.eqb b nl); [|reflexivity].
    destruct (Ascii.eqb c nl) eqn:E; [|reflexivity]. cbn [andb].
    apply Ascii.eqb_eq in E. subst c.
    change (fun x => Ascii.eqb x nl) with (atom_ok no_flags (Chr nl)).
    apply star_newlines.
Qed.

Lemma newlines3_min_len : 1 <= min_len newlines3.
Proof. apply Nat.leb_le. reflexivity. Qed.

Lemma newlines_from_cases p s :
  (s = [] /\ newlines_from p s = []) \/
  (three_newlines s = true /\
   newlines_from p s = nl :: nl :: newlines_from (Some nl) (drop_newlines s)) \/
  (exists c s', s = c :: s' /\ three_newlines s = false /\
                newlines_from p s = c :: newlines_from (Some c) s').
Proof.
  destruct s as [|c s]; [left; split; [reflexivity|]|].
  - apply sub_from_nil, newlines3_min_len.
  - pose proof (newlines3_match p (c :: s)) as E.
    destruct (three_newlines (c :: s)) eqn:T.
    + right. left. split; [reflexivity|]. unfold newlines_from.
      now rewrite (sub_from_match _ _ _ newlines3_min_len _ _ _ _ E).
    + right. right. exists c, s. repeat split.
      unfold newlines_from. now rewrite (sub_from_copy _ _ _ _ _ _ E).
Qed.

Lemma drop_newlines_length s : length (drop_newlines s) <= length s.
Proof.
  induction s as [|c s IH]; simpl; [lia|].
  destruct (Ascii.eqb c nl); simpl; lia.
Qed.

Lemma drop_newlines_head s : head_newline (drop_newlines s) = false.
Proof.
  induction s as [|c s IH]; [reflexivity|]. simpl.
  destruct (Ascii.eqb c nl) eqn:E; [exact IH|]. simpl. exact E.
Qed.

Lemma three_newlines_length s : three_newlines s = true -> 3 <= length s.
Proof. destruct s as [|a [|b [|c s]]]; try discriminate. simpl. lia. Qed.

Lemma three_newlines_drop s :
  three_newlines s = true ->
  exists s', s = nl :: nl :: nl :: s' /\ drop_newlines s = drop_newlines s'.
Proof.
  destruct s as [|a [|b [|c s]]]; try discriminate. simpl. intros H.
  apply andb_true_iff in H as [H Hc]. apply andb_true_iff in H as [Ha Hb].
  rewrite Ha, Hb, Hc.
  apply Ascii.eqb_eq in Ha, Hb, Hc. subst. now exists s.
Qed.

Lemma squeeze_run s : forall y,
  squeeze (drop_newlines s) y -> squeeze (nl :: nl :: s) (nl :: nl :: y).
Proof.
  induction s as [|c s IH]; intros y H.
  - now repeat constructor.
  - simpl in H. destruct (Ascii.eqb c nl) eqn:E.
    + apply Ascii.eqb_eq in E. subst c. apply squeeze_drop. now apply IH.
    + now repeat constructor.
Qed.

(** The step only drops newlines out of runs. *)
Lemma newlines_from_squeeze : forall n s p, length s <= n ->
  squeeze s (newlines_from p s).
Proof.
  induction n as [|n IH]; intros s p Hn.
  - destruct s; [|simpl in Hn; lia].
    destruct (newlines_from_cases p []) as [[_ ->]|[[T _]|(c & s' & E & _)]];
      [constructor|discriminate|discriminate].
  - destruct (newlines_from_cases p s)
      as [[-> ->]|[[T ->]|(c & s' & -> & _ & ->)]].
    + constructor.
    + destruct (three_newlines_drop s T) as (s' & -> & Ed).
      apply squeeze_drop, squeeze_run. rewrite Ed.
      apply IH. pose proof (drop_newlines_length s'). simpl in Hn. lia.
    + constructor. apply IH. simpl in Hn. lia.
Qed.

Lemma newlines_from_head p s :
  head_newline (newlines_from p s) = head_newline s.
Proof.
  destruct (newlines_from_cases p s)
    as [[-> ->]|[[T ->]|(c & s' & -> & _ & ->)]]; try reflexivity.
  destruct (three_newlines_drop s T) as (s' & -> & _). reflexivity.
Qed.

Lemma newlines_from_two p s :
  two_newlines (newlines_from p s) = true -> two_newlines s = true.
Proof.
  destruct (newlines_from_cases p s)
    as [[-> ->]|[[T ->]|(c & s' & -> & _ & ->)]].
  - discriminate.
  - destruct (three_newlines_drop s T) as (s' & -> & _). reflexivity.
  - pose proof (newlines_from_head (Some c) s') as H.
    destruct (newlines_from (Some c) s') as [|d o]; [discriminate|].
    cbn [two_newlines]. intros E. apply andb_true_iff in E as [Ec Ed].
    cbn [head_newline] in H. rewrite Ed in H.
    destruct s' as [|e s']; [discriminate|]. cbn in H |- *. now rewrite Ec, <- H.
Qed.

(** After the step no three newlines in a row are left. *)
Lemma newlines_from_no_three : forall n s p, length s <= n ->
  ~ occurs three_newlines (newlines_from p s).
Proof.
  induction n as [|n IH]; intros s p Hn (a & v & E & H).
  - destruct s; [|simpl in Hn; lia].
    destruct (newlines_from_cases p []) as [[_ Eo]|[[T _]|(c & s' & E' & _)]];
      try discriminate.
    rewrite Eo in E. symmetry in E. apply app_eq_nil in E as [_ ->]. discriminate.
  - destruct (newlines_from_cases p s)
      as [[-> Eo]|[[T Eo]|(c & s' & -> & T & Eo)]]; rewrite Eo in E.
    + symmetry in E. apply app_eq_nil in E as [_ ->]. discriminate.
    + pose proof (newlines_from_head (Some nl) (drop_newlines s)) as Hh.
      rewrite drop_newlines_head in Hh.
      destruct a as [|a0 [|a1 a]]; simpl in E.
      * subst v. cbn [three_newlines] in H.
        destruct (newlines_from (Some nl) (drop_newlines s)) as [|d o];
          [discriminate|].
        cbn in Hh. rewrite Hh in H. cbn in H. discriminate.
      * injection E as _ <-.
        destruct (newlines_from (Some nl) (drop_newlines s)) as [|d o];
          [discriminate|].
        cbn in Hh. cbn [three_newlines] in H. destruct o; [discriminate|].
        rewrite Hh in H. rewrite andb_false_r in H. discriminate.
      * injection E as _ _ E.
        apply (IH (drop_newlines s) (Some nl)); [|now exists a, v].
        destruct (three_newlines_drop s T) as (s' & -> & ->).
        pose proof (drop_newlines_length s'). simpl in Hn. lia.
    + destruct a as [|a0 a]; simpl in E.
      * subst v.
        assert (T2 : two_newlines (newlines_from (Some c) s') = true).
        { destruct (newlines_from (Some c) s') as [|d [|e o]]; try discriminate.
          cbn in H |- *. apply andb_true_iff in H as [H ->].
          apply andb_true_iff in H as [_ ->]. reflexivity. }
        apply newlines_from_two in T2.
        assert (Hc : Ascii.eqb c nl = true).
        { destruct (newlines_from (Some c) s') as [|d [|e o]]; try discriminate.
          cbn in H. apply andb_true_iff in H as [H _].
          now apply andb_true_iff in H as [-> _]. }
        destruct s' as [|d [|e s']]; try discriminate.
        cbn in T, T2. rewrite Hc in T. cbn in T. rewrite T2 in T. discriminate.
      * injection E as _ E. simpl in Hn.
        apply (IH s' (Some c)); [lia|]. now exists a, v.
Qed.

Lemma collapse_newlines_squeeze (s : pystr) :
  squeeze s (Re.sub no_flags newlines3 (py "\n\n") s).
Proof.
  rewrite (sub_is_sub_from _ _ _ newlines3_min_len).
  apply (newlines_from_squeeze (length s)). lia.
Qed.

Lemma collapse_newlines_no_three (s : pystr) :
  ~ occurs three_newlines (Re.sub no_flags newlines3 (py "\n\n") s).
Proof.
  rewrite (sub_is_sub_from _ _ _ newlines3_min_len).
  apply (newlines_from_no_three (length s)). lia.
Qed.

Lemma newlines_step_same (p : pystr) :
  ~ occurs three_newlines p ->
  Re.sub no_flags newlines3 (py "\n\n") p = p.
Proof.
  intros H3. rewrite (sub_is_sub_from _ _ _ newlines3_min_len).
  apply sub_from_unchanged; [exact newlines3_min_len|].
  intros u v E. rewrite newlines3_match.
  destruct (three_newlines v) eqn:T; [|reflexivity].
  destruct H3. now exists u, v.
Qed.

End Newlines.

(** ** Line blanking and the patterns *)
Section BlankedLines.
Import Re Patterns Str.
Variable bad : pystr -> bool.
Hypothesis bad_nil : bad [] = false.

Lemma blank_if_no_newline l : ~ In nl l -> ~ In nl (blank_if bad l).
Proof. unfold blank_if. destruct (bad l); [intros _ []|exact (fun H => H)]. Qed.

Lemma blank_if_bad l : bad (blank_if bad l) = false.
Proof. unfold blank_if. destruct (bad l) eqn:E; [exact bad_nil|exact E]. Qed.

Lemma blank_if_cases l : blank_if bad l = [] \/ blank_if bad l = l.
Proof. unfold blank_if. destruct (bad l); auto. Qed.

Lemma app_split_newline (l t a v : pystr) :
  ~ In nl l -> l ++ t = a ++ nl :: v ->
  exists a', a = l ++ a' /\ t = a' ++ nl :: v.
Proof.
  revert a. induction l as [|c l IH]; intros a Hl E.
  - now exists a.
  - destruct a as [|d a]; simpl in E.
    + injection E as -> _. destruct Hl. now left.
    + injection E as <- E.
      destruct (IH a (fun X => Hl (or_intror X)) E) as (a' & -> & ->).
      now exists a'.
Qed.

Lemma line_cases (x : pystr) :
  (rest_of_line x = [] /\ x = first_line x) \/
  (exists x1, rest_of_line x = nl :: x1 /\ x = first_line x ++ nl :: x1).
Proof.
  pose proof (line_split x) as E.
  destruct (rest_of_line_cases x) as [R|[x1 R]]; rewrite R in E.
  - left. split; [exact R|]. now rewrite app_nil_r in E.
  - right. now exists x1.
Qed.

Lemma map_lines_cases (x : pystr) :
  (x = first_line x /\
   map_lines (blank_if bad) x = blank_if bad (first_line x)) \/
  (exists x1, x = first_line x ++ nl :: x1 /\ length x1 < length x /\
     map_lines (blank_if bad) x =
     blank_if bad (first_line x) ++ nl :: map_lines (blank_if bad) x1).
Proof.
  rewrite map_lines_unfold.
  destruct (line_cases x) as [[R E]|(x1 & R & E)]; rewrite R.
  - left. split; [exact E|apply app_nil_r].
  - right. exists x1. split; [exact E|]. split; [|reflexivity].
    rewrite E at 1. rewrite length_app. simpl. lia.
Qed.

(** Something found after a newline of the blanked text sits at the
    start of a line of the text. *)
Lemma map_lines_at_line P : forall n x, length x < n ->
  occurs (at_line P) (map_lines (blank_if bad) x) ->
  exists u x', x = u ++ nl :: x' /\ P (map_lines (blank_if bad) x') = true.
Proof.
  induction n as [|n IH]; intros x Hn (a & v & E & H); [lia|].
  destruct v as [|c v]; [discriminate|]. cbn [at_line] in H.
  apply andb_true_iff in H as [Hc H]. apply Ascii.eqb_eq in Hc. subst c.
  pose proof (blank_if_no_newline _ (first_line_no_newline x)) as Hl.
  destruct (map_lines_cases x) as [[Ex Em]|(x1 & Ex & Hlen & Em)];
    rewrite Em in E.
  - rewrite <- (app_nil_r (blank_if bad (first_line x))) in E.
    destruct (app_split_newline _ _ _ _ Hl E) as (a' & _ & Et).
    destruct a'; discriminate.
  - destruct (app_split_newline _ _ _ _ Hl E) as (a' & _ & Et).
    destruct a' as [|d a']; simpl in Et.
    + injection Et as Et. exists (first_line x), x1. now rewrite Et.
    + injection Et as _ Et.
      assert (Ho : occurs (at_line P) (map_lines (blank_if bad) x1)).
      { exists a', (nl :: v). split; [exact Et|].
        cbn [at_line]. rewrite Ascii.eqb_refl. exact H. }
      assert (Hx1 : length x1 < n) by lia.
      destruct (IH x1 Hx1 Ho) as (u & x' & -> & HP).
      exists (first_line x ++ nl :: u), x'. split; [|exact HP].
      rewrite Ex at 1. now rewrite <- app_assoc.
Qed.

Lemma first_line_id (l : pystr) : ~ In nl l -> first_line l = l.
Proof.
  induction l as [|c l IH]; intros Hl; [reflexivity|]. simpl.
  destruct (Ascii.eqb c nl) eqn:Ec.
  - apply Ascii.eqb_eq in Ec. subst c. destruct Hl. now left.
  - f_equal. apply IH. intros X. apply Hl. now right.
Qed.

Lemma first_line_app_newline (l t : pystr) :
  ~ In nl l -> first_line (l ++ nl :: t) = l.
Proof.
  induction l as [|c l IH]; intros Hl; [reflexivity|]. simpl.
  destruct (Ascii.eqb c nl) eqn:Ec.
  - apply Ascii.eqb_eq in Ec. subst c. destruct Hl. now left.
  - f_equal. apply IH. intros X. apply Hl. now right.
Qed.

Lemma map_lines_first_line (x : pystr) :
  first_line (map_lines (blank_if bad) x) = blank_if bad (first_line x).
Proof.
  pose proof (blank_if_no_newline _ (first_line_no_newline x)) as Hl.
  destruct (map_lines_cases x) as [[_ ->]|(x1 & _ & _ & ->)].
  - now apply first_line_id.
  - now apply first_line_app_newline.
Qed.

(** Blanking the [bad] lines leaves no [bad] line after a newline. *)
Lemma map_lines_no_bad (x : pystr) :
  (forall s, bad s = bad (first_line s)) ->
  ~ occurs (at_line bad) (map_lines (blank_if bad) x).
Proof.
  intros Hline H.
  destruct (map_lines_at_line bad (S (length x)) x (Nat.lt_succ_diag_r _) H)
    as (u & x' & _ & Hb).
  rewrite Hline, map_lines_first_line, blank_if_bad in Hb. discriminate.
Qed.

(** A line predicate found after a newline of the blanked text was
    there before. *)
Lemma map_lines_keeps_lines P (x : pystr) :
  (forall s, P s = P (first_line s)) -> P [] = false ->
  occurs (at_line P) (map_lines (blank_if bad) x) -> occurs (at_line P) x.
Proof.
  intros Hline Hnil H.
  destruct (map_lines_at_line P (S (length x)) x (Nat.lt_succ_diag_r _) H)
    as (u & x' & -> & HP).
  exists u, (nl :: x'). split; [reflexivity|]. cbn [at_line]. rewrite Ascii.eqb_refl. cbn [andb].
  rewrite Hline, map_lines_first_line in HP.
  destruct (blank_if_cases (first_line x')) as [B|B]; rewrite B in HP.
  - congruence.
  - now rewrite Hline.
Qed.

Lemma blank_line_of_newline t : blank_line (nl :: t) = false.
Proof. reflexivity. Qed.

(** The same for blank lines. *)
Lemma map_lines_blank_line (x : pystr) :
  blank_line (map_lines (blank_if bad) x) = true -> blank_line x = true.
Proof.
  pose proof (first_line_no_newline x) as Hl.
  destruct (map_lines_cases x) as [[E ->]|(x1 & E & _ & ->)];
    destruct (blank_if_cases (first_line x)) as [B|B]; rewrite B.
  - discriminate.
  - now rewrite <- E.
  - cbn [app]. now rewrite blank_line_of_newline.
  - rewrite E at 2. destruct (first_line x) as [|d l0].
    + cbn [app]. now rewrite blank_line_of_newline.
    + cbn [app blank_line].
      assert (Hl0 : ~ In nl l0) by (intros X; apply Hl; now right).
      now rewrite !(ws_then_newline_app l0) by exact Hl0.
Qed.

Lemma map_lines_keeps_blank_lines (x : pystr) :
  occurs (at_line blank_line) (map_lines (blank_if bad) x) ->
  occurs (at_line blank_line) x.
Proof.
  intros H.
  destruct (map_lines_at_line blank_line (S (length x)) x
              (Nat.lt_succ_diag_r _) H) as (u & x' & -> & HP).
  exists u, (nl :: x'). split; [reflexivity|]. cbn [at_line]. rewrite Ascii.eqb_refl. cbn [andb].
  now apply map_lines_blank_line.
Qed.

End BlankedLines.

(** ** Line-anchored steps that change nothing *)
Section AnchoredSame.
Import Re.
Variables (f : flags) (r : regex) (bad : pystr -> bool).
Hypothesis nonempty : 1 <= min_len r.
Hypothesis match_spec : forall p s,
  match_at f r false p s =
  if at_bol f p && bad s
  then Some (ctx_after p (first_line s), rest_of_line s) else None.

Lemma anchored_step_same (p : pystr) :
  bad p = false -> ~ occurs (at_line bad) p -> sub f r [] p = p.
Proof.
  intros H0 H. rewrite (sub_is_sub_from _ _ _ nonempty).
  apply sub_from_unchanged; [exact nonempty|].
  intros u v E. rewrite match_spec.
  destruct (bad v) eqn:Ev; [|now rewrite andb_false_r].
  unfold ctx_after. destruct (rev u) as [|c t] eqn:Er.
  - apply (f_equal (@rev ascii)) in Er. rewrite rev_involutive in Er.
    subst u. simpl in E. subst v. congruence.
  - apply (f_equal (@rev ascii)) in Er. rewrite rev_involutive in Er.
    simpl in Er. subst u. cbn [at_bol].
    destruct (Ascii.eqb c nl) eqn:Ec; [|now rewrite andb_false_r].
    apply Ascii.eqb_eq in Ec. subst c. destruct H.
    exists (rev t), (nl :: v). split; [now rewrite <- app_assoc in E|].
    cbn [at_line]. now rewrite Ascii.eqb_refl.
Qed.

End AnchoredSame.

(** ** The signature step and the pattern *)
Section SignatureOccurs.
Import Re Patterns.

Lemma signature_here_nil sal : signature_here sal [] = false.
Proof.
  unfold signature_here. induction sal as [|w sal IH]; [reflexivity|].
  cbn [existsb]. rewrite IH. destruct w; reflexivity.
Qed.

Lemma signature_step_no_signature (sal : list pystr) (x : pystr) :
  sal <> [] ->
  ~ occurs (signature_here sal) (Re.sub ignorecase_dotall (signature sal) [] x).
Proof.
  destruct sal as [|w0 ws]; [congruence|]. intros _.
  rewrite signature_step. intros (a & v & E & H).
  assert (Hv : v <> []) by (intros ->; now rewrite signature_here_nil in H).
  destruct (find_signature (w0 :: ws) x) as [i|] eqn:F.
  - destruct (find_signature_first _ _ _ F) as (Hi & _ & Hj).
    assert (La : length a < i).
    { apply (f_equal (@length ascii)) in E.
      rewrite length_firstn, length_app in E.
      destruct v; [congruence|]. simpl in E. lia. }
    specialize (Hj (length a) La).
    rewrite <- (firstn_skipn i x) in Hj. rewrite E in Hj.
    rewrite <- app_assoc, skipn_app, skipn_all, Nat.sub_diag in Hj.
    cbn [skipn app] in Hj.
    now rewrite (signature_here_grows _ _ _ H) in Hj.
  - assert (La : length a < length x).
    { rewrite E, length_app. destruct v; [congruence|]. simpl. lia. }
    pose proof (find_signature_none _ _ F (length a) La) as Hj.
    rewrite E, skipn_app, skipn_all, Nat.sub_diag in Hj.
    cbn [skipn app] in Hj. congruence.
Qed.

Lemma signature_step_same (sal : list pystr) (p : pystr) :
  sal <> [] ->
  ~ occurs (signature_here sal) p ->
  Re.sub ignorecase_dotall (signature sal) [] p = p.
Proof.
  destruct sal as [|w0 ws]; [congruence|]. intros _.
  intros H. rewrite signature_step.
  destruct (find_signature (w0 :: ws) p) as [i|] eqn:F; [|reflexivity].
  destruct (find_signature_first _ _ _ F) as (_ & Hi & _).
  destruct H. exists (firstn i p), (skipn i p).
  split; [now rewrite firstn_skipn|exact Hi].
Qed.

End SignatureOccurs.

(** ** What is left after the steps of [preprocess_email] *)
Section Tidy.
Import Re Patterns Str.

Lemma strip_signature_prefix (sal : list pystr) (x : pystr) :
  sal <> [] -> exists z, x = strip_signature sal x ++ z.
Proof.
  destruct sal as [|w0 ws]; [congruence|]. intros _.
  unfold strip_signature. rewrite signature_step.
  destruct (find_signature (w0 :: ws) x) as [i|].
  - exists (skipn i x). now rewrite firstn_skipn.
  - exists []. now rewrite app_nil_r.
Qed.

Lemma is_header_line_nil : is_header_line [] = false.
Proof. reflexivity. Qed.

Lemma is_quoted_line_nil : is_quoted_line [] = false.
Proof. reflexivity. Qed.

Lemma tidy_after_quotes (t : pystr) :
  tidy (strip_quoted (strip_headers (collapse_blank_lines t))).
Proof.
  unfold strip_quoted, strip_headers, collapse_blank_lines.
  rewrite quote_step_by_lines, header_step_by_lines.
  split.
  - intros H.
    apply map_lines_keeps_blank_lines, map_lines_keeps_blank_lines in H.
    revert H. rewrite (sub_is_sub_from _ _ _ blank_lines_min_len).
    apply (blank_from_no_blank_line (length t)). lia.
  - intros H.
    apply (map_lines_keeps_lines is_quoted_line is_header_line) in H;
      [|exact is_header_line_first_line|exact is_header_line_nil].
    revert H. apply map_lines_no_bad;
      [exact is_header_line_nil|exact is_header_line_first_line].
  - apply map_lines_no_bad;
      [exact is_quoted_line_nil|exact is_quoted_line_first_line].
Qed.

Lemma tidy_inside (a x b : pystr) : tidy (a ++ x ++ b) -> tidy x.
Proof.
  intros [Hb Hh Hq]. split; intros H.
  - apply Hb, occurs_inside; [apply at_line_grows, blank_line_grows|exact H].
  - apply Hh, occurs_inside; [apply at_line_grows, is_header_line_grows|exact H].
  - apply Hq, occurs_inside; [apply at_line_grows, is_quoted_line_grows|exact H].
Qed.

Lemma tidy_squeeze (x y : pystr) : squeeze x y -> tidy x -> tidy y.
Proof.
  intros S [Hb Hh Hq]. split; intros H.
  - apply Hb. revert H. apply squeeze_occurs; [|reflexivity|exact S].
    apply at_line_survives, blank_line_squeeze.
  - apply Hh. revert H. apply squeeze_occurs; [|reflexivity|exact S].
    apply at_line_survives, is_header_line_squeeze.
  - apply Hq. revert H. apply squeeze_occurs; [|reflexivity|exact S].
    apply at_line_survives, is_quoted_line_squeeze.
Qed.

(** On a tidy text without a header or a quote at its very start, the
    header and quote steps change nothing. *)
Lemma header_step_same (p : pystr) :
  is_header_line p = false -> tidy p -> strip_headers p = p.
Proof.
  intros H0 [_ Hh _].
  apply (anchored_step_same multiline header_line is_header_line);
    [apply Nat.leb_le; reflexivity|exact header_line_match|exact H0|exact Hh].
Qed.

Lemma quote_step_same (p : pystr) :
  is_quoted_line p = false -> tidy p -> strip_quoted p = p.
Proof.
  intros H0 [_ _ Hq].
  apply (anchored_step_same multiline quoted_line is_quoted_line);
    [apply Nat.leb_le; reflexivity|exact quoted_line_match|exact H0|exact Hq].
Qed.

Lemma web_salutations_plain : plain_words Streamlit.salutations = true.
Proof. reflexivity. Qed.

Lemma web_salutations_nonempty : Streamlit.salutations <> [].
Proof. discriminate. Qed.

Lemma desktop_salutations_nonempty : Tkinter.salutations <> [].
Proof. discriminate. Qed.

End Tidy.

(** ** Deleting characters *)
Section Subsequence.
Import Str Re Patterns.

Lemma subseq_nil_l (y : pystr) : subseq [] y.
Proof. induction y; [apply subseq_nil | now apply subseq_skip]. Qed.

Lemma subseq_refl (x : pystr) : subseq x x.
Proof. induction x; [apply subseq_nil | now apply subseq_take]. Qed.

Lemma subseq_app (x1 y1 x2 y2 : pystr) :
  subseq x1 y1 -> subseq x2 y2 -> subseq (x1 ++ x2) (y1 ++ y2).
Proof.
  intros H1 H2.
  induction H1; simpl;
    [exact H2 | now apply subseq_skip | now apply subseq_take].
Qed.

Lemma subseq_trans (x y z : pystr) : subseq x y -> subseq y z -> subseq x z.
Proof.
  intros Hxy Hyz. revert x Hxy.
  induction Hyz as [|c y z _ IH|c y z _ IH]; intros x Hxy.
  - exact Hxy.
  - constructor. now apply IH.
  - inversion Hxy; subst.
    + apply subseq_skip. now apply IH.
    + apply subseq_take. now apply IH.
Qed.

Lemma subseq_inside (a x b : pystr) : subseq x (a ++ x ++ b).
Proof.
  change x with ([] ++ x) at 1.
  apply subseq_app; [apply subseq_nil_l|].
  rewrite <- (app_nil_r x) at 1.
  apply subseq_app; [apply subseq_refl|apply subseq_nil_l].
Qed.

Lemma subseq_In (c : ascii) (x y : pystr) : subseq x y -> In c x -> In c y.
Proof.
  intros H. induction H as [|d x y _ IH|d x y _ IH]; simpl; intros Hc;
    [exact Hc | right; auto |].
  destruct Hc; [left; assumption | right; auto].
Qed.

Lemma subseq_all_space (x y : pystr) :
  subseq x y -> all_space y = true -> all_space x = true.
Proof.
  unfold all_space. intros H Hy. apply forallb_forall. intros c Hc.
  rewrite forallb_forall in Hy. apply Hy. exact (subseq_In _ _ _ H Hc).
Qed.

End Subsequence.

(** ** A substitution whose replacement is taken from what it replaces *)
Section SubSubseq.
Import Re.
Variables (f : flags) (r : regex) (repl : pystr).
Hypothesis nonempty : 1 <= min_len r.
Hypothesis repl_in_match : forall p v p' v',
  match_at f r false p v = Some (p', v') ->
  exists u, v = u ++ v' /\ subseq repl u.

Lemma sub_from_subseq : forall n s p, length s <= n ->
  subseq (sub_from f r repl p s) s.
Proof.
  induction n as [|n IH]; intros s p Hn.
  - destruct s; [|simpl in Hn; lia].
    rewrite (sub_from_nil f r repl nonempty). apply subseq_nil.
  - destruct (match_at f r false p s) as [[p' s']|] eqn:E.
    + rewrite (sub_from_match f r repl nonempty _ _ _ _ E).
      pose proof (match_at_shorter f r nonempty _ _ _ _ _ E) as Hlt.
      destruct (repl_in_match _ _ _ _ E) as (u & -> & Hu).
      apply subseq_app; [exact Hu|]. apply IH. lia.
    + destruct s as [|c s].
      * rewrite (sub_from_nil f r repl nonempty). apply subseq_nil.
      * rewrite (sub_from_copy f r repl _ _ _ E).
        apply subseq_take. apply IH. simpl in Hn. lia.
Qed.

Lemma sub_subseq (s : pystr) : subseq (sub f r repl s) s.
Proof.
  rewrite (sub_is_sub_from f r repl nonempty).
  now apply (sub_from_subseq (length s)).
Qed.

End SubSubseq.

(** ** Every step of [preprocess_email] deletes *)
Section DeleteOnly.
Import Str Re Patterns.

(** A substitution by the empty string deletes. *)
Lemma sub_empty_subseq f r (s : pystr) :
  1 <= min_len r -> subseq (Re.sub f r [] s) s.
Proof.
  intros H. apply sub_subseq; [exact H|].
  intros p v p' v' E.
  destruct (match_at_consumes _ _ _ _ _ _ _ E) as (u & Eu & _).
  exists u. split; [exact Eu|apply subseq_nil_l].
Qed.

Lemma after_last_newline_split (s rest : pystr) :
  after_last_newline s = Some rest -> exists w, s = w ++ nl :: rest.
Proof.
  revert rest. induction s as [|c s IH]; intros rest H; [discriminate|].
  simpl in H. destruct (isspace c); [|discriminate].
  destruct (after_last_newline s) as [rest'|] eqn:E.
  - injection H as <-. destruct (IH _ eq_refl) as [w ->].
    now exists (c :: w).
  - destruct (Ascii.eqb c nl) eqn:Ec; [|discriminate].
    injection H as <-. apply Ascii.eqb_eq in Ec. subst c. now exists [].
Qed.

Lemma collapse_blank_lines_subseq (s : pystr) : subseq (collapse_blank_lines s) s.
Proof.
  apply sub_subseq; [apply blank_lines_min_len|].
  intros p v p' v' E. rewrite blank_lines_match in E.
  destruct v as [|c v]; [discriminate|].
  destruct (Ascii.eqb c nl) eqn:Ec; [|discriminate].
  apply Ascii.eqb_eq in Ec. subst c.
  destruct (after_last_newline v) as [rest|] eqn:A; [|discriminate].
  injection E as _ <-.
  destruct (after_last_newline_split _ _ A) as [w ->].
  exists (nl :: w ++ [nl]). split.
  - simpl. now rewrite <- app_assoc.
  - apply subseq_take.
    apply (subseq_app [] w [nl] [nl]); [apply subseq_nil_l|apply subseq_refl].
Qed.

Lemma drop_newlines_suffix (s : pystr) : exists u, s = u ++ drop_newlines s.
Proof.
  induction s as [|c s [u IH]]; [now exists []|].
  simpl. destruct (Ascii.eqb c nl).
  - exists (c :: u). simpl. now rewrite <- IH.
  - now exists [].
Qed.

Lemma collapse_newlines_subseq (s : pystr) : subseq (collapse_newlines s) s.
Proof.
  apply sub_subseq; [apply newlines3_min_len|].
  intros p v p' v' E. rewrite newlines3_match in E.
  destruct (three_newlines v) eqn:T; [|discriminate].
  injection E as _ <-.
  destruct (three_newlines_drop _ T) as (s' & -> & ->).
  destruct (drop_newlines_suffix s') as [u Eu].
  exists (nl :: nl :: nl :: u). split.
  - simpl. now rewrite <- Eu.
  - apply subseq_take, subseq_take, subseq_nil_l.
Qed.

Lemma strip_subseq (s : pystr) : subseq (strip s) s.
Proof.
  destruct (strip_inside s) as (a & b & E). rewrite E at 2.
  apply subseq_inside.
Qed.

Lemma header_line_min_len : 1 <= min_len header_line.
Proof. apply Nat.leb_le. reflexivity. Qed.

Lemma quoted_line_min_len : 1 <= min_len quoted_line.
Proof. apply Nat.leb_le. reflexivity. Qed.

(** The steps before the final [strip], in either front end. *)
Lemma web_steps_subseq (t : pystr) :
  subseq (collapse_newlines
            (strip_signature Streamlit.salutations
               (strip_quoted (strip_headers (collapse_blank_lines t))))) t.
Proof.
  eapply subseq_trans; [apply collapse_newlines_subseq|].
  eapply subseq_trans; [apply sub_empty_subseq, signature_min_len|].
  eapply subseq_trans; [apply sub_empty_subseq, quoted_line_min_len|].
  eapply subseq_trans; [apply sub_empty_subseq, header_line_min_len|].
  apply collapse_blank_lines_subseq.
Qed.

Lemma desktop_steps_subseq (t : pystr) :
  subseq (strip_signature Tkinter.salutations
            (strip_quoted (strip_headers (collapse_blank_lines t)))) t.
Proof.
  eapply subseq_trans; [apply sub_empty_subseq, signature_min_len|].
  eapply subseq_trans; [apply sub_empty_subseq, quoted_line_min_len|].
  eapply subseq_trans; [apply sub_empty_subseq, header_line_min_len|].
  apply collapse_blank_lines_subseq.
Qed.

End DeleteOnly.

(** ** The two ends of a stripped text *)
Section StripEnds.
Import Str.

Lemma lstrip_all_space (s : pystr) : all_space s = true -> lstrip s = [].
Proof.
  unfold all_space. induction s as [|c s IH]; [reflexivity|].
  cbn [forallb lstrip]. intros H. apply andb_prop in H as [Hc Hs].
  rewrite Hc. now apply IH.
Qed.

Lemma strip_all_space (s : pystr) : all_space s = true -> strip s = [].
Proof. intros H. unfold strip. now rewrite lstrip_all_space. Qed.

Lemma lstrip_nil_all_space (s : pystr) : lstrip s = [] -> all_space s = true.
Proof.
  unfold all_space. induction s as [|c s IH]; [reflexivity|].
  cbn [forallb lstrip]. destruct (isspace c); [exact IH|discriminate].
Qed.

Lemma all_space_rev (s : pystr) : all_space (rev s) = all_space s.
Proof.
  unfold all_space. apply eq_true_iff_eq.
  rewrite !forallb_forall. split; intros H c Hc; apply H.
  - now apply -> in_rev.
  - now apply in_rev.
Qed.

Lemma all_space_app (a b : pystr) :
  all_space (a ++ b) = all_space a && all_space b.
Proof. apply forallb_app. Qed.

(** What [strip] leaves out is white space. *)
Lemma lstrip_cut (s : pystr) :
  exists a, s = a ++ lstrip s /\ all_space a = true.
Proof.
  induction s as [|c s (a & E & Ha)]; [now exists []|].
  simpl. destruct (isspace c) eqn:Ec.
  - exists (c :: a). split; [simpl; now rewrite <- E|].
    unfold all_space in *. simpl. now rewrite Ec.
  - now exists [].
Qed.

Lemma rstrip_cut (s : pystr) :
  exists b, s = rstrip s ++ b /\ all_space b = true.
Proof.
  destruct (lstrip_cut (rev s)) as (a & E & Ha).
  exists (rev a). split.
  - unfold rstrip. rewrite <- rev_app_distr, <- E. now rewrite rev_involutive.
  - now rewrite all_space_rev.
Qed.

Lemma strip_nil_all_space (s : pystr) : strip s = [] -> all_space s = true.
Proof.
  intros H. destruct (lstrip_cut s) as (a & Ea & Ha).
  destruct (rstrip_cut (lstrip s)) as (b & Eb & Hb).
  fold (strip s) in Eb. rewrite H in Eb. simpl in Eb.
  rewrite Ea, Eb, all_space_app, Ha, Hb. reflexivity.
Qed.

Lemma strip_ends_clean (s : pystr) : ends_clean (strip s) = true.
Proof.
  unfold ends_clean, strip, rstrip. rewrite rev_involutive.
  apply lstrip_starts_clean.
Qed.

Lemma rstrip_clean (s : pystr) : ends_clean s = true -> rstrip s = s.
Proof.
  unfold ends_clean, rstrip. intros H.
  rewrite (lstrip_clean _ H). apply rev_involutive.
Qed.

Lemma strip_clean (s : pystr) :
  starts_clean s = true -> ends_clean s = true -> strip s = s.
Proof.
  intros Hs He. unfold strip. rewrite (lstrip_clean _ Hs).
  now apply rstrip_clean.
Qed.

(** A text that ends clean after a character of white space does not
    end there. *)
Lemma ends_clean_last (a : pystr) (c : ascii) :
  ends_clean (a ++ [c]) = true -> isspace c = false.
Proof.
  unfold ends_clean. rewrite rev_app_distr. simpl.
  now intros H%negb_true_iff.
Qed.

End StripEnds.

(** ** Where the lines of a text lie in it *)
Section LinesInText.
Import Str.

Lemma line_in_text : forall n p, length p < n ->
  forall l, In l (split_nl p) ->
    l = first_line p \/
    exists a b, p = a ++ nl :: l ++ b /\ (b = [] \/ exists b', b = nl :: b').
Proof.
  induction n as [|n IH]; intros p Hn l Hl; [lia|].
  rewrite split_nl_unfold in Hl. destruct Hl as [<-|Hl]; [now left|].
  right. destruct (line_cases p) as [[E _]|(x1 & E & Ep)];
    rewrite E in Hl; [destruct Hl|].
  assert (Hx : length x1 < n).
  { apply (f_equal (@length ascii)) in Ep.
    rewrite length_app in Ep. simpl in Ep, Hn. lia. }
  destruct (IH x1 Hx l Hl) as [->|(a & b & Ea & Hb)].
  - exists (first_line p), (rest_of_line x1). split.
    + now rewrite <- line_split.
    + destruct (rest_of_line_cases x1) as [->|[s' ->]]; [now left|right; eauto].
  - exists (first_line p ++ nl :: a), b. split; [|exact Hb].
    rewrite Ep at 1. rewrite Ea. now rewrite <- app_assoc.
Qed.

Lemma later_line_in_text (p l : pystr) :
  In l (tl (split_nl p)) ->
  exists a b, p = a ++ nl :: l ++ b /\ (b = [] \/ exists b', b = nl :: b').
Proof.
  intros Hl. rewrite split_nl_unfold in Hl. cbn [tl] in Hl.
  destruct (line_cases p) as [[E _]|(x1 & E & Ep)];
    rewrite E in Hl; [destruct Hl|].
  destruct (line_in_text (S (length x1)) x1 (Nat.lt_succ_diag_r _) l Hl)
    as [->|(a & b & Ea & Hb)].
  - exists (first_line p), (rest_of_line x1). split.
    + now rewrite <- line_split.
    + destruct (rest_of_line_cases x1) as [->|[s' ->]]; [now left|right; eauto].
  - exists (first_line p ++ nl :: a), b. split; [|exact Hb].
    rewrite Ep at 1. rewrite Ea. now rewrite <- app_assoc.
Qed.

(** A line after the first that [P] holds of is an occurrence of [P]
    after a newline. *)
Lemma later_line_occurs (P : pystr -> bool) (p l : pystr) :
  grows P -> In l (tl (split_nl p)) -> P l = true -> occurs (at_line P) p.
Proof.
  intros G Hl HP. destruct (later_line_in_text p l Hl) as (a & b & E & _).
  exists a, (nl :: l ++ b). split; [exact E|].
  cbn [at_line]. rewrite Ascii.eqb_refl. now apply G.
Qed.

End LinesInText.

(** ** The shape of a cleaned body *)
Section Body.
Import Str Re Patterns.

Lemma web_body_inside (t : pystr) :
  exists a b,
    collapse_newlines
      (strip_signature Streamlit.salutations
         (strip_quoted (strip_headers (collapse_blank_lines t))))
    = a ++ Streamlit.preprocess_email t ++ b.
Proof. rewrite web_pipeline. apply strip_inside. Qed.

Lemma desktop_body_inside (t : pystr) :
  exists a b,
    strip_signature Tkinter.salutations
      (strip_quoted (strip_headers (collapse_blank_lines t)))
    = a ++ Tkinter.preprocess_email t ++ b.
Proof. rewrite desktop_pipeline. apply strip_inside. Qed.

Lemma tidy_after_signature (sal : list pystr) (t : pystr) :
  sal <> [] ->
  tidy (strip_signature sal (strip_quoted (strip_headers (collapse_blank_lines t)))).
Proof.
  intros Hsal. pose proof (tidy_after_quotes t) as T3.
  destruct (strip_signature_prefix
              sal (strip_quoted (strip_headers (collapse_blank_lines t))) Hsal)
    as [z E].
  apply (tidy_inside [] _ z). simpl. now rewrite <- E.
Qed.

Lemma web_body_tidy (t : pystr) : tidy (Streamlit.preprocess_email t).
Proof.
  destruct (web_body_inside t) as (a & b & E).
  apply (tidy_inside a _ b). rewrite <- E.
  apply (tidy_squeeze _ _ (collapse_newlines_squeeze _)).
  apply tidy_after_signature, web_salutations_nonempty.
Qed.

Lemma desktop_body_tidy (t : pystr) : tidy (Tkinter.preprocess_email t).
Proof.
  destruct (desktop_body_inside t) as (a & b & E).
  apply (tidy_inside a _ b). rewrite <- E.
  apply tidy_after_signature, desktop_salutations_nonempty.
Qed.

Lemma web_body_no_signature (t : pystr) :
  ~ occurs (signature_here Streamlit.salutations) (Streamlit.preprocess_email t).
Proof.
  destruct (web_body_inside t) as (a & b & E). intros H.
  apply (occurs_inside _ a _ b (signature_here_grows _)) in H.
  rewrite <- E in H. revert H.
  intros H. eapply (squeeze_occurs _ (signature_here_survives _ web_salutations_plain)
                      (signature_here_nil _)) in H;
    [|apply collapse_newlines_squeeze].
  revert H. apply signature_step_no_signature, web_salutations_nonempty.
Qed.

Lemma desktop_body_no_signature (t : pystr) :
  ~ occurs (signature_here Tkinter.salutations) (Tkinter.preprocess_email t).
Proof.
  destruct (desktop_body_inside t) as (a & b & E). intros H.
  apply (occurs_inside _ a _ b (signature_here_grows _)) in H.
  rewrite <- E in H. revert H.
  apply signature_step_no_signature, desktop_salutations_nonempty.
Qed.

Lemma web_body_no_three (t : pystr) :
  ~ occurs three_newlines (Streamlit.preprocess_email t).
Proof.
  destruct (web_body_inside t) as (a & b & E). intros H.
  apply (occurs_inside _ a _ b three_newlines_grows) in H.
  rewrite <- E in H. revert H. apply collapse_newlines_no_three.
Qed.

(** In a text that is tidy and clean at both ends, a line of white
    space only is empty. *)
Lemma no_blank_line (p l : pystr) :
  tidy p -> starts_clean p = true -> ends_clean p = true ->
  In l (split_nl p) -> all_space l = true -> l = [].
Proof.
  intros T Hs He Hl Hw.
  destruct l as [|c l]; [reflexivity|exfalso].
  pose proof (split_nl_no_newline p _ Hl) as Hnl.
  unfold all_space in Hw. cbn [forallb] in Hw. apply andb_prop in Hw as [Hc Hw].
  destruct (line_in_text (S (length p)) p (Nat.lt_succ_diag_r _) _ Hl)
    as [E|(a & b & E & Hb)].
  - rewrite (line_split p), <- E in Hs. simpl in Hs. now rewrite Hc in Hs.
  - destruct Hb as [->|[b' ->]].
    + rewrite app_nil_r in E.
      assert (exists x d, p = x ++ [d] /\ isspace d = true) as (x & d & Ex & Hd).
      { destruct (exists_last (l := c :: l)) as (x & d & Ex); [discriminate|].
        exists (a ++ nl :: x), d. split.
        - rewrite E, Ex, <- app_assoc. reflexivity.
        - assert (Hin : In d (c :: l)) by (rewrite Ex; apply in_or_app; right; now left).
          destruct Hin as [<-|Hin]; [exact Hc|].
          rewrite forallb_forall in Hw. now apply Hw. }
      rewrite Ex in He. apply ends_clean_last in He. congruence.
    + apply (tidy_blank _ T). exists a, (nl :: (c :: l) ++ nl :: b').
      split; [exact E|].
      cbn [at_line app blank_line]. rewrite Ascii.eqb_refl, Hc.
      assert (Hcn : Ascii.eqb c nl = false).
      { apply Ascii.eqb_neq. intros ->. apply Hnl. now left. }
      rewrite Hcn. cbn [andb negb].
      rewrite ws_then_newline_app by (intros H; apply Hnl; now right).
      rewrite Hw. cbn [ws_then_newline]. now rewrite Ascii.eqb_refl.
Qed.

End Body.

(** ** The subject line *)
Section Subject.
Import Str Re Patterns.

Lemma web_subject_form (t : pystr) :
  Streamlit.extract_subject t =
  ellipsize (remove_label (strip (first_line (strip t)))).
Proof.
  unfold Streamlit.extract_subject. cbv zeta.
  rewrite label_step, <- split_nl_head.
  pose proof (split_nl_nonempty (strip t)).
  destruct (split_nl (strip t)); [congruence|reflexivity].
Qed.

Lemma desktop_subject_form (t : pystr) :
  Tkinter.extract_subject t = ellipsize (strip (first_line (strip t))).
Proof.
  unfold Tkinter.extract_subject. cbv zeta.
  rewrite <- split_nl_head.
  pose proof (split_nl_nonempty (strip t)).
  destruct (split_nl (strip t)); [congruence|reflexivity].
Qed.

Lemma ends_clean_suffix (a s : pystr) :
  ends_clean (a ++ s) = true -> ends_clean s = true.
Proof.
  unfold ends_clean. rewrite rev_app_distr. apply starts_clean_prefix.
Qed.

Lemma strip_line_clean (l : pystr) : ~ In nl l -> clean_line (strip l).
Proof.
  intros H. split; [|split].
  - destruct (strip_inside l) as (a & b & E). intros Hin. apply H.
    rewrite E. apply in_or_app. right. apply in_or_app. now left.
  - apply strip_starts_clean.
  - apply strip_ends_clean.
Qed.

Lemma remove_label_suffix (l : pystr) : exists a, l = a ++ remove_label l.
Proof.
  unfold remove_label. destruct (has_prefix same_ci (py "Subject:") l).
  - destruct (lstrip_suffix (skipn 8 l)) as [a E].
    exists (firstn 8 l ++ a). rewrite <- app_assoc, <- E.
    now rewrite firstn_skipn.
  - now exists [].
Qed.

Lemma remove_label_clean (l : pystr) : clean_line l -> clean_line (remove_label l).
Proof.
  intros (Hn & Hs & He). destruct (remove_label_suffix l) as [a E].
  split; [|split].
  - intros Hin. apply Hn. rewrite E. apply in_or_app. now right.
  - unfold remove_label. destruct (has_prefix same_ci (py "Subject:") l);
      [apply lstrip_starts_clean|exact Hs].
  - rewrite E in He. exact (ends_clean_suffix _ _ He).
Qed.

Lemma ellipsize_clean (s : pystr) : clean_line s -> clean_line (ellipsize s).
Proof.
  intros (Hn & Hs & He). unfold ellipsize.
  destruct (60 <? length s) eqn:E; [|now repeat split].
  apply Nat.ltb_lt in E. split; [|split].
  - intros Hin. apply in_app_or in Hin as [Hin|Hin].
    + apply Hn. rewrite <- (firstn_skipn 57 s). apply in_or_app. now left.
    + cbv in Hin. intuition discriminate.
  - destruct s as [|c s]; [simpl in E; lia|]. exact Hs.
  - unfold ends_clean. rewrite rev_app_distr. reflexivity.
Qed.

Lemma first_line_strip_clean (t : pystr) :
  clean_line (strip (first_line (strip t))).
Proof. apply strip_line_clean, first_line_no_newline. Qed.

Lemma web_subject_clean (t : pystr) : clean_line (Streamlit.extract_subject t).
Proof.
  rewrite web_subject_form.
  apply ellipsize_clean, remove_label_clean, first_line_strip_clean.
Qed.

Lemma desktop_subject_clean (t : pystr) : clean_line (Tkinter.extract_subject t).
Proof.
  rewrite desktop_subject_form.
  apply ellipsize_clean, first_line_strip_clean.
Qed.

(** On a clean line the two strips and the cut to the first line do
    nothing. *)
Lemma clean_line_kept (s : pystr) :
  clean_line s -> strip (first_line (strip s)) = s.
Proof.
  intros (Hn & Hs & He).
  rewrite (strip_clean _ Hs He), (first_line_id _ Hn).
  now apply strip_clean.
Qed.

Lemma ellipsize_short (s : pystr) : length s <= 60 -> ellipsize s = s.
Proof.
  intros H. unfold ellipsize. apply Nat.ltb_ge in H. now rewrite H.
Qed.

(** The subject is read off the first line of the stripped text. *)
Lemma first_line_strip_again (t : pystr) :
  strip (first_line (strip (first_line (strip t))))
  = strip (first_line (strip t)).
Proof.
  pose proof (first_line_strip_clean t) as (Hn & _ & _).
  rewrite (first_line_id _ Hn). apply strip_idem.
Qed.

End Subject.

(** ** Words *)
Section SplitWords.
Import Str.

Lemma split_from_word (word s : pystr) : word <> [] -> split_from word s <> [].
Proof.
  revert word. induction s as [|c s IH]; intros word H.
  - simpl. destruct word; [congruence|discriminate].
  - simpl. destruct (isspace c).
    + destruct word; [congruence|discriminate].
    + apply IH. discriminate.
Qed.

Lemma split_all_space (s : pystr) : all_space s = true -> split s = [].
Proof.
  unfold split, all_space. induction s as [|c s IH]; [reflexivity|].
  cbn [forallb split_from]. intros H. apply andb_prop in H as [Hc Hs].
  rewrite Hc. now apply IH.
Qed.

Lemma split_has_word (s : pystr) : all_space s = false -> split s <> [].
Proof.
  unfold split, all_space. induction s as [|c s IH]; [discriminate|].
  cbn [forallb split_from]. destruct (isspace c).
  - exact IH.
  - intros _. apply split_from_word. discriminate.
Qed.

End SplitWords.

(** ** The page of the web front end *)
Section Page.
Import Str Py.

Lemma main_not_loaded (ex : exn) (email_text : pystr)
  (clicked clear : bool) (set_state : res unit) :
  Streamlit.main (Raise ex) email_text clicked clear set_state [] =
  if is_exception ex then
    (Val tt,
     [Streamlit.StError
        (Streamlit.Computed (py "Failed to load model: " ++ exn_str ex));
      Streamlit.StError
        (Streamlit.Literal "❌ Failed to load AI model. Please refresh the page to try again.")])
  else (Raise ex, []).
Proof.
  unfold Streamlit.main, Streamlit.load_summarization_model.
  cbv [bind try_except of_res].
  destruct (is_exception ex); reflexivity.
Qed.

(** A run in which the Clear button was pressed ends at that button. *)
Lemma main_cleared (s : summarizer) (email_text : pystr) (clicked : bool)
  (set_state : res unit) :
  exists e pg,
    Streamlit.main (Val s) email_text clicked true set_state [] = (Raise e, pg)
    /\ page_calls pg = [].
Proof.
  unfold Streamlit.main, Streamlit.load_summarization_model.
  cbv [bind try_except of_res ret Streamlit.put Streamlit.st_rerun raise app].
  destruct set_state as [[]|e]; eexists; eexists; (split; reflexivity).
Qed.

Lemma main_idle (s : summarizer) (email_text : pystr) (clicked : bool)
  (set_state : res unit) :
  clicked && truthy email_text = false ->
  exists pg,
    Streamlit.main (Val s) email_text clicked false set_state [] = (Val tt, pg)
    /\ page_calls pg = [].
Proof.
  intros H. unfold Streamlit.main, Streamlit.load_summarization_model.
  cbv [bind try_except of_res ret Streamlit.put app].
  rewrite H. destruct (negb (truthy email_text));
    eexists; (split; [reflexivity|reflexivity]).
Qed.

Lemma main_summarizes (s : summarizer) (email_text : pystr)
  (set_state : res unit) :
  truthy email_text = true ->
  exists pg,
    Streamlit.main (Val s) email_text true false set_state [] =
    (match answer (s (web_call email_text)) with
     | Val _ => if length (split email_text) =? 0
                then Raise (Exception (py "division by zero")) else Val tt
     | Raise e => if is_exception e then Val tt else Raise e
     end, pg)
    /\ page_calls pg = [web_call email_text].
Proof.
  intros H. unfold Streamlit.main, Streamlit.load_summarization_model.
  cbv [bind try_except of_res ret Streamlit.put Streamlit.run call_object].
  rewrite H. cbn [andb]. rewrite summarize_email_run. unfold web_outcome.
  generalize (web_call email_text) as c.
  generalize (Streamlit.extract_subject email_text) as subj.
  generalize (length (split email_text)) as n.
  intros n subj c.
  destruct (1024 <? _); destruct (answer (s c)) as [summary|ex];
    [destruct n|destruct (is_exception ex)|destruct n|destruct (is_exception ex)];
    eexists; (split; [reflexivity|vm_compute; reflexivity]).
Qed.

End Page.

(** ** The window of the desktop front end *)
Section Window.
Import Str Py.

Lemma strip_input_blank (s : pystr) :
  all_space s = true -> strip (s ++ [nl]) = [].
Proof.
  intros H. apply strip_all_space. rewrite all_space_app, H. reflexivity.
Qed.

Lemma strip_input_word (s : pystr) :
  all_space s = false -> truthy (strip (s ++ [nl])) = true.
Proof.
  intros H. destruct (strip (s ++ [nl])) eqn:E; [|reflexivity].
  apply strip_nil_all_space in E. rewrite all_space_app, H in E.
  discriminate.
Qed.

Lemma desktop_outcome_shown delay email_text (s : summarizer) cb :
  snd (desktop_outcome delay email_text s cb) = desktop_shown delay email_text s.
Proof.
  unfold desktop_outcome, desktop_shown.
  destruct (answer _) as [summary|e]; [reflexivity|].
  destruct (is_exception e); reflexivity.
Qed.

(** A click that passes both guards. *)
Lemma click_started (delay : nat) (self : Tkinter.EmailSummarizer) :
  truthy (strip (Tkinter.email_input self ++ [nl])) = true ->
  Tkinter.model_loaded self = true ->
  Tkinter.click_summarize delay self =
  fold_left (fun w r => Tkinter.run_callback Tkinter.show r w)
    (desktop_shown delay (strip (Tkinter.email_input self ++ [nl]))
                   (call_object (Tkinter.self_summarizer self)))
    (Tkinter.set_summarize_btn false (Tkinter.set_progress true self)).
Proof.
  intros H Hm. unfold Tkinter.click_summarize, Tkinter.summarize_email.
  cbv zeta. rewrite H, Hm. cbn [negb].
  cbn [Tkinter.self_summarizer Tkinter.set_summarize_btn Tkinter.set_progress].
  destruct (request_at_run delay (strip (Tkinter.email_input self ++ [nl]))
                           (call_object (Tkinter.self_summarizer self)))
    as [cb E].
  rewrite E, <- (desktop_outcome_shown delay _ _ cb).
  destruct (desktop_outcome _ _ _ _) as [[r tr] shown]. reflexivity.
Qed.

(** A click that a guard stops. *)
Lemma click_refused (delay : nat) (self : Tkinter.EmailSummarizer) :
  truthy (strip (Tkinter.email_input self ++ [nl])) = false \/
  Tkinter.model_loaded self = false ->
  exists title message,
    Tkinter.click_summarize delay self =
    Tkinter.show_dialog (Tkinter.showwarning title message) self.
Proof.
  intros H. unfold Tkinter.click_summarize, Tkinter.summarize_email.
  cbv zeta.
  destruct (truthy (strip (Tkinter.email_input self ++ [nl])));
    cbn [negb]; [|eexists; eexists; reflexivity].
  destruct H as [H|H]; [discriminate|]. rewrite H.
  eexists. eexists. reflexivity.
Qed.

Lemma load_model_thread_loaded (delay : nat) (s : summarizer)
  (self : Tkinter.EmailSummarizer) :
  Tkinter.load_model_thread delay (Val s) self =
  Tkinter.set_summarize_btn true
    (Tkinter.set_status_label "Model loaded ✓"
       (Tkinter.set_model_loaded true
          (Tkinter.set_summarizer (Some s) self))).
Proof. destruct delay as [|[|delay]]; reflexivity. Qed.

(** A load that fails: the callback reports the failure while [e] is
    bound and fails itself afterwards; what is no instance of
    [Exception] ends the thread. *)
Lemma load_model_thread_failed (delay : nat) (ex : exn)
  (self : Tkinter.EmailSummarizer) :
  Tkinter.load_model_thread delay (Raise ex) self =
  if is_exception ex then
    match delay with
    | 0 => Tkinter.show_dialog (load_error_box ex)
             (Tkinter.set_status_label "Model failed to load" self)
    | S _ => self
    end
  else self.
Proof.
  unfold Tkinter.load_model_thread, Tkinter.load_model.
  cbv [bind try_except of_res].
  destruct (is_exception ex); [|reflexivity].
  destruct delay as [|[|[|delay]]]; reflexivity.
Qed.

Lemma window_ok_step (pipeline : res summarizer)
  (self : Tkinter.EmailSummarizer) (a : Tkinter.action) :
  window_ok pipeline self -> window_ok pipeline (Tkinter.step pipeline self a).
Proof.
  intros (Hm & Hb). destruct a as [email_text|delay| |delay]; cbn [Tkinter.step].
  - split; assumption.
  - assert (Hl : Tkinter.model_loaded self = true \/
                 Tkinter.model_loaded self = false)
      by (destruct (Tkinter.model_loaded self); auto).
    destruct (truthy (strip (Tkinter.email_input self ++ [nl]))) eqn:Ht;
      [destruct Hl as [Hl|Hl]|].
    + rewrite (click_started delay self Ht Hl).
      unfold desktop_shown, error_callback.
      destruct (answer _) as [summary|ex];
        [|destruct (is_exception ex); [destruct delay|]];
        cbn [fold_left Tkinter.run_callback Tkinter.show
             Tkinter.summarization_error];
        split;
        cbn [Tkinter.model_loaded Tkinter.self_summarizer Tkinter.summarize_btn
             Tkinter.set_summary_output Tkinter.set_subject_text
             Tkinter.set_summarize_btn Tkinter.set_progress
             Tkinter.show_dialog];
        try exact Hm; try (intros _; exact Hl); discriminate.
    + destruct (click_refused delay self (or_intror Hl)) as (title & message & ->).
      split; [exact Hm | exact Hb].
    + destruct (click_refused delay self (or_introl Ht)) as (title & message & ->).
      split; [exact Hm | exact Hb].
  - split; assumption.
  - destruct pipeline as [s|ex].
    + rewrite load_model_thread_loaded. split;
        cbn [Tkinter.model_loaded Tkinter.self_summarizer Tkinter.summarize_btn
             Tkinter.set_summarize_btn Tkinter.set_status_label
             Tkinter.set_model_loaded Tkinter.set_summarizer];
        [intros _; now exists s | reflexivity].
    + rewrite load_model_thread_failed.
      destruct (is_exception ex); [destruct delay|]; split; assumption.
Qed.

Lemma window_ok_init (pipeline : res summarizer) :
  window_ok pipeline Tkinter.init.
Proof. split; discriminate. Qed.

Lemma window_ok_steps (pipeline : res summarizer) (acts : list Tkinter.action) :
  forall self, window_ok pipeline self ->
               window_ok pipeline (fold_left (Tkinter.step pipeline) acts self).
Proof.
  induction acts as [|a acts IH]; intros self H; [exact H|].
  simpl. apply IH. now apply window_ok_step.
Qed.

Lemma never_loaded_step (ex : exn) (self : Tkinter.EmailSummarizer)
  (a : Tkinter.action) :
  never_loaded ex self -> never_loaded ex (Tkinter.step (Raise ex) self a).
Proof.
  intros (Hs & Hm & Hb & Hp & Hj & Ho & Hd).
  destruct a as [email_text|delay| |delay]; cbn [Tkinter.step].
  - repeat split; assumption.
  - destruct (click_refused delay self (or_intror Hm)) as (title & message & ->).
    repeat split; try assumption.
    cbn [Tkinter.dialogs Tkinter.show_dialog].
    apply Forall_app. split; [exact Hd|].
    apply Forall_cons; [now left|apply Forall_nil].
  - repeat split; assumption.
  - rewrite load_model_thread_failed.
    destruct (is_exception ex); [destruct delay|];
      repeat split; try assumption.
    cbn [Tkinter.dialogs Tkinter.show_dialog Tkinter.set_status_label].
    apply Forall_app. split; [exact Hd|].
    apply Forall_cons; [now right|apply Forall_nil].
Qed.

Lemma never_loaded_steps (ex : exn) (acts : list Tkinter.action) :
  forall self, never_loaded ex self ->
               never_loaded ex (fold_left (Tkinter.step (Raise ex)) acts self).
Proof.
  induction acts as [|a acts IH]; intros self H; [exact H|].
  simpl. apply IH. now apply never_loaded_step.
Qed.

End Window.

(** * Claims *)
Section Claims.
Import Str Re Patterns Py.

(** C1, on the desktop front end: a body of 2000 characters is cut to
    1024 before the summarizer is called, and the request then does one
    more thing only, the callback that sets the results; no warning is
    raised anywhere.  (The web front end does warn: [web_truncation].) *)
Theorem desktop_truncation_is_silent :
  let body := repeat "a"%char 2000 in
  Tkinter.preprocess_email body = body /\
  let '(r, tr, shown) := Tkinter.request body short_summary in
  r = Val tt /\
  desktop_calls tr = [mkCall (repeat "a"%char 1024) 150 30 false] /\
  length tr = 2 /\
  shown = [Val (Tkinter.SetResults (repeat "a"%char 57 ++ py "...")
                                   (py "short summary"))].
Proof.
  cbv zeta.
  assert (E : Tkinter.preprocess_email (repeat "a"%char 2000) = repeat "a"%char 2000)
    by (vm_compute; reflexivity).
  split; [exact E|].
  destruct (request_run (repeat "a"%char 2000) short_summary) as [cb ->].
  rewrite (desktop_outcome_ok 1 (repeat "a"%char 2000) short_summary cb
                              (py "short summary") eq_refl).
  unfold desktop_call. rewrite E.
  split; [reflexivity|].
  split; [vm_compute; reflexivity|].
  split; [reflexivity|].
  vm_compute; reflexivity.
Qed.

(** C2: either front end calls the summarizer once, asking for at most
    150 and at least 30 tokens without sampling; and when the answer's
    first candidate has a ['summary_text'], that text is the [Ok]
    result. *)
Theorem summarize_call_and_result (email_text : pystr) (summarizer : summarizer) :
  (let '(r, l) := Streamlit.summarize_email email_text summarizer [] in
   web_calls l =
     [mkCall (capped (Streamlit.preprocess_email email_text)) 150 30 false] /\
   forall d ds s,
     summarizer (web_call email_text) = Val (d :: ds) ->
     lookup d (py "summary_text") = Some s ->
     exists v, r = Val v /\ web_result v = Ok s)
  /\
  (let '(r, tr, shown) := Tkinter.request email_text summarizer in
   desktop_calls tr =
     [mkCall (capped (Tkinter.preprocess_email email_text)) 150 30 false] /\
   forall d ds s,
     summarizer (desktop_call email_text) = Val (d :: ds) ->
     lookup d (py "summary_text") = Some s ->
     exists u, shown = [Val u] /\ desktop_result u = Ok s).
Proof.
  split.
  - rewrite summarize_email_run. split.
    + unfold web_calls. rewrite flat_map_app.
      destruct (1024 <? _); reflexivity.
    + intros d ds s Hc Hl. unfold web_outcome, answer. rewrite Hc, Hl.
      eexists. split; reflexivity.
  - destruct (request_run email_text summarizer) as [cb ->].
    pose proof (desktop_outcome_calls 1 email_text summarizer cb) as Hcalls.
    pose proof (desktop_outcome_ok 1 email_text summarizer cb) as Hok.
    destruct (desktop_outcome 1 email_text summarizer cb) as [[r tr] shown].
    split.
    + exact Hcalls.
    + intros d ds s Hc Hl.
      assert (Ha : answer (summarizer (desktop_call email_text)) = Val s)
        by (unfold answer; now rewrite Hc, Hl).
      specialize (Hok s Ha). injection Hok as _ _ ->.
      eexists. split; reflexivity.
Qed.

Lemma summarize_call_and_result_witness :
  exists v u,
    fst (Streamlit.summarize_email (py "hello") short_summary []) = Val v /\
    web_result v = Ok (py "short summary") /\
    snd (Tkinter.request (py "hello") short_summary) = [Val u] /\
    desktop_result u = Ok (py "short summary").
Proof.
  pose proof (summarize_call_and_result (py "hello") short_summary) as [Hw Hd].
  destruct (Streamlit.summarize_email (py "hello") short_summary []) as [r l].
  destruct (Tkinter.request (py "hello") short_summary) as [[r' tr] shown].
  destruct Hw as [_ Hw]. destruct Hd as [_ Hd].
  destruct (Hw _ _ _ eq_refl eq_refl) as (v & Hv & Hv').
  destruct (Hd _ _ _ eq_refl eq_refl) as (u & Hu & Hu').
  exists v, u. cbn [fst snd]. auto.
Defined.

(** C3, on the desktop front end: when the summarizer raises
    [Exception("boom")], the worker catches it and calls the summarizer
    once, but the callback that should show the message reads [e] only
    when it runs.  In the run where that is after the worker has left
    the [except] clause it finds [e] unbound: the event loop gets a
    [NameError], and no [Failed] message with the text of the failure
    appears.  (The web front end returns the [Failed] result:
    [web_failure].) *)
Theorem desktop_failure_message_is_lost :
  let '(r, tr, shown) := Tkinter.request (py "hello") (failing (py "boom")) in
  r = Val tt /\
  desktop_calls tr = [mkCall (py "hello") 150 30 false] /\
  shown = [Raise (name_error (py "e"))] /\
  ~ exists u m, In (Val u) shown /\ desktop_result u = Failed m.
Proof.
  destruct (desktop_failure (py "hello") (failing (py "boom"))
                            (Exception (py "boom")) eq_refl eq_refl)
    as [cb ->].
  repeat split.
  intros (u & m & [H|[]] & _). discriminate H.
Qed.

(** C4 as stated fails: the input is stripped before it is split, so a
    text that starts with an empty line gets its first line with
    content as subject, not the empty first line. *)
Lemma subject_skips_leading_blank_lines :
  Streamlit.extract_subject (py "\nHello") = py "Hello" /\
  Tkinter.extract_subject (py "\nHello") = py "Hello" /\
  extractSubject_as_stated remove_label (py "\nHello") = [] /\
  extractSubject_as_stated (fun l => l) (py "\nHello") = [] /\
  Streamlit.extract_subject (py "\nHello")
    <> extractSubject_as_stated remove_label (py "\nHello") /\
  Tkinter.extract_subject (py "\nHello")
    <> extractSubject_as_stated (fun l => l) (py "\nHello").
Proof.
  split; [vm_compute; reflexivity|]. split; [vm_compute; reflexivity|].
  split; [vm_compute; reflexivity|]. split; [vm_compute; reflexivity|].
  split; vm_compute; discriminate.
Qed.

(** C4, amended: [extract_subject] takes the first line of the
    white-space-stripped input (there always is one, so the fallback to
    the first 60 characters is never taken), strips it, in the web
    front end removes the label, and when the result is longer than 60
    characters keeps its first 57 and appends ["..."]; the output
    never exceeds 60 characters. *)
Theorem extract_subject_first_line_of_stripped (t : pystr) :
  Streamlit.extract_subject t =
    ellipsize (remove_label (strip (first_line (strip t)))) /\
  Tkinter.extract_subject t = ellipsize (strip (first_line (strip t))) /\
  length (Streamlit.extract_subject t) <= 60 /\
  length (Tkinter.extract_subject t) <= 60.
Proof.
  assert (W : Streamlit.extract_subject t =
              ellipsize (remove_label (strip (first_line (strip t))))).
  { unfold Streamlit.extract_subject. cbv zeta.
    rewrite label_step, <- split_nl_head.
    pose proof (split_nl_nonempty (strip t)).
    destruct (split_nl (strip t)); [congruence|reflexivity]. }
  assert (D : Tkinter.extract_subject t = ellipsize (strip (first_line (strip t)))).
  { unfold Tkinter.extract_subject. cbv zeta.
    rewrite <- split_nl_head.
    pose proof (split_nl_nonempty (strip t)).
    destruct (split_nl (strip t)); [congruence|reflexivity]. }
  rewrite W, D. repeat split; apply ellipsize_length.
Qed.

(** C5, on the desktop front end: its [extract_subject] has no label
    step, and the example keeps its ["Subject: "].  (The web front end
    removes the label: [label_step], [web_subject_example].) *)
Theorem desktop_subject_keeps_label :
  Tkinter.extract_subject (py "Subject: Hello World\nBody...") =
  py "Subject: Hello World".
Proof. vm_compute. reflexivity. Qed.

(** C6 as stated fails: the desktop front end does not leave a header
    line in place. *)
Lemma desktop_strips_headers_too :
  is_header_line (py "From: a") = true /\
  Tkinter.preprocess_email (py "From: a\nhello") = py "hello" /\
  Tkinter.preprocess_email (py "From: a\nhello") <> py "From: a\nhello".
Proof.
  split; [reflexivity|]. split; [vm_compute; reflexivity|].
  vm_compute. discriminate.
Qed.

(** C6, amended: header-line removal is a step of both front ends, and
    it replaces every line that begins with [From:], [To:], [Date:],
    [Subject:], [Cc:] or [Bcc:] (in exactly this capitalization) by the
    empty line, leaving all other lines as they are. *)
Theorem headers_stripped_in_both_variants (t : pystr) :
  Streamlit.preprocess_email t =
    strip (collapse_newlines
             (strip_signature Streamlit.salutations
                (strip_quoted (strip_headers (collapse_blank_lines t))))) /\
  Tkinter.preprocess_email t =
    strip (strip_signature Tkinter.salutations
             (strip_quoted (strip_headers (collapse_blank_lines t)))) /\
  split_nl (strip_headers t) = map (blank_if is_header_line) (split_nl t) /\
  is_header_line (py "Date: today") = true /\
  is_header_line (py "date: today") = false.
Proof.
  split; [reflexivity|]. split; [reflexivity|].
  split; [|split; reflexivity].
  unfold strip_headers. rewrite header_step_by_lines. apply blank_lines_of.
Qed.

(** C7: the signature step cuts body text.  Its pattern has no anchor
    for the start of a line, unlike the header pattern and the quote
    pattern of the same function, so a salutation in front of a line
    break is taken wherever it starts, inside a line and inside a word.
    ["We disregards\nit"] and ["All the best\nJohn"] have no line that
    is a salutation, and by the claim the step leaves them as they are;
    [preprocess_email] returns ["We dis"] and ["All the"].  On the
    claim's own example the step does what the claim says. *)
Theorem signature_step_cuts_body_text :
  forallb (fun l => negb (is_salutation_line Streamlit.salutations l))
          (split_nl (py "We disregards\nit")) = true /\
  Streamlit.preprocess_email (py "We disregards\nit") = py "We dis" /\
  Tkinter.preprocess_email (py "We disregards\nit") = py "We dis" /\
  forallb (fun l => negb (is_salutation_line Streamlit.salutations l))
          (split_nl (py "All the best\nJohn")) = true /\
  Streamlit.preprocess_email (py "All the best\nJohn") = py "All the" /\
  Tkinter.preprocess_email (py "All the best\nJohn") = py "All the" /\
  ~ signature_only_on_salutation_lines Streamlit.salutations /\
  ~ signature_only_on_salutation_lines Tkinter.salutations /\
  Streamlit.preprocess_email (py "Body text\nBest regards,\nJohn Doe") = py "Body text" /\
  Tkinter.preprocess_email (py "Body text\nBest regards,\nJohn Doe") = py "Body text".
Proof.
  split; [vm_compute; reflexivity|]. split; [vm_compute; reflexivity|].
  split; [vm_compute; reflexivity|]. split; [vm_compute; reflexivity|].
  split; [vm_compute; reflexivity|]. split; [vm_compute; reflexivity|].
  split; [|split; [|split; vm_compute; reflexivity]]; intros H.
  - assert (F : forallb (fun l => negb (is_salutation_line Streamlit.salutations l))
                        (split_nl (py "We disregards\nit")) = true)
      by (vm_compute; reflexivity).
    pose proof (H _ (no_salutation_line_check _ _ F)) as E.
    revert E. vm_compute. discriminate.
  - assert (F : forallb (fun l => negb (is_salutation_line Tkinter.salutations l))
                        (split_nl (py "We disregards\nit")) = true)
      by (vm_compute; reflexivity).
    pose proof (H _ (no_salutation_line_check _ _ F)) as E.
    revert E. vm_compute. discriminate.
Qed.

(** C8 as stated fails: [" >q"] has no header line, quoted line,
    salutation or blank line at all, goes to [">q"], and that to the
    empty string.  The final [strip] uncovers a quote marker that the
    quote step had not seen at the start of a line. *)
Lemma preprocess_not_idempotent :
  no_repeated_structure Streamlit.salutations (py " >q") = true /\
  no_repeated_structure Tkinter.salutations (py " >q") = true /\
  Streamlit.preprocess_email (py " >q") = py ">q" /\
  Streamlit.preprocess_email (py ">q") = [] /\
  Tkinter.preprocess_email (py " >q") = py ">q" /\
  Tkinter.preprocess_email (py ">q") = [] /\
  Streamlit.preprocess_email (Streamlit.preprocess_email (py " >q"))
    <> Streamlit.preprocess_email (py " >q") /\
  Tkinter.preprocess_email (Tkinter.preprocess_email (py " >q"))
    <> Tkinter.preprocess_email (py " >q").
Proof.
  split; [vm_compute; reflexivity|]. split; [vm_compute; reflexivity|].
  split; [vm_compute; reflexivity|]. split; [vm_compute; reflexivity|].
  split; [vm_compute; reflexivity|]. split; [vm_compute; reflexivity|].
  split; vm_compute; discriminate.
Qed.

(** C8, amended: applying [preprocess_email] to its own output returns
    that output unchanged whenever the output does not itself begin with
    a header label or with a quote marker and, in the desktop front end
    (which has no step that collapses newlines), contains no three
    newlines in a row. *)
Theorem preprocess_email_idempotent_where_clean (t : pystr) :
  (let p := Streamlit.preprocess_email t in
   is_header_line p = false -> is_quoted_line p = false ->
   Streamlit.preprocess_email p = p) /\
  (let p := Tkinter.preprocess_email t in
   is_header_line p = false -> is_quoted_line p = false ->
   anywhere three_newlines p = false ->
   Tkinter.preprocess_email p = p).
Proof.
  pose proof (tidy_after_quotes t) as T3.
  set (t3 := strip_quoted (strip_headers (collapse_blank_lines t))) in *.
  split; cbv zeta.
  - rewrite (web_pipeline t). fold t3.
    set (t4 := strip_signature Streamlit.salutations t3).
    set (t5 := collapse_newlines t4).
    intros Hh Hq.
    assert (T4 : tidy t4).
    { destruct (strip_signature_prefix Streamlit.salutations t3) as [z E];
        [discriminate|].
      apply (tidy_inside [] t4 z). simpl. fold t4 in E. now rewrite <- E. }
    assert (S4 : ~ occurs (signature_here Streamlit.salutations) t4)
      by (apply signature_step_no_signature; discriminate).
    assert (Q5 : squeeze t4 t5) by apply collapse_newlines_squeeze.
    assert (T5 : tidy t5) by exact (tidy_squeeze _ _ Q5 T4).
    assert (S5 : ~ occurs (signature_here Streamlit.salutations) t5).
    { intros H. apply S4. revert H.
      apply squeeze_occurs; [|apply signature_here_nil|exact Q5].
      apply signature_here_survives, web_salutations_plain. }
    assert (N5 : ~ occurs three_newlines t5) by apply collapse_newlines_no_three.
    destruct (strip_inside t5) as (a & b & E).
    assert (Tp : tidy (strip t5)) by (apply (tidy_inside a _ b); now rewrite <- E).
    assert (Sp : ~ occurs (signature_here Streamlit.salutations) (strip t5)).
    { intros H. apply S5. rewrite E.
      apply occurs_inside; [apply signature_here_grows|exact H]. }
    assert (Np : ~ occurs three_newlines (strip t5)).
    { intros H. apply N5. rewrite E.
      apply occurs_inside; [apply three_newlines_grows|exact H]. }
    rewrite (web_pipeline (strip t5)).
    unfold collapse_blank_lines.
    rewrite (blank_step_same _ (tidy_blank _ Tp) Np).
    rewrite (header_step_same _ Hh Tp), (quote_step_same _ Hq Tp).
    unfold strip_signature at 1. rewrite (signature_step_same _ _ web_salutations_nonempty Sp).
    unfold collapse_newlines at 1. rewrite (newlines_step_same _ Np).
    apply strip_idem.
  - rewrite (desktop_pipeline t). fold t3.
    set (t4 := strip_signature Tkinter.salutations t3).
    intros Hh Hq H3. apply anywhere_false in H3.
    assert (T4 : tidy t4).
    { destruct (strip_signature_prefix Tkinter.salutations t3) as [z E];
        [discriminate|].
      apply (tidy_inside [] t4 z). simpl. fold t4 in E. now rewrite <- E. }
    assert (S4 : ~ occurs (signature_here Tkinter.salutations) t4)
      by (apply signature_step_no_signature; discriminate).
    destruct (strip_inside t4) as (a & b & E).
    assert (Tp : tidy (strip t4)) by (apply (tidy_inside a _ b); now rewrite <- E).
    assert (Sp : ~ occurs (signature_here Tkinter.salutations) (strip t4)).
    { intros H. apply S4. rewrite E.
      apply occurs_inside; [apply signature_here_grows|exact H]. }
    rewrite (desktop_pipeline (strip t4)).
    unfold collapse_blank_lines.
    rewrite (blank_step_same _ (tidy_blank _ Tp) H3).
    rewrite (header_step_same _ Hh Tp), (quote_step_same _ Hq Tp).
    unfold strip_signature at 1. rewrite (signature_step_same _ _ desktop_salutations_nonempty Sp).
    apply strip_idem.
Qed.

Lemma preprocess_email_idempotent_where_clean_witness :
  Streamlit.preprocess_email sample_message = py "Hi team,\n\nPlease review." /\
  Streamlit.preprocess_email (Streamlit.preprocess_email sample_message)
    = Streamlit.preprocess_email sample_message /\
  Tkinter.preprocess_email (Tkinter.preprocess_email sample_message)
    = Tkinter.preprocess_email sample_message.
Proof.
  split; [vm_compute; reflexivity|].
  destruct (preprocess_email_idempotent_where_clean sample_message) as [W D].
  split.
  - apply W; vm_compute; reflexivity.
  - apply D; vm_compute; reflexivity.
Defined.

(** C10: the output of [preprocess_email] is never longer than its
    input, in either front end. *)
Theorem preprocess_email_never_longer (t : pystr) :
  length (Streamlit.preprocess_email t) <= length t /\
  length (Tkinter.preprocess_email t) <= length t.
Proof.
  assert (B : forall s, length (collapse_blank_lines s) <= length s)
    by (intros s; apply sub_length, Nat.leb_le; reflexivity).
  assert (H : forall s, length (strip_headers s) <= length s)
    by (intros s; apply sub_length, Nat.le_0_l).
  assert (Q : forall s, length (strip_quoted s) <= length s)
    by (intros s; apply sub_length, Nat.le_0_l).
  assert (S : forall sal s, length (strip_signature sal s) <= length s)
    by (intros sal s; apply sub_length, Nat.le_0_l).
  assert (N : forall s, length (collapse_newlines s) <= length s)
    by (intros s; apply sub_length, Nat.leb_le; reflexivity).
  rewrite web_pipeline, desktop_pipeline.
  pose proof (B t) as Hb.
  pose proof (H (collapse_blank_lines t)) as Hh.
  pose proof (Q (strip_headers (collapse_blank_lines t))) as Hq.
  split.
  - pose proof (S Streamlit.salutations
                  (strip_quoted (strip_headers (collapse_blank_lines t)))) as Hs.
    pose proof (N (strip_signature Streamlit.salutations
                     (strip_quoted (strip_headers (collapse_blank_lines t))))) as Hn.
    pose proof (strip_length
                  (collapse_newlines
                     (strip_signature Streamlit.salutations
                        (strip_quoted (strip_headers (collapse_blank_lines t)))))).
    lia.
  - pose proof (S Tkinter.salutations
                  (strip_quoted (strip_headers (collapse_blank_lines t)))) as Hs.
    pose proof (strip_length
                  (strip_signature Tkinter.salutations
                     (strip_quoted (strip_headers (collapse_blank_lines t))))).
    lia.
Qed.

End Claims.

(** * Further properties

    What else the code shows, beyond the claims of the specification:
    the shape of a cleaned body and of a subject, the hand-over to the
    summarizer, and the windows of the two front ends. *)
Section Further.
Import Str Re Patterns Py.

(** ** The cleaned body *)

(** X1: [preprocess_email] only deletes.  Its output is the input with
    some characters taken out: nothing is added, changed or moved, in
    either front end. *)
Theorem cleaning_only_deletes (t : pystr) :
  subseq (Streamlit.preprocess_email t) t /\
  subseq (Tkinter.preprocess_email t) t.
Proof.
  rewrite web_pipeline, desktop_pipeline. split.
  - eapply subseq_trans; [apply strip_subseq|apply web_steps_subseq].
  - eapply subseq_trans; [apply strip_subseq|apply desktop_steps_subseq].
Qed.

(** X2: a message of white space only, the empty message included, has
    an empty body and an empty subject in both front ends. *)
Theorem blank_message_gives_nothing (t : pystr) :
  all_space t = true ->
  Streamlit.preprocess_email t = [] /\
  Tkinter.preprocess_email t = [] /\
  Streamlit.extract_subject t = [] /\
  Tkinter.extract_subject t = [].
Proof.
  intros H.
  assert (S : forall l, ellipsize (l (strip (first_line (strip t)))) = ellipsize (l [])).
  { intros l. now rewrite (strip_all_space t H). }
  split; [|split; [|split]].
  - rewrite web_pipeline. apply strip_all_space.
    exact (subseq_all_space _ _ (web_steps_subseq t) H).
  - rewrite desktop_pipeline. apply strip_all_space.
    exact (subseq_all_space _ _ (desktop_steps_subseq t) H).
  - rewrite web_subject_form. exact (S remove_label).
  - rewrite desktop_subject_form. exact (S (fun l => l)).
Qed.

Lemma blank_message_gives_nothing_witness :
  Streamlit.preprocess_email (py " \n\t ") = [] /\
  Tkinter.preprocess_email (py " \n\t ") = [] /\
  Streamlit.extract_subject (py " \n\t ") = [] /\
  Tkinter.extract_subject (py " \n\t ") = [].
Proof. apply (blank_message_gives_nothing (py " \n\t ")). reflexivity. Defined.

(** X3: a cleaned body neither starts nor ends with white space. *)
Theorem body_has_no_outer_white_space (t : pystr) :
  starts_clean (Streamlit.preprocess_email t) = true /\
  ends_clean (Streamlit.preprocess_email t) = true /\
  starts_clean (Tkinter.preprocess_email t) = true /\
  ends_clean (Tkinter.preprocess_email t) = true.
Proof.
  rewrite web_pipeline, desktop_pipeline.
  repeat split; first [apply strip_starts_clean | apply strip_ends_clean].
Qed.

(** X4: in the web front end a cleaned body never has three newlines in
    a row. *)
Theorem web_body_has_no_three_newlines (t : pystr) :
  anywhere three_newlines (Streamlit.preprocess_email t) = false.
Proof. apply anywhere_false, web_body_no_three. Qed.

(** X5: after its first line, a cleaned body has no line that begins
    with a header label and a colon, and none that begins with [>]. *)
Theorem later_lines_are_no_headers_or_quotes (t : pystr) :
  forallb (fun l => negb (is_header_line l) && negb (is_quoted_line l))
          (tl (split_nl (Streamlit.preprocess_email t))) = true /\
  forallb (fun l => negb (is_header_line l) && negb (is_quoted_line l))
          (tl (split_nl (Tkinter.preprocess_email t))) = true.
Proof.
  assert (G : forall p, tidy p ->
            forallb (fun l => negb (is_header_line l) && negb (is_quoted_line l))
                    (tl (split_nl p)) = true).
  { intros p T. apply forallb_forall. intros l Hl.
    destruct (is_header_line l) eqn:Hh.
    - destruct (tidy_header _ T).
      exact (later_line_occurs _ p l is_header_line_grows Hl Hh).
    - destruct (is_quoted_line l) eqn:Hq; [|reflexivity].
      destruct (tidy_quoted _ T).
      exact (later_line_occurs _ p l is_quoted_line_grows Hl Hq). }
  split; [apply G, web_body_tidy | apply G, desktop_body_tidy].
Qed.

(** X6: every line of a cleaned body is empty or has a character that
    is not white space. *)
Theorem body_has_no_blank_line (t : pystr) :
  forallb (fun l => negb (truthy l) || negb (all_space l))
          (split_nl (Streamlit.preprocess_email t)) = true /\
  forallb (fun l => negb (truthy l) || negb (all_space l))
          (split_nl (Tkinter.preprocess_email t)) = true.
Proof.
  assert (G : forall p, tidy p -> starts_clean p = true -> ends_clean p = true ->
            forallb (fun l => negb (truthy l) || negb (all_space l))
                    (split_nl p) = true).
  { intros p T Hs He. apply forallb_forall. intros l Hl.
    destruct (all_space l) eqn:Hw; [|apply orb_true_r].
    now rewrite (no_blank_line p l T Hs He Hl Hw). }
  split.
  - apply G; [apply web_body_tidy | |]; rewrite web_pipeline;
      [apply strip_starts_clean | apply strip_ends_clean].
  - apply G; [apply desktop_body_tidy | |]; rewrite desktop_pipeline;
      [apply strip_starts_clean | apply strip_ends_clean].
Qed.

(** X7: no salutation of the front end's list, in any case, is left in
    a cleaned body in front of an optional comma, white space and a
    newline. *)
Theorem body_has_no_signature (t : pystr) :
  anywhere (signature_here Streamlit.salutations)
           (Streamlit.preprocess_email t) = false /\
  anywhere (signature_here Tkinter.salutations)
           (Tkinter.preprocess_email t) = false.
Proof.
  split; apply anywhere_false;
    [apply web_body_no_signature|apply desktop_body_no_signature].
Qed.

(** X8: the quote step works line by line.  A line that begins with
    [>] becomes the empty line, every other line stays, and the number
    of lines does not change. *)
Theorem quoted_lines_are_blanked (t : pystr) :
  split_nl (strip_quoted t) = map (blank_if is_quoted_line) (split_nl t).
Proof.
  unfold strip_quoted. rewrite quote_step_by_lines. apply blank_lines_of.
Qed.

(** ** The subject *)

(** X9: a subject is one line: it has no newline in it and no white
    space at either end. *)
Theorem subject_is_one_clean_line (t : pystr) :
  clean_line (Streamlit.extract_subject t) /\
  clean_line (Tkinter.extract_subject t).
Proof. split; [apply web_subject_clean|apply desktop_subject_clean]. Qed.

(** X10: the subject depends on the first line of the stripped message
    only. *)
Theorem subject_comes_from_first_line (t : pystr) :
  Streamlit.extract_subject t = Streamlit.extract_subject (first_line (strip t)) /\
  Tkinter.extract_subject t = Tkinter.extract_subject (first_line (strip t)).
Proof.
  rewrite !web_subject_form, !desktop_subject_form.
  now rewrite first_line_strip_again.
Qed.

(** X11: where the first line does not begin with the label, the two
    front ends give the same subject. *)
Theorem subjects_agree_without_label (t : pystr) :
  has_prefix same_ci (py "Subject:") (strip (first_line (strip t))) = false ->
  Streamlit.extract_subject t = Tkinter.extract_subject t.
Proof.
  intros H. rewrite web_subject_form, desktop_subject_form.
  unfold remove_label. now rewrite H.
Qed.

Lemma subjects_agree_without_label_witness :
  Streamlit.extract_subject (py "  Hello there \nBody")
  = Tkinter.extract_subject (py "  Hello there \nBody").
Proof.
  apply (subjects_agree_without_label (py "  Hello there \nBody")).
  reflexivity.
Defined.

(** X12: the desktop front end gives a subject back unchanged. *)
Theorem desktop_subject_is_fixed_point (t : pystr) :
  Tkinter.extract_subject (Tkinter.extract_subject t) = Tkinter.extract_subject t.
Proof.
  pose proof (desktop_subject_clean t) as C.
  assert (L : length (Tkinter.extract_subject t) <= 60)
    by (rewrite desktop_subject_form; apply ellipsize_length).
  rewrite (desktop_subject_form (Tkinter.extract_subject t)).
  rewrite (clean_line_kept _ C). now apply ellipsize_short.
Qed.

(** ** The hand-over to the summarizer *)

(** X13: the web front end warns exactly when it cuts.  Its log is the
    warning, if the cleaned body is longer than 1024 characters, and
    then one call with the first 1024 characters of that body. *)
Theorem web_warns_exactly_when_it_cuts (email_text : pystr) (summarizer : summarizer) :
  snd (Streamlit.summarize_email email_text summarizer []) =
  (if 1024 <? length (Streamlit.preprocess_email email_text)
   then [Streamlit.StWarning Streamlit.truncation_message] else [])
  ++ [Streamlit.Invoke
        (mkCall (firstn 1024 (Streamlit.preprocess_email email_text))
                150 30 false)].
Proof.
  rewrite summarize_email_run. cbn [snd]. unfold web_call, capped, slice_to.
  generalize (Streamlit.preprocess_email email_text) as body. intros body.
  destruct (1024 <? length body) eqn:E; [reflexivity|].
  apply Nat.ltb_ge in E. now rewrite (firstn_all2 body E).
Qed.

(** X14: whatever the message, no call of the summarizer carries more
    than 1024 characters, in either front end. *)
Theorem summarizer_input_is_bounded (email_text : pystr) (summarizer : summarizer) :
  Forall (fun c => length (arg c) <= 1024)
         (web_calls (snd (Streamlit.summarize_email email_text summarizer []))) /\
  Forall (fun c => length (arg c) <= 1024)
         (desktop_calls (snd (fst (Tkinter.request email_text summarizer)))).
Proof.
  split.
  - rewrite summarize_email_run. cbn [snd]. unfold web_calls, web_call.
    rewrite flat_map_app.
    destruct (1024 <? _); cbn [flat_map app];
      (apply Forall_cons; [apply capped_length | apply Forall_nil]).
  - destruct (request_run email_text summarizer) as [cb ->].
    rewrite desktop_outcome_calls. unfold desktop_call.
    apply Forall_cons; [apply capped_length | apply Forall_nil].
Qed.

(** X15: [summarize_email] of the web front end raises only what the
    summarizer raises that is no instance of [Exception].  After an
    answer it returns the subject, the summary and [True]; after a
    failure that is an instance of [Exception] it returns the subject,
    the message with [str(e)] and [False]; anything else the
    summarizer raises goes through the handler as it is. *)
Theorem web_summarize_email_outcome (email_text : pystr) (summarizer : summarizer) :
  fst (Streamlit.summarize_email email_text summarizer []) =
  match answer (summarizer (web_call email_text)) with
  | Val summary => Val (Streamlit.extract_subject email_text, summary, true)
  | Raise e =>
      if is_exception e
      then Val (Streamlit.extract_subject email_text,
                py "Error generating summary: " ++ exn_str e, false)
      else Raise e
  end.
Proof. rewrite summarize_email_run. reflexivity. Qed.

(** X16: an answer of the summarizer that is not of the expected shape
    is a failure like any other.  An empty list gives the message of
    the [IndexError], a first entry without the key that of the
    [KeyError]. *)
Theorem web_malformed_answers_are_failures (email_text : pystr) (summarizer : summarizer) :
  (summarizer (web_call email_text) = Val [] ->
   fst (Streamlit.summarize_email email_text summarizer []) =
   Val (Streamlit.extract_subject email_text,
        py "Error generating summary: list index out of range", false)) /\
  (forall d ds,
     summarizer (web_call email_text) = Val (d :: ds) ->
     lookup d (py "summary_text") = None ->
     fst (Streamlit.summarize_email email_text summarizer []) =
     Val (Streamlit.extract_subject email_text,
          py "Error generating summary: 'summary_text'", false)).
Proof.
  split.
  - intros H. rewrite summarize_email_run. cbn [fst].
    unfold web_outcome, answer. now rewrite H.
  - intros d ds H K. rewrite summarize_email_run. cbn [fst].
    unfold web_outcome, answer. now rewrite H, K.
Qed.

Lemma web_malformed_answers_are_failures_witness :
  fst (Streamlit.summarize_email (py "hello") (fun _ => Val []) []) =
  Val (py "hello", py "Error generating summary: list index out of range", false) /\
  fst (Streamlit.summarize_email (py "hello")
         (fun _ => Val [[(py "text", py "a summary")]]) []) =
  Val (py "hello", py "Error generating summary: 'summary_text'", false).
Proof.
  split.
  - exact (proj1 (web_malformed_answers_are_failures
                    (py "hello") (fun _ => Val [])) eq_refl).
  - exact (proj2 (web_malformed_answers_are_failures
                    (py "hello") (fun _ => Val [[(py "text", py "a summary")]]))
                 [(py "text", py "a summary")] [] eq_refl eq_refl).
Defined.

(** X17: the worker of the desktop front end, in any run.  It calls
    the summarizer once.  After an answer it returns and leaves one
    callback, which shows subject and summary.  After a failure that is
    an instance of [Exception] it returns and leaves one callback: run
    while [e] is bound, the callback reports the failure with [str(e)];
    run after the [except] clause has unbound [e], it raises a
    [NameError].  Anything else the summarizer raises ends the worker,
    and no callback is left. *)
Theorem desktop_worker_outcome (delay : nat) (email_text : pystr)
  (summarizer : summarizer) :
  let '(r, tr, shown) := Tkinter.request_at delay email_text summarizer in
  desktop_calls tr = [desktop_call email_text] /\
  match answer (summarizer (desktop_call email_text)) with
  | Val summary =>
      r = Val tt /\ length (Tkinter.scheduled tr) = 1 /\
      shown = [Val (Tkinter.SetResults (Tkinter.extract_subject email_text)
                                       summary)]
  | Raise e =>
      if is_exception e then
        r = Val tt /\ length (Tkinter.scheduled tr) = 1 /\
        shown = [match delay with
                 | 0 => Val (Tkinter.ShowError
                               (py "Summarization Error")
                               (py "Failed to summarize the email:\n" ++ exn_str e))
                 | S _ => Raise (name_error (py "e"))
                 end]
      else r = Raise e /\ Tkinter.scheduled tr = [] /\ shown = []
  end.
Proof.
  destruct (request_at_run delay email_text summarizer) as [cb ->].
  unfold desktop_outcome. cbv zeta.
  destruct (answer _) as [summary|e]; [repeat split|].
  destruct (is_exception e); [|repeat split].
  destruct delay; repeat split.
Qed.

(** ** The window of the desktop front end *)

(** X18: with nothing but white space in the input area, the handler of
    the button shows the warning "No Input" and starts no worker,
    whether the model is loaded or not. *)
Theorem blank_input_is_refused (self : Tkinter.EmailSummarizer) :
  all_space (Tkinter.email_input self) = true ->
  Tkinter.summarize_email self =
  (Tkinter.show_dialog
     (Tkinter.showwarning (py "No Input")
                          (py "Please enter an email message to summarize."))
     self, None).
Proof.
  intros H. unfold Tkinter.summarize_email. cbv zeta.
  now rewrite (strip_input_blank _ H).
Qed.

Lemma blank_input_is_refused_witness :
  Tkinter.summarize_email (Tkinter.set_email_input (py "  \n") Tkinter.init) =
  (Tkinter.show_dialog
     (Tkinter.showwarning (py "No Input")
                          (py "Please enter an email message to summarize."))
     (Tkinter.set_email_input (py "  \n") Tkinter.init), None).
Proof.
  apply (blank_input_is_refused (Tkinter.set_email_input (py "  \n") Tkinter.init)).
  reflexivity.
Defined.

(** X19: with a message in the input area and the model not loaded,
    the handler shows the warning "Model Loading" and starts no
    worker. *)
Theorem click_before_model_is_refused (self : Tkinter.EmailSummarizer) :
  all_space (Tkinter.email_input self) = false ->
  Tkinter.model_loaded self = false ->
  Tkinter.summarize_email self =
  (Tkinter.show_dialog
     (Tkinter.showwarning (py "Model Loading")
                          (py "Please wait for the model to load."))
     self, None).
Proof.
  intros H Hm. unfold Tkinter.summarize_email. cbv zeta.
  now rewrite (strip_input_word _ H), Hm.
Qed.

Lemma click_before_model_is_refused_witness :
  Tkinter.summarize_email (Tkinter.set_email_input (py "hello") Tkinter.init) =
  (Tkinter.show_dialog
     (Tkinter.showwarning (py "Model Loading")
                          (py "Please wait for the model to load."))
     (Tkinter.set_email_input (py "hello") Tkinter.init), None).
Proof.
  apply (click_before_model_is_refused
           (Tkinter.set_email_input (py "hello") Tkinter.init));
    reflexivity.
Defined.

(** X20: a click that the summarizer answers ends, in any run, with
    the bar stopped, the button enabled again, and the subject and the
    summary of the stripped input on the screen; no message box is
    shown. *)
Theorem click_shows_results (delay : nat) (self : Tkinter.EmailSummarizer)
  (s : summarizer) (summary : pystr) :
  let email_text := strip (Tkinter.email_input self ++ [nl]) in
  all_space (Tkinter.email_input self) = false ->
  Tkinter.model_loaded self = true ->
  Tkinter.self_summarizer self = Some s ->
  answer (s (desktop_call email_text)) = Val summary ->
  let w := Tkinter.click_summarize delay self in
  Tkinter.progress w = false /\
  Tkinter.summarize_btn w = true /\
  Tkinter.subject_text w = Tkinter.extract_subject email_text /\
  Tkinter.summary_output w = summary /\
  Tkinter.dialogs w = Tkinter.dialogs self /\
  Tkinter.email_input w = Tkinter.email_input self.
Proof.
  intros email_text H Hm Hs Ha w. subst w.
  rewrite (click_started delay self (strip_input_word _ H) Hm).
  unfold desktop_shown. fold email_text. rewrite Hs.
  cbn [call_object]. rewrite Ha. repeat split.
Qed.

Lemma click_shows_results_witness :
  let w := Tkinter.click_summarize 0 (loaded_window short_summary) in
  Tkinter.progress w = false /\
  Tkinter.summarize_btn w = true /\
  Tkinter.subject_text w = py "hello" /\
  Tkinter.summary_output w = py "short summary" /\
  Tkinter.dialogs w = [] /\
  Tkinter.email_input w = py "hello".
Proof.
  apply (click_shows_results 0 (loaded_window short_summary) short_summary
                             (py "short summary"));
    reflexivity.
Defined.

(** X21: a click on which the summarizer fails has two ends, and subject
    and summary stay as they were in both.  When the failure is an
    instance of [Exception] and the callback runs while [e] is bound,
    the bar is stopped, the button enabled, and the error box shows
    [str(e)].  Otherwise (the callback runs after the [except] clause
    has unbound [e], or the failure ended the worker) the window stays
    busy: the bar keeps running, the button stays disabled, and no
    message box is shown. *)
Theorem failed_click_outcomes (delay : nat) (self : Tkinter.EmailSummarizer)
  (s : summarizer) (ex : exn) :
  let email_text := strip (Tkinter.email_input self ++ [nl]) in
  all_space (Tkinter.email_input self) = false ->
  Tkinter.model_loaded self = true ->
  Tkinter.self_summarizer self = Some s ->
  answer (s (desktop_call email_text)) = Raise ex ->
  let w := Tkinter.click_summarize delay self in
  Tkinter.subject_text w = Tkinter.subject_text self /\
  Tkinter.summary_output w = Tkinter.summary_output self /\
  if is_exception ex && (delay =? 0) then
    Tkinter.progress w = false /\
    Tkinter.summarize_btn w = true /\
    Tkinter.dialogs w = Tkinter.dialogs self ++ [summarization_error_box ex]
  else
    Tkinter.progress w = true /\
    Tkinter.summarize_btn w = false /\
    Tkinter.dialogs w = Tkinter.dialogs self.
Proof.
  intros email_text H Hm Hs Ha w. subst w.
  rewrite (click_started delay self (strip_input_word _ H) Hm).
  unfold desktop_shown. fold email_text. rewrite Hs.
  cbn [call_object]. rewrite Ha.
  destruct (is_exception ex); [destruct delay|]; repeat split.
Qed.

Lemma failed_click_outcomes_witness :
  (let w := Tkinter.click_summarize 0 (loaded_window (failing (py "boom"))) in
   Tkinter.progress w = false /\
   Tkinter.summarize_btn w = true /\
   Tkinter.dialogs w = [summarization_error_box (Exception (py "boom"))]) /\
  (let w := Tkinter.click_summarize 1 (loaded_window (failing (py "boom"))) in
   Tkinter.progress w = true /\
   Tkinter.summarize_btn w = false /\
   Tkinter.dialogs w = []).
Proof.
  split.
  - exact (proj2 (proj2 (failed_click_outcomes
                           0 (loaded_window (failing (py "boom")))
                           (failing (py "boom")) (Exception (py "boom"))
                           eq_refl eq_refl eq_refl eq_refl))).
  - exact (proj2 (proj2 (failed_click_outcomes
                           1 (loaded_window (failing (py "boom")))
                           (failing (py "boom")) (Exception (py "boom"))
                           eq_refl eq_refl eq_refl eq_refl))).
Defined.

(** X22: a failed load is final.  When building the pipeline fails,
    then at any time after [__init__], whatever the user does and
    whenever the callback of the loader runs, the object holds no
    pipeline, [model_loaded] is not set, the button is disabled, the bar
    does not run, no subject and no summary are shown, and every
    message box is a warning or the report of that failure. *)
Theorem failed_load_is_final (ex : exn) (acts : list Tkinter.action) :
  never_loaded ex (Tkinter.session (Raise ex) acts).
Proof.
  apply never_loaded_steps.
  repeat split. apply Forall_nil.
Qed.

(** X23: at any time after [__init__], whatever the user does, whenever
    the loader thread ends and whenever the callbacks run,
    [model_loaded] is set only if the pipeline was built and the object
    holds it, and the button is enabled only if the model is loaded. *)
Theorem window_invariants (pipeline : res summarizer) (acts : list Tkinter.action) :
  window_ok pipeline (Tkinter.session pipeline acts).
Proof. apply window_ok_steps, window_ok_init. Qed.

(** ** The page of the web front end *)

(** X24: in one run of [main] the summarizer is called at most once,
    and it is called only if the model was loaded, the Clear button was
    not pressed, the Summarize button was pressed and the input area is
    not empty. *)
Theorem main_calls_only_when_ready (pipeline : res summarizer)
  (email_text : pystr) (summarize_clicked clear_clicked : bool)
  (set_state : res unit) :
  page_calls (snd (Streamlit.main pipeline email_text summarize_clicked
                                  clear_clicked set_state [])) =
  match pipeline with
  | Val _ => if negb clear_clicked && summarize_clicked && truthy email_text
             then [web_call email_text] else []
  | Raise _ => []
  end.
Proof.
  destruct pipeline as [s|ex].
  - destruct clear_clicked.
    + destruct (main_cleared s email_text summarize_clicked set_state)
        as (e & pg & -> & H). exact H.
    + cbn [negb andb].
      destruct (summarize_clicked && truthy email_text) eqn:E.
      * apply andb_prop in E as [-> E].
        destruct (main_summarizes s email_text set_state E) as (pg & -> & H).
        exact H.
      * destruct (main_idle s email_text _ set_state E) as (pg & -> & H).
        exact H.
  - rewrite main_not_loaded. destruct (is_exception ex); reflexivity.
Qed.

(** X25: on an input of white space only that is not empty, a summary
    makes [main] raise.  The statistics divide by the number of words
    of the input, which is zero. *)
Theorem main_divides_by_zero_on_blank_text (s : summarizer)
  (email_text summary : pystr) (set_state : res unit) :
  truthy email_text = true ->
  all_space email_text = true ->
  answer (s (web_call email_text)) = Val summary ->
  fst (Streamlit.main (Val s) email_text true false set_state []) =
  Raise (Exception (py "division by zero")).
Proof.
  intros Ht Hw Ha.
  destruct (main_summarizes s email_text set_state Ht) as (pg & -> & _).
  cbn [fst]. rewrite Ha, (split_all_space _ Hw). reflexivity.
Qed.

Lemma main_divides_by_zero_on_blank_text_witness :
  fst (Streamlit.main (Val short_summary) (py " ") true false (Val tt) []) =
  Raise (Exception (py "division by zero")).
Proof.
  apply (main_divides_by_zero_on_blank_text short_summary (py " ")
                                            (py "short summary") (Val tt));
    reflexivity.
Defined.

(** X26: a run of [main] in which the Clear button is not pressed, on
    an input with at least one character that is not white space, ends
    without raising, provided that neither the constructor of the model
    nor the summarizer raises something that is no instance of
    [Exception]: every other failure is caught, and the statistics
    divide by a number of words that is not zero. *)
Theorem main_finishes_when_text_has_a_word (pipeline : res summarizer)
  (email_text : pystr) (summarize_clicked : bool) (set_state : res unit) :
  all_space email_text = false ->
  escapes pipeline = false ->
  (forall s, pipeline = Val s -> escapes (s (web_call email_text)) = false) ->
  fst (Streamlit.main pipeline email_text summarize_clicked false set_state [])
  = Val tt.
Proof.
  intros Hw Hp Hs. destruct pipeline as [s|ex].
  - specialize (Hs s eq_refl).
    destruct (summarize_clicked && truthy email_text) eqn:E.
    + apply andb_prop in E as [-> E].
      destruct (main_summarizes s email_text set_state E) as (pg & -> & _).
      cbn [fst].
      destruct (answer_cases (s (web_call email_text)))
        as [[summary ->]|[(e & -> & He)|(e & Hr & _ & He)]].
      * pose proof (split_has_word _ Hw) as Hn.
        destruct (split email_text); [congruence|reflexivity].
      * now rewrite He.
      * rewrite Hr in Hs. cbn [escapes] in Hs. rewrite He in Hs. discriminate.
    + destruct (main_idle s email_text _ set_state E) as (pg & -> & _).
      reflexivity.
  - rewrite main_not_loaded. cbn [escapes] in Hp.
    apply negb_false_iff in Hp. now rewrite Hp.
Qed.

Lemma main_finishes_when_text_has_a_word_witness :
  fst (Streamlit.main (Val (failing (py "boom"))) (py "hello") true false
                      (Val tt) []) = Val tt.
Proof.
  apply (main_finishes_when_text_has_a_word
           (Val (failing (py "boom"))) (py "hello") true (Val tt)).
  - reflexivity.
  - reflexivity.
  - intros s E. injection E as <-. reflexivity.
Defined.

End Further.
